(** * Slipstream TypeScript SDK: transport core, binary codec and region router

    A shallow embedding of the parts of [@allenhark/slipstream] that the
    specification of the connection and transport core talks about:

    - [Js]: the fragment of JavaScript numbers and Node.js [Buffer] that the
      binary codec relies on (indexing that yields [undefined], clamping
      [subarray], bounds-checked [readUIntXXBE]);
    - [Binary]: [transport/binary.ts], the wire codec of the QUIC transport;
    - [WebSocketTransport] and [QuicTransport]: the two streaming transports
      as state machines over their private fields, every handler returning
      the new state and the effects it performed;
    - [MultiRegion]: [multi-region.ts], the region router;
    - [Client]: the metrics counters of [client.ts];
    - [BinaryFrames]: the rest of the codec, frame builders, transaction
      responses and base58;
    - [WebSocketRuns], [QuicSession], [MultiRegionSetup]: observations on
      runs of the WebSocket transport, [disconnect()] and the stream
      listener of the QUIC transport, construction of the router;
    - [TimeSync], [Discovery], [WorkerSelector], [ClientAccounting]: the
      ping sample window, the choice of a worker from a discovery response
      or from measured latencies, and what the metrics counters add up.

    Conventions.  A JavaScript [string] is represented by the byte sequence
    of its UTF-8 encoding, stored in a Rocq [string]; integral JavaScript
    numbers are [Z]; a number that may be [NaN] is [option Z]; quotients that
    JavaScript computes in floating point are kept exact in [Q], and the
    rounding of [Number(bigint)] above 2^53 is not modelled; nor is the
    substitution of U+FFFD for ill-formed UTF-8 by [toString]: theorems
    about decoded values take safe integers and ASCII text. *)

From Stdlib Require Import ZArith QArith Lia.
From Stdlib.Strings Require Import Byte.
From stdpp Require Import base option list sets strings pretty sorting.

Local Open Scope Z_scope.

(** ** JavaScript values used by the codec *)

Module Js.

(** A JavaScript number that is either an integer or [NaN]. *)
Definition num := option Z.

Definition NaN : num := None.

(** [a + b] on numbers; [undefined] and [NaN] operands give [NaN]. *)
Definition add (a b : num) : num :=
  match a, b with
  | Some x, Some y => Some (x + y)
  | _, _ => None
  end.

(** What a function call evaluates to: a value, or a thrown exception. *)
Inductive completion (E A : Type) : Type :=
| Return (a : A)
| Throw (e : E).
Arguments Return {E A} a.
Arguments Throw {E A} e.

Definition bind {E A B} (c : completion E A) (k : A -> completion E B)
  : completion E B :=
  match c with
  | Return a => k a
  | Throw e => Throw e
  end.

Definition throws {E A} (c : completion E A) : bool :=
  match c with
  | Return _ => false
  | Throw _ => true
  end.

(** Exceptions raised by [Buffer] reads. *)
Inductive exn : Type :=
| RangeError.

Definition Buffer := list byte.

Definition byteZ (b : byte) : Z := Z.of_N (Byte.to_N b).

(** [buf[i]]: a byte, or [undefined] when [i] is [NaN] or out of range. *)
Definition index (buf : Buffer) (i : num) : num :=
  match i with
  | Some z => if z <? 0 then None else byteZ <$> buf !! Z.to_nat z
  | None => None
  end.

(** Integer conversion and clamping of a [subarray] bound:
    [NaN] becomes 0, negative bounds count from the end. *)
Definition clamp (len : Z) (i : num) : Z :=
  match i with
  | None => 0
  | Some z => if z <? 0 then Z.max (len + z) 0 else Z.min z len
  end.

(** [buf.subarray(s, e)]: never throws; an inverted range is empty. *)
Definition subarray (buf : Buffer) (s e : num) : Buffer :=
  let len := Z.of_nat (length buf) in
  let s' := clamp len s in
  let e' := clamp len e in
  take (Z.to_nat (e' - s')) (drop (Z.to_nat s') buf).

(** Big-endian value of a byte sequence. *)
Definition be_value (bs : list byte) : Z :=
  fold_left (fun acc b => acc * 256 + byteZ b) bs 0.

(** [buf.readUIntBE]-style fixed-width reads.  Node checks that both the
    first and the last byte of the field exist and throws a [RangeError]
    otherwise; a [NaN] offset indexes nothing and throws as well. *)
Definition readBE (width : nat) (buf : Buffer) (offset : num)
  : completion exn Z :=
  match offset with
  | Some z =>
      if (0 <=? z) && (z + Z.of_nat width <=? Z.of_nat (length buf))
      then Return (be_value (take width (drop (Z.to_nat z) buf)))
      else Throw RangeError
  | None => Throw RangeError
  end.

Definition readUInt16BE := readBE 2.
Definition readUInt32BE := readBE 4.
Definition readBigUInt64BE := readBE 8.

(** [Buffer.from(s, 'utf-8')] and [buf.toString('utf-8')] on the byte
    representation of strings.  [to_utf8] is [toString] on well-formed
    UTF-8, where decoding and encoding again gives the same bytes; the
    replacement of ill-formed sequences by U+FFFD is not modelled. *)
Definition from_utf8 (s : string) : Buffer := String.list_byte_of_string s.
Definition to_utf8 (b : Buffer) : string := String.string_of_list_byte b.

(** Truthiness of an optional string argument: [undefined] and the empty
    string are falsy. *)
Definition truthy (s : option string) : bool :=
  match s with
  | Some (String _ _) => true
  | _ => false
  end.

(** Comparisons of numbers: any comparison with [NaN] or [undefined] is
    false. *)
Definition ltb (a b : num) : bool :=
  match a, b with
  | Some x, Some y => x <? y
  | _, _ => false
  end.

Definition geb (a b : num) : bool :=
  match a, b with
  | Some x, Some y => y <=? x
  | _, _ => false
  end.

Definition gtb (a b : num) : bool := ltb b a.

(** [a === n] for a possibly undefined [a] and a number [n]. *)
Definition strict_eqb (a : num) (n : Z) : bool :=
  match a with
  | Some x => x =? n
  | None => false
  end.

Definition length (buf : Buffer) : num := Some (Z.of_nat (List.length buf)).

End Js.

Notation "'let!' x ':=' c 'in' k" := (Js.bind c (fun x => k))
  (at level 10, x name, c at level 100, k at level 200, only parsing).

(** ** transport/binary.ts: the binary protocol codec *)

Module Binary.
Import Js.

(** Stream type constants ([STREAM_TYPE]). *)
Module STREAM_TYPE.
Definition TransactionSubmit : Z := 0x01.
Definition LeaderHints : Z := 0x02.
Definition TipInstructions : Z := 0x03.
Definition PriorityFees : Z := 0x04.
Definition Metrics : Z := 0x05.
Definition LatestBlockhash : Z := 0x06.
Definition LatestSlot : Z := 0x07.
Definition Ping : Z := 0x08.
End STREAM_TYPE.

Definition SDK_VERSION : string := "ts-sdk-v0.1".

(** *** Encoding *)

(** [Buffer.alloc(8)] overwritten with the first [min(keyBytes.length, 8)]
    bytes of the key. *)
Definition keyPrefix (apiKey : string) : Buffer :=
  let keyBytes := from_utf8 apiKey in
  take 8 keyBytes ++ replicate (8 - List.length keyBytes) x00.

Definition buildAuthFrame (apiKey : string) (tier : option string) : Buffer :=
  let prefix := keyPrefix apiKey in
  let version := from_utf8 SDK_VERSION in
  let nullByte := [x00] in
  if truthy tier then
    let tierBuf := from_utf8 (default EmptyString tier) in
    prefix ++ version ++ nullByte ++ tierBuf ++ nullByte
  else
    prefix ++ version.

(** The auth request layout as the specification words it:
    [[8B key-prefix][version-string][\0][tier-string]?[\0]?], the tier and
    its terminator being present exactly when a tier is given. *)
Definition authFrameLayout (apiKey : string) (tier : option string) : Buffer :=
  keyPrefix apiKey ++ from_utf8 SDK_VERSION ++ [x00] ++
  match tier with
  | Some t => from_utf8 t ++ [x00]
  | None => []
  end.

(** *** Decoded stream messages (the fields of [types.ts] the codec fills) *)

Record LeaderHintMetadata := {
  tpuRttMs : Z;
  regionScore : Q;
}.

Record LeaderHint := {
  lh_timestamp : Z;
  lh_slot : Z;
  expiresAtSlot : Z;
  preferredRegion : string;
  backupRegions : list string;
  lh_confidence : Q;
  leaderPubkey : string;
  metadata : LeaderHintMetadata;
}.

Record TipInstruction := {
  ti_timestamp : Z;
  sender : string;
  senderName : string;
  tipWalletAddress : string;
  tipAmountSol : Q;
  tipTier : string;
  expectedLatencyMs : Z;
  ti_confidence : Z;
  validUntilSlot : Z;
  alternativeSenders : list string;
}.

Record PriorityFee := {
  pf_timestamp : Z;
  speed : string;
  computeUnitPrice : Z;
  computeUnitLimit : Z;
  estimatedCostSol : Q;
  landingProbability : option Q;
  networkCongestion : string;
  recentSuccessRate : Q;
}.

Record LatestBlockhash := {
  blockhash : string;
  lastValidBlockHeight : Z;
  lb_timestamp : Z;
}.

Record LatestSlot := {
  ls_slot : Z;
  ls_timestamp : Z;
}.

(** A decoder returns a frame, returns [null] ([None]), or throws. *)
Definition decoded (A : Type) := completion exn (option A).

(** [parseLeaderHint]: only the emptiness of the buffer and the presence
    of the region length byte are checked before the fixed fields are
    read. *)
Definition parseLeaderHint (buf : Buffer) : decoded LeaderHint :=
  if ltb (length buf) (Some 1) then Return None else
  let offset := Some 0 in
  let offset :=
    if strict_eqb (index buf (Some 0)) STREAM_TYPE.LeaderHints
    then add offset (Some 1) else offset in
  if ltb (length buf) (add offset (Some 1)) then Return None else
  let regionLen := index buf offset in
  let offset := add offset (Some 1) in
  let region := to_utf8 (subarray buf offset (add offset regionLen)) in
  let offset := add offset regionLen in
  let! confidenceRaw := readUInt16BE buf offset in
  let offset := add offset (Some 2) in
  let! slotsRemaining := readUInt32BE buf offset in
  let offset := add offset (Some 4) in
  let '(leaderPubkey, offset) :=
    if gtb (length buf) offset then
      let pubkeyLen := index buf offset in
      let offset := add offset (Some 1) in
      if gtb pubkeyLen (Some 0) && geb (length buf) (add offset pubkeyLen)
      then (to_utf8 (subarray buf offset (add offset pubkeyLen)),
            add offset pubkeyLen)
      else ("unknown"%string, offset)
    else ("unknown"%string, offset) in
  let! timestamp := readBigUInt64BE buf offset in
  let confidence := (confidenceRaw # 100)%Q in
  Return (Some {|
    lh_timestamp := timestamp;
    lh_slot := 0;
    expiresAtSlot := slotsRemaining;
    preferredRegion := region;
    backupRegions := [];
    lh_confidence := confidence;
    leaderPubkey := leaderPubkey;
    metadata := {| tpuRttMs := 0; regionScore := confidence |};
  |}).

Definition parseTipInstruction (buf : Buffer) : decoded TipInstruction :=
  if ltb (length buf) (Some 1) then Return None else
  let offset := Some 0 in
  let offset :=
    if strict_eqb (index buf (Some 0)) STREAM_TYPE.TipInstructions
    then add offset (Some 1) else offset in
  let senderLen := index buf offset in
  let offset := add offset (Some 1) in
  let sender := to_utf8 (subarray buf offset (add offset senderLen)) in
  let offset := add offset senderLen in
  let walletLen := index buf offset in
  let offset := add offset (Some 1) in
  let wallet := to_utf8 (subarray buf offset (add offset walletLen)) in
  let offset := add offset walletLen in
  let! amountLamports := readBigUInt64BE buf offset in
  let offset := add offset (Some 8) in
  let tierLen := index buf offset in
  let offset := add offset (Some 1) in
  let tier := to_utf8 (subarray buf offset (add offset tierLen)) in
  let offset := add offset tierLen in
  let! expectedLatencyMs := readUInt32BE buf offset in
  let offset := add offset (Some 4) in
  let! timestamp := readBigUInt64BE buf offset in
  let tipAmountSol := (amountLamports # 1000000000)%Q in
  Return (Some {|
    ti_timestamp := timestamp;
    sender := sender;
    senderName := sender;
    tipWalletAddress := wallet;
    tipAmountSol := tipAmountSol;
    tipTier := tier;
    expectedLatencyMs := expectedLatencyMs;
    ti_confidence := 100;
    validUntilSlot := 0;
    alternativeSenders := [];
  |}).

Definition parsePriorityFee (buf : Buffer) : decoded PriorityFee :=
  if ltb (length buf) (Some 1) then Return None else
  let offset := Some 0 in
  let offset :=
    if strict_eqb (index buf (Some 0)) STREAM_TYPE.PriorityFees
    then add offset (Some 1) else offset in
  let! microLamports := readBigUInt64BE buf offset in
  let offset := add offset (Some 8) in
  let percentile := index buf offset in
  let offset := add offset (Some 1) in
  let! sampleCount := readUInt32BE buf offset in
  let offset := add offset (Some 4) in
  let! timestamp := readBigUInt64BE buf offset in
  Return (Some {|
    pf_timestamp := timestamp;
    speed := if geb percentile (Some 75) then "fast"
             else if geb percentile (Some 50) then "medium" else "slow";
    computeUnitPrice := microLamports;
    computeUnitLimit := 200000;
    estimatedCostSol := (microLamports * 200000 # 1000000000000)%Q;
    landingProbability := (fun p => (p # 100)%Q) <$> percentile;
    networkCongestion := if 100000 <? microLamports then "high"
                         else if 10000 <? microLamports then "medium"
                         else "low";
    recentSuccessRate := if 0 <? sampleCount then (95 # 100)%Q else 0%Q;
  |}).

Definition parseLatestBlockhash (buf : Buffer) : decoded LatestBlockhash :=
  if ltb (length buf) (Some 1) then Return None else
  let offset := Some 0 in
  let offset :=
    if strict_eqb (index buf (Some 0)) STREAM_TYPE.LatestBlockhash
    then add offset (Some 1) else offset in
  let hashLen := index buf offset in
  let offset := add offset (Some 1) in
  let blockhash := to_utf8 (subarray buf offset (add offset hashLen)) in
  let offset := add offset hashLen in
  let! lastValidBlockHeight := readBigUInt64BE buf offset in
  let offset := add offset (Some 8) in
  let! timestamp := readBigUInt64BE buf offset in
  Return (Some {|
    blockhash := blockhash;
    lastValidBlockHeight := lastValidBlockHeight;
    lb_timestamp := timestamp;
  |}).

Definition parseLatestSlot (buf : Buffer) : decoded LatestSlot :=
  if ltb (length buf) (Some 1) then Return None else
  let offset := Some 0 in
  let offset :=
    if strict_eqb (index buf (Some 0)) STREAM_TYPE.LatestSlot
    then add offset (Some 1) else offset in
  let! slot := readBigUInt64BE buf offset in
  let offset := add offset (Some 8) in
  let! timestamp := readBigUInt64BE buf offset in
  Return (Some {| ls_slot := slot; ls_timestamp := timestamp |}).

(** [parsePongFrame], the one decoder that checks the whole frame length
    before reading. *)
Record Pong := {
  pong_seq : Z;
  pong_clientSendTime : Z;
  pong_serverTime : Z;
}.

Definition parsePongFrame (buf : Buffer) : decoded Pong :=
  if ltb (length buf) (Some 21) then Return None else
  let offset :=
    if strict_eqb (index buf (Some 0)) STREAM_TYPE.Ping
    then Some 1 else Some 0 in
  if ltb (length buf) (add offset (Some 20)) then Return None else
  let! seq := readUInt32BE buf offset in
  let! clientSendTime := readBigUInt64BE buf (add offset (Some 4)) in
  let! serverTime := readBigUInt64BE buf (add offset (Some 12)) in
  Return (Some {|
    pong_seq := seq;
    pong_clientSendTime := clientSendTime;
    pong_serverTime := serverTime;
  |}).

End Binary.

(** ** errors.ts *)

Module SlipstreamError.

Record t := { code : string; message : string }.

Definition config (msg : string) : t := {| code := "CONFIG"; message := msg |}.
Definition connection (msg : string) : t :=
  {| code := "CONNECTION"; message := msg |}.
Definition auth (msg : string) : t := {| code := "AUTH"; message := msg |}.
Definition protocol (msg : string) : t :=
  {| code := "PROTOCOL"; message := msg |}.
Definition transaction (msg : string) : t :=
  {| code := "TRANSACTION"; message := msg |}.
Definition timeout (ms : Z) : t :=
  {| code := "TIMEOUT";
     message := "Operation timed out after " +:+ pretty ms +:+ "ms" |}.
Definition allProtocolsFailed : t :=
  {| code := "ALL_PROTOCOLS_FAILED";
     message := "All connection protocols failed" |}.
Definition notConnected : t :=
  {| code := "NOT_CONNECTED"; message := "Client is not connected" |}.

End SlipstreamError.

(** ** transport/websocket.ts: the message-oriented streaming transport *)

Module WebSocketTransport.

(** A request identifier [req_<counter>_<now>], kept as its two numbers. *)
Definition requestId : Type := Z * Z.

Record PingResult := {
  seq : Z;
  rttMs : Z;
  clockOffsetMs : Z;
  serverTime : Z;
}.

(** Client to server messages. *)
Inductive WsClientMessage : Type :=
| connect_msg
| subscribe_msg (stream : string)
| unsubscribe_msg (stream : string)
| submit_transaction_msg (id : requestId)
| ping_msg (seq client_time : Z)
| pong_msg (timestamp : Z).

(** The pushed message types [leader_hint], [tip_instruction],
    [priority_fee], [latest_blockhash] and [latest_slot]; their payload is
    forwarded unchanged and is not modelled. *)
Inductive stream_type : Type :=
| leader_hint
| tip_instruction
| priority_fee
| latest_blockhash
| latest_slot.

(** Server to client messages, with the fields the handlers read; an
    absent JSON field is [None]. *)
Inductive WsServerMessage : Type :=
| connected_msg
| stream_msg (type : stream_type)
| transaction_msg (failed : bool) (request_id : requestId)
    (error_message : option string)
| pong (seq server_time : option Z)
| heartbeat
| error_msg (message : string)
| other_msg.

Inductive event : Type :=
| ev_connected
| ev_disconnected
| ev_error (e : SlipstreamError.t)
| ev_stream (type : stream_type)
| ev_transactionUpdate (id : requestId).

Inductive timer : Type :=
| ReconnectTimer
| PingTimer
| RequestTimer (id : requestId).

(** What a handler does to the outside world, in program order. *)
Inductive effect : Type :=
| OpenSocket
| CloseSocket
| Send (m : WsClientMessage)
| Emit (e : event)
| SetTimeout (t : timer) (delay : Z)
| ClearTimeout (t : timer)
| SetInterval (period : Z)
| ClearInterval
| ResolveConnect
| RejectConnect (e : SlipstreamError.t)
| ResolveRequest (id : requestId)
| RejectRequest (id : requestId) (e : SlipstreamError.t)
| ResolvePing (r : PingResult)
| RejectPing (e : SlipstreamError.t).

(** The model follows the transport through one socket at a time: an
    inbound message is one that [JSON.parse] accepted (anything else is
    dropped by [onMessage] before it looks at the state), and the handlers
    of a socket that a later [connect()] has replaced are not followed.

    The private fields of the class.  [subscribedStreams] is a [Set] and
    [pendingRequests] a [Map]: both iterate in insertion order, which the
    lists keep, a pending request being recorded with the
    timeout of its timer.  The handle in [reconnectTimer] is identified
    with the delay it was armed with.  [connectionResolved] is the local flag of the [connect()] call
    whose handlers are installed on the socket. *)
Record state := {
  ws : bool;
  connected : bool;
  reconnecting : bool;
  reconnectAttempts : Z;
  reconnectTimer : option Z;
  heartbeatTimer : bool;
  pendingRequests : list (requestId * Z);
  requestIdCounter : Z;
  subscribedStreams : list string;
  shouldReconnect : bool;
  pingSeq : Z;
  pendingPing : option Z;
  connectionResolved : bool;
}.

Definition maxReconnectAttempts : Z := 10.

(** The state of a freshly constructed transport. *)
Definition init : state := {|
  ws := false;
  connected := false;
  reconnecting := false;
  reconnectAttempts := 0;
  reconnectTimer := None;
  heartbeatTimer := false;
  pendingRequests := [];
  requestIdCounter := 0;
  subscribedStreams := [];
  shouldReconnect := true;
  pingSeq := 0;
  pendingPing := None;
  connectionResolved := false;
|}.

(** Field updates ([this.f = v]). *)
Definition set_ws (v : bool) (st : state) : state :=
  {|
     ws := v;
     connected := connected st;
     reconnecting := reconnecting st;
     reconnectAttempts := reconnectAttempts st;
     reconnectTimer := reconnectTimer st;
     heartbeatTimer := heartbeatTimer st;
     pendingRequests := pendingRequests st;
     requestIdCounter := requestIdCounter st;
     subscribedStreams := subscribedStreams st;
     shouldReconnect := shouldReconnect st;
     pingSeq := pingSeq st;
     pendingPing := pendingPing st;
     connectionResolved := connectionResolved st;
  |}.

Definition set_connected (v : bool) (st : state) : state :=
  {|
     ws := ws st;
     connected := v;
     reconnecting := reconnecting st;
     reconnectAttempts := reconnectAttempts st;
     reconnectTimer := reconnectTimer st;
     heartbeatTimer := heartbeatTimer st;
     pendingRequests := pendingRequests st;
     requestIdCounter := requestIdCounter st;
     subscribedStreams := subscribedStreams st;
     shouldReconnect := shouldReconnect st;
     pingSeq := pingSeq st;
     pendingPing := pendingPing st;
     connectionResolved := connectionResolved st;
  |}.

Definition set_reconnecting (v : bool) (st : state) : state :=
  {|
     ws := ws st;
     connected := connected st;
     reconnecting := v;
     reconnectAttempts := reconnectAttempts st;
     reconnectTimer := reconnectTimer st;
     heartbeatTimer := heartbeatTimer st;
     pendingRequests := pendingRequests st;
     requestIdCounter := requestIdCounter st;
     subscribedStreams := subscribedStreams st;
     shouldReconnect := shouldReconnect st;
     pingSeq := pingSeq st;
     pendingPing := pendingPing st;
     connectionResolved := connectionResolved st;
  |}.

Definition set_reconnectAttempts (v : Z) (st : state) : state :=
  {|
     ws := ws st;
     connected := connected st;
     reconnecting := reconnecting st;
     reconnectAttempts := v;
     reconnectTimer := reconnectTimer st;
     heartbeatTimer := heartbeatTimer st;
     pendingRequests := pendingRequests st;
     requestIdCounter := requestIdCounter st;
     subscribedStreams := subscribedStreams st;
     shouldReconnect := shouldReconnect st;
     pingSeq := pingSeq st;
     pendingPing := pendingPing st;
     connectionResolved := connectionResolved st;
  |}.

Definition set_reconnectTimer (v : option Z) (st : state) : state :=
  {|
     ws := ws st;
     connected := connected st;
     reconnecting := reconnecting st;
     reconnectAttempts := reconnectAttempts st;
     reconnectTimer := v;
     heartbeatTimer := heartbeatTimer st;
     pendingRequests := pendingRequests st;
     requestIdCounter := requestIdCounter st;
     subscribedStreams := subscribedStreams st;
     shouldReconnect := shouldReconnect st;
     pingSeq := pingSeq st;
     pendingPing := pendingPing st;
     connectionResolved := connectionResolved st;
  |}.

Definition set_heartbeatTimer (v : bool) (st : state) : state :=
  {|
     ws := ws st;
     connected := connected st;
     reconnecting := reconnecting st;
     reconnectAttempts := reconnectAttempts st;
     reconnectTimer := reconnectTimer st;
     heartbeatTimer := v;
     pendingRequests := pendingRequests st;
     requestIdCounter := requestIdCounter st;
     subscribedStreams := subscribedStreams st;
     shouldReconnect := shouldReconnect st;
     pingSeq := pingSeq st;
     pendingPing := pendingPing st;
     connectionResolved := connectionResolved st;
  |}.

Definition set_pendingRequests (v : list (requestId * Z)) (st : state) : state :=
  {|
     ws := ws st;
     connected := connected st;
     reconnecting := reconnecting st;
     reconnectAttempts := reconnectAttempts st;
     reconnectTimer := reconnectTimer st;
     heartbeatTimer := heartbeatTimer st;
     pendingRequests := v;
     requestIdCounter := requestIdCounter st;
     subscribedStreams := subscribedStreams st;
     shouldReconnect := shouldReconnect st;
     pingSeq := pingSeq st;
     pendingPing := pendingPing st;
     connectionResolved := connectionResolved st;
  |}.

Definition set_requestIdCounter (v : Z) (st : state) : state :=
  {|
     ws := ws st;
     connected := connected st;
     reconnecting := reconnecting st;
     reconnectAttempts := reconnectAttempts st;
     reconnectTimer := reconnectTimer st;
     heartbeatTimer := heartbeatTimer st;
     pendingRequests := pendingRequests st;
     requestIdCounter := v;
     subscribedStreams := subscribedStreams st;
     shouldReconnect := shouldReconnect st;
     pingSeq := pingSeq st;
     pendingPing := pendingPing st;
     connectionResolved := connectionResolved st;
  |}.

Definition set_subscribedStreams (v : list string) (st : state) : state :=
  {|
     ws := ws st;
     connected := connected st;
     reconnecting := reconnecting st;
     reconnectAttempts := reconnectAttempts st;
     reconnectTimer := reconnectTimer st;
     heartbeatTimer := heartbeatTimer st;
     pendingRequests := pendingRequests st;
     requestIdCounter := requestIdCounter st;
     subscribedStreams := v;
     shouldReconnect := shouldReconnect st;
     pingSeq := pingSeq st;
     pendingPing := pendingPing st;
     connectionResolved := connectionResolved st;
  |}.

Definition set_shouldReconnect (v : bool) (st : state) : state :=
  {|
     ws := ws st;
     connected := connected st;
     reconnecting := reconnecting st;
     reconnectAttempts := reconnectAttempts st;
     reconnectTimer := reconnectTimer st;
     heartbeatTimer := heartbeatTimer st;
     pendingRequests := pendingRequests st;
     requestIdCounter := requestIdCounter st;
     subscribedStreams := subscribedStreams st;
     shouldReconnect := v;
     pingSeq := pingSeq st;
     pendingPing := pendingPing st;
     connectionResolved := connectionResolved st;
  |}.

Definition set_pingSeq (v : Z) (st : state) : state :=
  {|
     ws := ws st;
     connected := connected st;
     reconnecting := reconnecting st;
     reconnectAttempts := reconnectAttempts st;
     reconnectTimer := reconnectTimer st;
     heartbeatTimer := heartbeatTimer st;
     pendingRequests := pendingRequests st;
     requestIdCounter := requestIdCounter st;
     subscribedStreams := subscribedStreams st;
     shouldReconnect := shouldReconnect st;
     pingSeq := v;
     pendingPing := pendingPing st;
     connectionResolved := connectionResolved st;
  |}.

Definition set_pendingPing (v : option Z) (st : state) : state :=
  {|
     ws := ws st;
     connected := connected st;
     reconnecting := reconnecting st;
     reconnectAttempts := reconnectAttempts st;
     reconnectTimer := reconnectTimer st;
     heartbeatTimer := heartbeatTimer st;
     pendingRequests := pendingRequests st;
     requestIdCounter := requestIdCounter st;
     subscribedStreams := subscribedStreams st;
     shouldReconnect := shouldReconnect st;
     pingSeq := pingSeq st;
     pendingPing := v;
     connectionResolved := connectionResolved st;
  |}.

Definition set_connectionResolved (v : bool) (st : state) : state :=
  {|
     ws := ws st;
     connected := connected st;
     reconnecting := reconnecting st;
     reconnectAttempts := reconnectAttempts st;
     reconnectTimer := reconnectTimer st;
     heartbeatTimer := heartbeatTimer st;
     pendingRequests := pendingRequests st;
     requestIdCounter := requestIdCounter st;
     subscribedStreams := subscribedStreams st;
     shouldReconnect := shouldReconnect st;
     pingSeq := pingSeq st;
     pendingPing := pendingPing st;
     connectionResolved := v;
  |}.

(** A handler: new state and effects. *)
Definition handler := state -> state * list effect.

Definition seq_h (f g : handler) : handler :=
  fun st =>
    let '(st1, e1) := f st in
    let '(st2, e2) := g st1 in
    (st2, e1 ++ e2).

Definition when (b : state -> bool) (f : handler) : handler :=
  fun st => if b st then f st else (st, []).

Definition emit (e : event) : handler := fun st => (st, [Emit e]).

(** [Set.prototype.add] and [Set.prototype.delete]. *)
Definition set_add (x : string) (s : list string) : list string :=
  if bool_decide (x ∈ s) then s else s ++ [x].

Definition set_delete (x : string) (s : list string) : list string :=
  filter (fun y => y ≠ x) s.

Definition sendMessage (m : WsClientMessage) : handler :=
  fun st => if ws st then (st, [Send m]) else (st, []).

Definition stopHeartbeat : handler :=
  fun st =>
    if heartbeatTimer st
    then (set_heartbeatTimer false st, [ClearInterval])
    else (st, []).

Definition startHeartbeat : handler :=
  seq_h stopHeartbeat
    (fun st => (set_heartbeatTimer true st, [SetInterval 30000])).

Fixpoint for_each {A} (l : list A) (body : A -> handler) : handler :=
  match l with
  | [] => fun st => (st, [])
  | x :: l' => seq_h (body x) (for_each l' body)
  end.

(** [Map.prototype.get], [set] and [delete] on the pending requests. *)
Definition map_get (id : requestId) (m : list (requestId * Z)) : option Z :=
  snd <$> find (fun e => bool_decide (fst e = id)) m.

Definition map_delete (id : requestId) (m : list (requestId * Z))
  : list (requestId * Z) :=
  filter (fun e => fst e ≠ id) m.

Definition map_set (id : requestId) (v : Z) (m : list (requestId * Z))
  : list (requestId * Z) :=
  if bool_decide (is_Some (map_get id m))
  then (fun e => if bool_decide (fst e = id) then (id, v) else e) <$> m
  else m ++ [(id, v)].

(** *** Reconnection *)

Definition scheduleReconnect : handler :=
  fun st =>
    if reconnecting st || (maxReconnectAttempts <=? reconnectAttempts st)
    then (st, [])
    else
      let st := set_reconnecting true st in
      let delay := Z.min (1000 * 2 ^ reconnectAttempts st) 30000 in
      let st := set_reconnectAttempts (reconnectAttempts st + 1) st in
      (set_reconnectTimer (Some delay) st, [SetTimeout ReconnectTimer delay]).

(** *** connect() and the four socket handlers it installs *)

Definition connect : handler :=
  fun st => (set_connectionResolved false (set_ws true st), [OpenSocket]).

Definition onOpen : handler := sendMessage connect_msg.

Definition handleMessage (msg : WsServerMessage) (now : Z) : handler :=
  match msg with
  | stream_msg ty => emit (ev_stream ty)
  | transaction_msg failed request_id error_message =>
      seq_h
        (fun st =>
           match map_get request_id (pendingRequests st) with
           | Some _ =>
               (set_pendingRequests
                  (map_delete request_id (pendingRequests st)) st,
                [ClearTimeout (RequestTimer request_id);
                 if failed
                 then RejectRequest request_id
                        (SlipstreamError.transaction
                           (default "Transaction failed"%string error_message))
                 else ResolveRequest request_id])
           | None => (st, [])
           end)
        (emit (ev_transactionUpdate request_id))
  | pong seq server_time =>
      fun st =>
        match pendingPing st with
        | Some clientSendTime =>
            let serverTime := default now server_time in
            let rttMs := now - clientSendTime in
            let clockOffsetMs :=
              serverTime - (clientSendTime + rttMs `div` 2) in
            (set_pendingPing None st,
             [ResolvePing {| seq := default 0 seq;
                             rttMs := rttMs;
                             clockOffsetMs := clockOffsetMs;
                             serverTime := serverTime |}])
        | None => (st, [])
        end
  | heartbeat => sendMessage (pong_msg now)
  | error_msg m => emit (ev_error (SlipstreamError.protocol m))
  | connected_msg | other_msg => fun st => (st, [])
  end.

Definition is_connected_msg (msg : WsServerMessage) : bool :=
  match msg with
  | connected_msg => true
  | _ => false
  end.

Definition onMessage (msg : WsServerMessage) (now : Z) : handler :=
  fun st =>
    if negb (connectionResolved st) && is_connected_msg msg then
      let st := set_connectionResolved true st in
      let st := set_connected true st in
      let st := set_reconnectAttempts 0 st in
      seq_h startHeartbeat
        (seq_h
           (fun st =>
              for_each (subscribedStreams st)
                (fun stream => sendMessage (subscribe_msg stream)) st)
           (fun st => (st, [Emit ev_connected; ResolveConnect]))) st
    else handleMessage msg now st.

Definition onError (errMsg : string) : handler :=
  seq_h
    (fun st =>
       if negb (connectionResolved st)
       then (set_connectionResolved true st,
             [RejectConnect (SlipstreamError.connection errMsg)])
       else (st, []))
    (emit (ev_error (SlipstreamError.connection errMsg))).

Definition onClose : handler :=
  seq_h (fun st => (set_connected false st, []))
    (seq_h stopHeartbeat
       (seq_h (emit ev_disconnected)
          (seq_h
             (fun st =>
                if negb (connectionResolved st)
                then (set_connectionResolved true st,
                      [RejectConnect
                         (SlipstreamError.connection
                            "WebSocket closed before connection")])
                else (st, []))
             (seq_h
                (fun st =>
                   for_each (pendingRequests st)
                     (fun e st =>
                        (set_pendingRequests
                           (map_delete (fst e) (pendingRequests st)) st,
                         [ClearTimeout (RequestTimer (fst e));
                          RejectRequest (fst e)
                            (SlipstreamError.connection "WebSocket closed")]))
                     st)
                (when shouldReconnect scheduleReconnect))))).

(** The callback of the reconnect timer, up to the [await]. *)
Definition reconnectTimerFired : handler :=
  seq_h (fun st => (set_reconnecting false st, [])) connect.

(** *** disconnect() *)

Definition disconnect : handler :=
  seq_h (fun st => (set_shouldReconnect false st, []))
    (seq_h stopHeartbeat
       (seq_h
          (fun st =>
             match reconnectTimer st with
             | Some _ => (set_reconnectTimer None st,
                          [ClearTimeout ReconnectTimer])
             | None => (st, [])
             end)
          (seq_h
             (fun st =>
                if ws st then (set_ws false st, [CloseSocket]) else (st, []))
             (fun st => (set_connected false st, []))))).

(** *** Subscriptions *)

Definition subscribeStream (stream : string) : handler :=
  seq_h
    (fun st => (set_subscribedStreams
                  (set_add stream (subscribedStreams st)) st, []))
    (when connected (sendMessage (subscribe_msg stream))).

Definition subscribeLeaderHints := subscribeStream "leader_hints".
Definition subscribeTipInstructions := subscribeStream "tip_instructions".
Definition subscribePriorityFees := subscribeStream "priority_fees".
Definition subscribeLatestBlockhash := subscribeStream "latest_blockhash".
Definition subscribeLatestSlot := subscribeStream "latest_slot".

Definition unsubscribe (stream : string) : handler :=
  seq_h
    (fun st => (set_subscribedStreams
                  (set_delete stream (subscribedStreams st)) st, []))
    (when connected (sendMessage (unsubscribe_msg stream))).

(** *** ping() and submitTransaction() *)

Definition ping (now : Z) (st : state)
  : Js.completion SlipstreamError.t (state * list effect) :=
  if negb (connected st) then Js.Throw SlipstreamError.notConnected else
  let seq := pingSeq st in
  let st := set_pingSeq (pingSeq st + 1) st in
  let clientSendTime := now in
  let st := set_pendingPing (Some clientSendTime) st in
  Js.Return
    (seq_h (sendMessage (ping_msg seq clientSendTime))
       (fun st => (st, [SetTimeout PingTimer 5000])) st).

Definition pingTimeout : handler :=
  fun st =>
    match pendingPing st with
    | Some _ => (set_pendingPing None st,
                 [RejectPing (SlipstreamError.timeout 5000)])
    | None => (st, [])
    end.

Definition submitTransaction (now : Z) (timeoutMs : option Z) (st : state)
  : Js.completion SlipstreamError.t (state * list effect) :=
  if negb (connected st) then Js.Throw SlipstreamError.notConnected else
  let st := set_requestIdCounter (requestIdCounter st + 1) st in
  let id := (requestIdCounter st, now) in
  let timeoutMs := default 30000 timeoutMs in
  let st := set_pendingRequests (map_set id timeoutMs (pendingRequests st)) st in
  Js.Return
    (seq_h (fun st => (st, [SetTimeout (RequestTimer id) timeoutMs]))
       (sendMessage (submit_transaction_msg id)) st).

Definition requestTimeout (id : requestId) : handler :=
  fun st =>
    match map_get id (pendingRequests st) with
    | Some ms => (set_pendingRequests (map_delete id (pendingRequests st)) st,
                  [RejectRequest id (SlipstreamError.timeout ms)])
    | None => (st, [])
    end.

(** The heartbeat interval: [if (this.connected) this.ping().catch(..)]. *)
Definition heartbeatTick (now : Z) : handler :=
  fun st =>
    if connected st then
      match ping now st with
      | Js.Return r => r
      | Js.Throw _ => (st, [])
      end
    else (st, []).

(** *** Runs of the transport

    Everything that can happen to a transport: a method call of its owner,
    an event of its socket, or one of its timers firing. *)
Inductive action : Type :=
| call_connect
| call_disconnect
| call_subscribe (stream : string)
| call_unsubscribe (stream : string)
| call_ping (now : Z)
| call_submitTransaction (now : Z) (timeoutMs : option Z)
| socket_open
| socket_message (msg : WsServerMessage) (now : Z)
| socket_error (errMsg : string)
| socket_close
| timer_reconnect
| timer_ping
| timer_request (id : requestId)
| timer_heartbeat (now : Z).

Definition or_throw (c : state -> Js.completion SlipstreamError.t (state * list effect))
  : handler :=
  fun st =>
    match c st with
    | Js.Return r => r
    | Js.Throw _ => (st, [])
    end.

Definition step (a : action) : handler :=
  match a with
  | call_connect => connect
  | call_disconnect => disconnect
  | call_subscribe s => subscribeStream s
  | call_unsubscribe s => unsubscribe s
  | call_ping now => or_throw (ping now)
  | call_submitTransaction now t => or_throw (submitTransaction now t)
  | socket_open => onOpen
  | socket_message msg now => onMessage msg now
  | socket_error m => onError m
  | socket_close => onClose
  | timer_reconnect => reconnectTimerFired
  | timer_ping => pingTimeout
  | timer_request id => requestTimeout id
  | timer_heartbeat now => heartbeatTick now
  end.

Definition run (acts : list action) : handler :=
  for_each acts step.

Definition reachable (st : state) : Prop :=
  exists acts, fst (run acts init) = st.

(** *** Observations on effects *)

(** The delays of the reconnect timers armed, in order. *)
Definition reconnect_delays (effs : list effect) : list Z :=
  omap (fun e => match e with
                 | SetTimeout ReconnectTimer d => Some d
                 | _ => None
                 end) effs.

(** The ['error'] events emitted, in order. *)
Definition error_events (effs : list effect) : list SlipstreamError.t :=
  omap (fun e => match e with
                 | Emit (ev_error x) => Some x
                 | _ => None
                 end) effs.

(** The streams of the [subscribe] requests sent, in order. *)
Definition sent_subscriptions (effs : list effect) : list string :=
  omap (fun e => match e with
                 | Send (subscribe_msg s) => Some s
                 | _ => None
                 end) effs.

(** The pending requests rejected, with the error each one got. *)
Definition rejections (effs : list effect)
  : list (requestId * SlipstreamError.t) :=
  omap (fun e => match e with
                 | RejectRequest id x => Some (id, x)
                 | _ => None
                 end) effs.

(** What the close handler does for one pending request. *)
Definition reject_on_close (e : requestId * Z) : list effect :=
  [ClearTimeout (RequestTimer (fst e));
   RejectRequest (fst e) (SlipstreamError.connection "WebSocket closed")].

(** The results pings were resolved with. *)
Definition ping_results (effs : list effect) : list PingResult :=
  omap (fun e => match e with
                 | ResolvePing r => Some r
                 | _ => None
                 end) effs.

(** *** Scenarios *)

(** A transport connects, is acknowledged by the server, and loses its
    connection. *)
Definition connection_lost : list action :=
  [call_connect; socket_open; socket_message connected_msg 0; socket_close].

(** One failed reconnect attempt: the timer fires, the new socket may
    report an error, and it closes before any [connected] message. *)
Definition failed_attempt (err : option string) : list action :=
  timer_reconnect ::
  match err with
  | Some m => [socket_error m; socket_close]
  | None => [socket_close]
  end.

Definition failed_attempts (errs : list (option string)) : list action :=
  mjoin (failed_attempt <$> errs).

(** The state of a transport that has lost its connection, has no
    subscription and no request in flight, and has armed its [k]-th
    reconnect timer with delay [d]. *)
Definition awaiting_reconnect (k d : Z) : state := {|
  ws := true;
  connected := false;
  reconnecting := true;
  reconnectAttempts := k;
  reconnectTimer := Some d;
  heartbeatTimer := false;
  pendingRequests := [];
  requestIdCounter := 0;
  subscribedStreams := [];
  shouldReconnect := true;
  pingSeq := 0;
  pendingPing := None;
  connectionResolved := true;
|}.

(** The delay [scheduleReconnect] computes at a given attempt count. *)
Definition reconnectDelay (attempts : Z) : Z :=
  Z.min (1000 * 2 ^ attempts) 30000.

(** *** The specification's wording, for comparison *)

(** The two-way offset estimator as the specification states it,
    [remoteTimestamp - (clientSendTime + RTT/2)], over the rationals. *)
Definition spec_clockOffset (remoteTimestamp clientSendTime rtt : Z) : Q :=
  (inject_Z remoteTimestamp
   - (inject_Z clientSendTime + inject_Z rtt / 2))%Q.

(** What the specification asks of [disconnect()] for pending requests:
    by the time it returns none is left outstanding and each one has been
    rejected with a CONNECTION error. *)
Definition rejects_all_pending (before : state) (r : state * list effect)
  : Prop :=
  pendingRequests (fst r) = [] /\
  forall id ms, (id, ms) ∈ pendingRequests before ->
    exists e, (id, e) ∈ rejections (snd r) /\
              SlipstreamError.code e = "CONNECTION"%string.

End WebSocketTransport.

(** ** transport/quic.ts: reconnection of the binary transport *)

Module QuicTransport.

Inductive event : Type :=
| ev_connected
| ev_disconnected
| ev_error (e : SlipstreamError.t).

Inductive effect : Type :=
| Emit (e : event)
| SetTimeout (delay : Z)
| ClearTimeout
| SendSubscription (streamType : Z)
| CloseConnection (code : Z)
| CloseEndpoint.

(** The private fields; [connection] and [endpoint] record whether the
    field holds an object, [monitored] whether [monitorConnection] has
    attached its continuation to the current connection. *)
Record state := {
  endpoint : bool;
  connection : bool;
  monitored : bool;
  _connected : bool;
  shouldReconnect : bool;
  reconnectAttempts : Z;
  reconnectTimer : option Z;
  subscriptionLoopRunning : bool;
  activeSubscriptions : list Z;
}.

Definition maxReconnectAttempts : Z := 10.

Definition init : state := {|
  endpoint := false;
  connection := false;
  monitored := false;
  _connected := false;
  shouldReconnect := true;
  reconnectAttempts := 0;
  reconnectTimer := None;
  subscriptionLoopRunning := false;
  activeSubscriptions := [];
|}.

Definition handler := state -> state * list effect.

Definition scheduleReconnect : handler :=
  fun st =>
    if maxReconnectAttempts <=? reconnectAttempts st then
      (st, [Emit (ev_error (SlipstreamError.connection
                              "QUIC max reconnect attempts reached"))])
    else
      let delay := Z.min (1000 * 2 ^ reconnectAttempts st) 30000 in
      ({| endpoint := endpoint st;
          connection := connection st;
          monitored := monitored st;
          _connected := _connected st;
          shouldReconnect := shouldReconnect st;
          reconnectAttempts := reconnectAttempts st + 1;
          reconnectTimer := Some delay;
          subscriptionLoopRunning := subscriptionLoopRunning st;
          activeSubscriptions := activeSubscriptions st |},
       [SetTimeout delay]).

(** The continuation [monitorConnection] attaches to [connection.closed]
    (both the fulfilled and the rejected branch do the same). *)
Definition connectionClosed : handler :=
  fun st =>
    let st' := {| endpoint := endpoint st;
                  connection := connection st;
                  monitored := false;
                  _connected := false;
                  shouldReconnect := shouldReconnect st;
                  reconnectAttempts := reconnectAttempts st;
                  reconnectTimer := reconnectTimer st;
                  subscriptionLoopRunning := false;
                  activeSubscriptions := activeSubscriptions st |} in
    if shouldReconnect st' then
      let '(st'', effs) := scheduleReconnect st' in
      (st'', Emit ev_disconnected :: effs)
    else (st', [Emit ev_disconnected]).

(** How far a [connect()] call gets: the optional library is missing; the
    endpoint fails to connect within the timeout (with the error of the
    race); opening or using the authentication stream fails; the server
    rejects the key; or the call authenticates. *)
Inductive connect_outcome : Type :=
| LibraryMissing
| ConnectFailed (e : SlipstreamError.t)
| AuthStreamFailed (e : SlipstreamError.t)
| AuthRejected (message : string)
| Authenticated.

Definition subscribe (streamType : Z) : handler :=
  fun st =>
    let subs := if bool_decide (streamType ∈ activeSubscriptions st)
                then activeSubscriptions st
                else activeSubscriptions st ++ [streamType] in
    let st' := {| endpoint := endpoint st;
                  connection := connection st;
                  monitored := monitored st;
                  _connected := _connected st;
                  shouldReconnect := shouldReconnect st;
                  reconnectAttempts := reconnectAttempts st;
                  reconnectTimer := reconnectTimer st;
                  subscriptionLoopRunning := subscriptionLoopRunning st;
                  activeSubscriptions := subs |} in
    if negb (_connected st') || negb (connection st') then (st', [])
    else (st', [SendSubscription streamType]).

(** [connect()]: [Js.Throw] carries the state and the effects the failed
    call leaves behind.  Only a call that authenticates reaches
    [monitorConnection()]. *)
Definition connect (o : connect_outcome) (st : state)
  : Js.completion (SlipstreamError.t * (state * list effect))
                  (state * list effect) :=
  let with_conn (e c : bool) :=
    {| endpoint := e;
       connection := c;
       monitored := monitored st;
       _connected := _connected st;
       shouldReconnect := shouldReconnect st;
       reconnectAttempts := reconnectAttempts st;
       reconnectTimer := reconnectTimer st;
       subscriptionLoopRunning := subscriptionLoopRunning st;
       activeSubscriptions := activeSubscriptions st |} in
  match o with
  | LibraryMissing =>
      Js.Throw (SlipstreamError.config
                  ("QUIC transport requires the @aspect-build/quic package. "
                   +:+ "Install it with: npm install @aspect-build/quic"),
                (st, []))
  | ConnectFailed e =>
      Js.Throw (e, (with_conn true (connection st), []))
  | AuthStreamFailed e =>
      Js.Throw (e, (with_conn true true, []))
  | AuthRejected message =>
      Js.Throw (SlipstreamError.auth
                  ("QUIC authentication failed: " +:+ message),
                (with_conn true true, [CloseConnection 1]))
  | Authenticated =>
      Js.Return
        ({| endpoint := true;
            connection := true;
            monitored := true;
            _connected := true;
            shouldReconnect := true;
            reconnectAttempts := 0;
            reconnectTimer := reconnectTimer st;
            subscriptionLoopRunning := true;
            activeSubscriptions := activeSubscriptions st |},
         [Emit ev_connected])
  end.

Fixpoint resubscribe (subs : list Z) : handler :=
  match subs with
  | [] => fun st => (st, [])
  | s :: subs' =>
      fun st =>
        let '(st1, e1) := subscribe s st in
        let '(st2, e2) := resubscribe subs' st1 in
        (st2, e1 ++ e2)
  end.

(** The callback of the reconnect timer: a failed [connect()] is caught
    and nothing else happens. *)
Definition reconnectTimerFired (o : connect_outcome) : handler :=
  fun st =>
    match connect o st with
    | Js.Return (st1, e1) =>
        let '(st2, e2) := resubscribe (activeSubscriptions st1) st1 in
        (st2, e1 ++ e2)
    | Js.Throw (_, r) => r
    end.

End QuicTransport.

(** ** multi-region.ts: the region router *)

Module MultiRegion.

Inductive FallbackStrategy : Type :=
| Sequential
| Broadcast
| Retry
| NoFallback.

Record RoutingRecommendation := {
  bestRegion : string;
  leaderPubkey : option string;
  slot : Z;
  confidence : Q;
  expectedRttMs : option Z;
  fallbackRegions : list string;
  fallbackStrategy : FallbackStrategy;
  validForMs : Z;
}.

Record MultiRegionConfig := {
  autoFollowLeader : bool;
  minSwitchConfidence : Q;
  switchCooldownMs : Z;
  broadcastHighPriority : bool;
  maxBroadcastRegions : Z;
}.

Record WorkerEndpoint := {
  id : string;
  region : string;
}.

(** [SubmitOptions]: only [broadcastMode] is read by the router. *)
Record SubmitOptions := {
  broadcastMode : option bool;
}.

(** The result of a submission; the router never looks inside. *)
Record TransactionResult := {
  transactionId : string;
}.

Inductive event : Type :=
| routingUpdate (r : RoutingRecommendation).

(** The mutable fields of a [MultiRegionClient]; both maps keep their keys
    in insertion order. *)
Record state := {
  clients : list string;
  workersByRegion : list (string * list WorkerEndpoint);
  currentRouting : option RoutingRecommendation;
  lastSwitchTime : Z;
}.

(** [a < b] on the numbers of a hint. *)
Definition Qltb (a b : Q) : bool := negb (Qle_bool b a).

Section Router.

(** The immutable configuration: [baseConfig.region] and [multiConfig]. *)
Variable baseRegion : option string.
Variable multiConfig : MultiRegionConfig.

(** *** Routing from leader hints *)

Definition updateRoutingFromHint (hint : Binary.LeaderHint) (now : Z)
    (st : state) : state * list event :=
  if now - lastSwitchTime st <? switchCooldownMs multiConfig then (st, [])
  else if Qltb (Binary.lh_confidence hint) (minSwitchConfidence multiConfig)
  then (st, [])
  else
    let routing := {|
      bestRegion := Binary.preferredRegion hint;
      leaderPubkey := Some (Binary.leaderPubkey hint);
      slot := Binary.lh_slot hint;
      confidence := Binary.lh_confidence hint;
      expectedRttMs := Some (Binary.tpuRttMs (Binary.metadata hint));
      fallbackRegions := Binary.backupRegions hint;
      fallbackStrategy := Sequential;
      validForMs := 1000;
    |} in
    ({| clients := clients st;
        workersByRegion := workersByRegion st;
        currentRouting := Some routing;
        lastSwitchTime := now |},
     [routingUpdate routing]).

Definition connectedRegions (st : state) : list string := clients st.

Definition getDefaultRegion (st : state) : string :=
  match baseRegion with
  | Some r => r
  | None => default "us-east"%string (head (connectedRegions st))
  end.

(** [Array.prototype.slice(0, end)] for an integral [end]. *)
Definition slice0 {A} (l : list A) (end_ : Z) : list A :=
  let len := Z.of_nat (length l) in
  let e := if end_ <? 0 then Z.max (len + end_) 0 else Z.min end_ len in
  take (Z.to_nat e) l.

Definition getBroadcastRegions (st : state) : list string :=
  let all := fst <$> workersByRegion st in
  slice0 all (maxBroadcastRegions multiConfig).

Definition isHighPriority (options : SubmitOptions) : bool :=
  broadcastHighPriority multiConfig
  && bool_decide (broadcastMode options = Some true).

(** *** Submission

    The network is an oracle threaded through the calls: connecting a
    client for a region and submitting through the client of a region
    each answer with a value or an exception and a new world. *)
Context {World : Type}.
Variable connectClient :
  string -> World -> Js.completion SlipstreamError.t unit * World.
Variable clientSubmit :
  string -> SubmitOptions -> World ->
  Js.completion SlipstreamError.t TransactionResult * World.

(** Computations of the router: state and world in, completion out. *)
Definition M (A : Type) : Type :=
  state -> World -> Js.completion SlipstreamError.t A * state * World.

Definition ensureRegionConnected (region : string) : M unit :=
  fun st w =>
    if bool_decide (region ∈ clients st) then (Js.Return (), st, w) else
    match snd <$> find (fun e => bool_decide (fst e = region))
                    (workersByRegion st) with
    | None | Some [] =>
        (Js.Throw (SlipstreamError.config
                     ("No workers in region: " +:+ region)), st, w)
    | Some (worker :: _) =>
        match connectClient region w with
        | (Js.Return _, w') =>
            (Js.Return (),
             {| clients := clients st ++ [region];
                workersByRegion := workersByRegion st;
                currentRouting := currentRouting st;
                lastSwitchTime := lastSwitchTime st |}, w')
        | (Js.Throw e, w') => (Js.Throw e, st, w')
        end
    end.

Definition submitToRegion (region : string) (options : SubmitOptions)
  : M TransactionResult :=
  fun st w =>
    match ensureRegionConnected region st w with
    | (Js.Return _, st', w') =>
        if bool_decide (region ∈ clients st') then
          let '(r, w'') := clientSubmit region options w' in (r, st', w'')
        else
          (Js.Throw (SlipstreamError.connection
                       ("No client for region: " +:+ region)),
           st', w')
    | (Js.Throw e, st', w') => (Js.Throw e, st', w')
    end.

(** The attempts of a broadcast, one per region and in the order of the
    regions, which is the order [Promise.allSettled] reports them in.
    The attempts are answered by the oracle one after the other; the
    interleaving of their suspension points is not modelled. *)
Fixpoint settleAll (regions : list string) (options : SubmitOptions)
  : M (list (Js.completion SlipstreamError.t TransactionResult)) :=
  match regions with
  | [] => fun st w => (Js.Return [], st, w)
  | r :: rs =>
      fun st w =>
        let '(res, st1, w1) := submitToRegion r options st w in
        match settleAll rs options st1 w1 with
        | (Js.Return results, st2, w2) =>
            (Js.Return (res :: results), st2, w2)
        | other => other
        end
  end.

Definition fulfilled {E A} (r : Js.completion E A) : option A :=
  match r with
  | Js.Return v => Some v
  | Js.Throw _ => None
  end.

Definition rejected {E A} (r : Js.completion E A) : option E :=
  match r with
  | Js.Return _ => None
  | Js.Throw e => Some e
  end.

(** The selection [broadcastTransaction] makes among settled results. *)
Definition firstSettled
    (results : list (Js.completion SlipstreamError.t TransactionResult))
  : Js.completion SlipstreamError.t TransactionResult :=
  match head (omap fulfilled results) with
  | Some value => Js.Return value
  | None =>
      match head (omap rejected results) with
      | Some reason => Js.Throw reason
      | None =>
          Js.Throw (SlipstreamError.transaction
                      "All broadcast regions failed")
      end
  end.

Definition broadcastTransaction (options : SubmitOptions)
  : M TransactionResult :=
  fun st w =>
    let regions := getBroadcastRegions st in
    match settleAll regions options st w with
    | (Js.Return results, st', w') => (firstSettled results, st', w')
    | (Js.Throw e, st', w') => (Js.Throw e, st', w')
    end.

(** The fallback loop: the first fallback region that succeeds returns;
    failures are swallowed; [err] is thrown when the list runs out. *)
Fixpoint tryFallbacks (err : SlipstreamError.t) (fallbacks : list string)
    (options : SubmitOptions) : M TransactionResult :=
  match fallbacks with
  | [] => fun st w => (Js.Throw err, st, w)
  | fallback :: rest =>
      fun st w =>
        match submitToRegion fallback options st w with
        | (Js.Return r, st', w') => (Js.Return r, st', w')
        | (Js.Throw _, st', w') => tryFallbacks err rest options st' w'
        end
  end.

Definition submitTransactionWithOptions (options : SubmitOptions)
  : M TransactionResult :=
  fun st w =>
    if bool_decide (broadcastMode options = Some true)
       || isHighPriority options
    then broadcastTransaction options st w
    else
      let region :=
        match currentRouting st with
        | Some r => bestRegion r
        | None => getDefaultRegion st
        end in
      match submitToRegion region options st w with
      | (Js.Return r, st', w') => (Js.Return r, st', w')
      | (Js.Throw err, st', w') =>
          let fallbackRegions :=
            match currentRouting st' with
            | Some r => fallbackRegions r
            | None => []
            end in
          tryFallbacks err fallbackRegions options st' w'
      end.

(** Whether every region of a fallback list fails when tried in
    order, each attempt starting where the previous one left the router
    and the world. *)
Fixpoint fallbacksAllFail (fallbacks : list string)
    (options : SubmitOptions) (st : state) (w : World) : bool :=
  match fallbacks with
  | [] => true
  | fallback :: rest =>
      match submitToRegion fallback options st w with
      | (Js.Return _, _, _) => false
      | (Js.Throw _, st', w') => fallbacksAllFail rest options st' w'
      end
  end.

End Router.

(** *** A two-region scenario

    Both regions have a worker and accept connections; submissions to
    [us-east] time out and submissions to [eu-west] are refused.  The
    world is the log of the errors met so far. *)
Definition demo_connect (region : string) (w : list SlipstreamError.t)
  : Js.completion SlipstreamError.t unit * list SlipstreamError.t :=
  (Js.Return (), w).

Definition demo_submit (region : string) (options : SubmitOptions)
    (w : list SlipstreamError.t)
  : Js.completion SlipstreamError.t TransactionResult
    * list SlipstreamError.t :=
  let e := if bool_decide (region = "us-east"%string)
           then SlipstreamError.timeout 30000
           else SlipstreamError.connection "refused" in
  (Js.Throw e, w ++ [e]).

Definition demo_config : MultiRegionConfig := {|
  autoFollowLeader := true;
  minSwitchConfidence := 70;
  switchCooldownMs := 5000;
  broadcastHighPriority := false;
  maxBroadcastRegions := 3;
|}.

Definition demo_state : state := {|
  clients := ["us-east"%string];
  workersByRegion :=
    [("us-east"%string, [{| id := "w1"; region := "us-east" |}]);
     ("eu-west"%string, [{| id := "w2"; region := "eu-west" |}])];
  currentRouting := Some {|
    bestRegion := "us-east";
    leaderPubkey := None;
    slot := 0;
    confidence := 90;
    expectedRttMs := None;
    fallbackRegions := ["eu-west"%string];
    fallbackStrategy := Sequential;
    validForMs := 1000;
  |};
  lastSwitchTime := 0;
|}.

Definition demo_hint : Binary.LeaderHint := {|
  Binary.lh_timestamp := 0;
  Binary.lh_slot := 7;
  Binary.expiresAtSlot := 11;
  Binary.preferredRegion := "eu-west";
  Binary.backupRegions := ["us-east"%string];
  Binary.lh_confidence := 85;
  Binary.leaderPubkey := "unknown";
  Binary.metadata := {| Binary.tpuRttMs := 3; Binary.regionScore := 85 |};
|}.

End MultiRegion.

(** ** client.ts: the metrics counters of [SlipstreamClient] *)

Module Client.

Inductive TransactionStatus : Type :=
| Pending
| Processing
| Sent
| Confirmed
| Failed
| Duplicate
| RateLimited
| InsufficientTokens.

Record state := {
  txSubmitted : Z;
  txConfirmed : Z;
  totalLatencyMs : Z;
  lastLatencyMs : Z;
}.

Definition init : state :=
  {| txSubmitted := 0; txConfirmed := 0;
     totalLatencyMs := 0; lastLatencyMs := 0 |}.

(** How the transport call inside [submitTransactionWithOptions] ends:
    it throws, or it returns a result with a status after [elapsed]
    milliseconds. *)
Inductive outcome : Type :=
| Threw
| Returned (status : TransactionStatus) (elapsed : Z).

Definition counts_as_confirmed (s : TransactionStatus) : bool :=
  match s with
  | Confirmed | Sent => true
  | _ => false
  end.

(** The bookkeeping of one [submitTransactionWithOptions] call. *)
Definition submitTransactionWithOptions (o : outcome) (st : state) : state :=
  match o with
  | Threw =>
      {| txSubmitted := txSubmitted st + 1;
         txConfirmed := txConfirmed st;
         totalLatencyMs := totalLatencyMs st;
         lastLatencyMs := lastLatencyMs st |}
  | Returned status elapsed =>
      {| txSubmitted := txSubmitted st + 1;
         txConfirmed := if counts_as_confirmed status
                        then txConfirmed st + 1 else txConfirmed st;
         totalLatencyMs := totalLatencyMs st + elapsed;
         lastLatencyMs := elapsed |}
  end.

Record PerformanceMetrics := {
  transactionsSubmitted : Z;
  transactionsConfirmed : Z;
  averageLatencyMs : Q;
  successRate : Q;
}.

Definition metrics (st : state) : PerformanceMetrics := {|
  transactionsSubmitted := txSubmitted st;
  transactionsConfirmed := txConfirmed st;
  averageLatencyMs :=
    if 0 <? txSubmitted st
    then (inject_Z (totalLatencyMs st) / inject_Z (txSubmitted st))%Q
    else 0%Q;
  successRate :=
    if 0 <? txSubmitted st
    then (inject_Z (txConfirmed st) / inject_Z (txSubmitted st))%Q
    else 0%Q;
|}.

(** The states a client can be in: any number of submissions, each ending
    in any way. *)
Definition after (os : list outcome) : state :=
  fold_left (fun st o => submitTransactionWithOptions o st) os init.

Definition reachable (st : state) : Prop := exists os, after os = st.

End Client.

(** ** transport/binary.ts, continued: frame builders, responses, base58 *)

Module BinaryFrames.
Import Js Binary.

(** [x | 0] and [x << n]: JavaScript's conversion to a signed 32-bit
    integer, and the shift that goes through it. *)
Definition to_int32 (x : Z) : Z := (x + 2 ^ 31) mod 2 ^ 32 - 2 ^ 31.

Definition shl (x n : Z) : Z := to_int32 (x * 2 ^ n).

Definition byte_of_Z (z : Z) : byte :=
  default x00 (Byte.of_N (Z.to_N (z mod 256))).

(** The [width] bytes a [writeUIntBE]-style call stores for a value. *)
Fixpoint be_bytes (width : nat) (v : Z) : list byte :=
  match width with
  | O => []
  | S n => be_bytes n (v / 256) ++ [byte_of_Z v]
  end.

(** [buf.writeUIntXXBE(value, offset)]: throws a [RangeError] when the
    value does not fit the width or the field does not fit the buffer,
    otherwise overwrites the field in place. *)
Definition writeBE (width : nat) (buf : Buffer) (value offset : Z)
  : completion exn Buffer :=
  if (0 <=? value) && (value <? 256 ^ Z.of_nat width)
     && (0 <=? offset) && (offset + Z.of_nat width <=? Z.of_nat (List.length buf))
  then Return (take (Z.to_nat offset) buf ++ be_bytes width value
               ++ drop (Z.to_nat offset + width) buf)
  else Throw RangeError.

Definition writeUInt32BE := writeBE 4.
Definition writeBigUInt64BE := writeBE 8.

(** *** Encoding *)

Definition buildTransactionFrame (transaction : list byte) : Buffer :=
  byte_of_Z STREAM_TYPE.TransactionSubmit :: transaction.

Definition buildSubscriptionFrame (streamType : Z) : Buffer :=
  [byte_of_Z streamType].

Definition buildPingFrame (seq clientTime : Z) : completion exn Buffer :=
  let frame := replicate 13 x00 in
  let frame := byte_of_Z STREAM_TYPE.Ping :: drop 1 frame in
  let! frame := writeUInt32BE frame seq 1 in
  writeBigUInt64BE frame clientTime 5.

(** *** Auth response *)

Record AuthResponse := {
  success : bool;
  auth_message : string;
}.

Definition parseAuthResponse (buf : Buffer) : AuthResponse :=
  if ltb (length buf) (Some 1)
  then {| success := false; auth_message := "Empty auth response" |}
  else
    let status := index buf (Some 0) in
    let message := to_utf8 (subarray buf (Some 1) (length buf)) in
    {| success := strict_eqb status 1; auth_message := message |}.

(** *** Base58 (signatures) *)

Definition BASE58_ALPHABET : string :=
  "123456789ABCDEFGHJKLMNPQRSTUVWXYZabcdefghijkmnopqrstuvwxyz".

(** The inner [for] loop over the digits, least significant first:
    [carry += digits[j] << 8; digits[j] = carry % 58;
     carry = (carry / 58) | 0]. *)
Fixpoint mulAdd (digits : list Z) (carry : Z) : list Z * Z :=
  match digits with
  | [] => ([], carry)
  | d :: ds =>
      let carry := carry + shl d 8 in
      let d' := Z.rem carry 58 in
      let carry := to_int32 (Z.quot carry 58) in
      let '(ds', carry) := mulAdd ds carry in
      (d' :: ds', carry)
  end.

(** The [while (carry > 0)] loop, with the digits it pushes and the carry
    it stops at; [fuel] bounds the number of iterations. *)
Fixpoint pushCarry (fuel : nat) (carry : Z) : list Z * Z :=
  match fuel with
  | O => ([], carry)
  | S fuel' =>
      if 0 <? carry then
        let '(ds, c) := pushCarry fuel' (to_int32 (Z.quot carry 58)) in
        (Z.rem carry 58 :: ds, c)
      else ([], carry)
  end.

(** One iteration of the outer loop.  The carry shrinks at every turn of
    the [while] loop, so its own value is fuel enough. *)
Definition addByte (digits : list Z) (b : byte) : list Z :=
  let '(digits, carry) := mulAdd digits (byteZ b) in
  digits ++ fst (pushCarry (Z.to_nat carry) carry).

Definition base58_digits (bytes : list byte) : list Z :=
  fold_left addByte bytes [0].

Fixpoint leadingZeros (bytes : list byte) : nat :=
  match bytes with
  | b :: rest => if byteZ b =? 0 then S (leadingZeros rest) else O
  | [] => O
  end.

(** [BASE58_ALPHABET[d]] appended to a string: an index outside the
    alphabet yields [undefined], which concatenates as its name. *)
Definition alphabetChar (d : Z) : string :=
  if d <? 0 then "undefined"
  else match String.get (Z.to_nat d) BASE58_ALPHABET with
       | Some c => String c EmptyString
       | None => "undefined"
       end.

Definition encodeBase58 (bytes : list byte) : string :=
  let output := String.concat "" (replicate (leadingZeros bytes) "1"%string) in
  fold_left (fun out d => out +:+ alphabetChar d)
            (rev (base58_digits bytes)) output.

(** The number a digit sequence (least significant first) stands for in
    base 58. *)
Definition digits_value (ds : list Z) : Z :=
  foldr (fun d acc => d + 58 * acc) 0 ds.

(** A base-58 digit. *)
Definition is_digit58 (d : Z) : Prop := 0 <= d < 58.

(** *** Transaction response *)

Definition STATUS_MAP (statusByte : num) : option Client.TransactionStatus :=
  match statusByte with
  | Some 1 => Some Client.Sent
  | Some 2 => Some Client.Duplicate
  | Some 3 => Some Client.RateLimited
  | Some 4 => Some Client.Failed
  | _ => None
  end.

Record ResponseError := {
  err_code : string;
  err_message : string;
}.

Record TransactionResult := {
  requestId : string;
  transactionId : string;
  signature : option string;
  status : Client.TransactionStatus;
  timestamp : Z;
  error : option ResponseError;
}.

(** Truthiness of a byte read with [buf[i]]. *)
Definition truthy_num (n : num) : bool :=
  match n with
  | Some z => negb (z =? 0)
  | None => false
  end.

Definition parseTransactionResponse (buf : Buffer) (now : Z)
  : completion exn TransactionResult :=
  let offset := Some 0 in
  let! requestId := readUInt32BE buf offset in
  let offset := add offset (Some 4) in
  let statusByte := index buf offset in
  let offset := add offset (Some 1) in
  let hasSig := index buf offset in
  let offset := add offset (Some 1) in
  let '(signature, offset) :=
    if truthy_num hasSig then
      let sigBytes := subarray buf offset (add offset (Some 64)) in
      (Some (encodeBase58 sigBytes), add offset (Some 64))
    else (None, offset) in
  let! errLen := readUInt16BE buf offset in
  let offset := add offset (Some 2) in
  let error :=
    if 0 <? errLen then
      let errMsg := to_utf8 (subarray buf offset (add offset (Some errLen))) in
      Some {| err_code := "SENDER_ERROR"; err_message := errMsg |}
    else None in
  let status := default Client.Failed (STATUS_MAP statusByte) in
  Return {|
    requestId := "req_" +:+ pretty requestId;
    transactionId := default ("tx_" +:+ pretty requestId) signature;
    signature := signature;
    status := status;
    timestamp := now;
    error := error;
  |}.

(** Text of 7-bit characters: on it [toString('utf-8')] yields one
    character per byte and nothing is replaced. *)
Definition ascii_only (text : Buffer) : Prop :=
  Forall (fun b => byteZ b < 128) text.

End BinaryFrames.

(** ** Observations on runs of the WebSocket transport *)

Module WebSocketRuns.
Import WebSocketTransport.

(** The requests whose promise was settled, resolved or rejected, in
    order. *)
Definition settlements (effs : list effect) : list requestId :=
  omap (fun e => match e with
                 | ResolveRequest id | RejectRequest id _ => Some id
                 | _ => None
                 end) effs.

(** The number of intervals set and not cleared. *)
Definition live_intervals (effs : list effect) : Z :=
  foldr (fun e n => match e with
                    | SetInterval _ => n + 1
                    | ClearInterval => n - 1
                    | _ => n
                    end) 0 effs.

(** The keys of the pending-request map. *)
Definition pendingIds (st : state) : list requestId :=
  fst <$> pendingRequests st.

End WebSocketRuns.

(** ** transport/quic.ts: disconnect() and the incoming streams *)

Module QuicSession.
Import Js Binary QuicTransport.

Definition disconnect : handler :=
  fun st =>
    let clearTimer :=
      match reconnectTimer st with
      | Some _ => [ClearTimeout]
      | None => []
      end in
    let closeConnection :=
      if connection st then [CloseConnection 0] else [] in
    let closeEndpoint := if endpoint st then [CloseEndpoint] else [] in
    ({| endpoint := false;
        connection := false;
        monitored := monitored st;
        _connected := false;
        shouldReconnect := false;
        reconnectAttempts := reconnectAttempts st;
        reconnectTimer := None;
        subscriptionLoopRunning := false;
        activeSubscriptions := activeSubscriptions st |},
     clearTimer ++ closeConnection ++ closeEndpoint
     ++ [Emit ev_disconnected]).

(** The [closed] promise of the connection settles: the continuation that
    [monitorConnection] attached runs, if one is attached. *)
Definition connectionSettled : handler :=
  fun st => if monitored st then connectionClosed st else (st, []).

(** The events a received uni-directional stream gives rise to. *)
Inductive stream_event : Type :=
| leaderHint (hint : LeaderHint)
| tipInstruction (tip : TipInstruction)
| priorityFee (fee : PriorityFee)
| error (e : SlipstreamError.t).

Definition emit_if {A} (ev : A -> stream_event) (frame : option A)
  : list stream_event :=
  match frame with
  | Some x => [ev x]
  | None => []
  end.

Definition processIncomingStream (data : Buffer)
  : completion exn (list stream_event) :=
  if ltb (length data) (Some 1) then Return [] else
  let streamType := index data (Some 0) in
  if strict_eqb streamType STREAM_TYPE.LeaderHints then
    let! hint := parseLeaderHint data in
    Return (emit_if leaderHint hint)
  else if strict_eqb streamType STREAM_TYPE.TipInstructions then
    let! tip := parseTipInstruction data in
    Return (emit_if tipInstruction tip)
  else if strict_eqb streamType STREAM_TYPE.PriorityFees then
    let! fee := parsePriorityFee data in
    Return (emit_if priorityFee fee)
  else Return [].

(** The listener's call: a rejection of [processIncomingStream] becomes an
    ['error'] event, [describe] standing for the text of the exception. *)
Definition onIncomingStream (describe : exn -> string) (data : Buffer)
  : list stream_event :=
  match processIncomingStream data with
  | Return evs => evs
  | Throw e =>
      [error (SlipstreamError.connection
                ("Stream processing error: " +:+ describe e))]
  end.

(** The ['disconnected'] events among the effects. *)
Definition disconnected_events (effs : list effect) : nat :=
  List.length
    (omap (fun e => match e with
                    | Emit ev_disconnected => Some tt
                    | _ => None
                    end) effs).

(** The delays of the reconnect timers armed and the subscription frames
    sent. *)
Definition timers_armed (effs : list effect) : list Z :=
  omap (fun e => match e with SetTimeout d => Some d | _ => None end) effs.

Definition subscriptions_sent (effs : list effect) : list Z :=
  omap (fun e => match e with SendSubscription t => Some t | _ => None end)
       effs.

End QuicSession.

(** ** multi-region.ts: construction of the router *)

Module MultiRegionSetup.
Import MultiRegion.

(** One turn of the grouping loop of [create]: the worker is pushed on
    the array of its region, a region seen for the first time being
    appended to the map. *)
Definition groupWorker (m : list (string * list WorkerEndpoint))
    (worker : WorkerEndpoint) : list (string * list WorkerEndpoint) :=
  match find (fun e => bool_decide (fst e = region worker)) m with
  | Some _ =>
      (fun e => if bool_decide (fst e = region worker)
                then (fst e, snd e ++ [worker]) else e) <$> m
  | None => m ++ [(region worker, [worker])]
  end.

Definition groupWorkers (workers : list WorkerEndpoint)
  : list (string * list WorkerEndpoint) :=
  fold_left groupWorker workers [].

(** [Map.prototype.get] on the worker map. *)
Definition workersOf (r : string) (m : list (string * list WorkerEndpoint))
  : option (list WorkerEndpoint) :=
  snd <$> find (fun e => bool_decide (fst e = r)) m.

Section Create.

Variable baseRegion : option string.
Context {World : Type}.
Variable connectClient :
  string -> World -> Js.completion SlipstreamError.t unit * World.

(** [MultiRegionClient.create], up to the registration of the hint
    listener: the workers are grouped and the primary region, the
    configured one or else the region of the first worker, is connected
    when it is a non-empty string. *)
Definition create (workers : list WorkerEndpoint) (w : World)
  : Js.completion SlipstreamError.t state * World :=
  let multi := {| clients := [];
                  workersByRegion := groupWorkers workers;
                  currentRouting := None;
                  lastSwitchTime := 0 |} in
  let primaryRegion :=
    match baseRegion with
    | Some r => Some r
    | None => region <$> head workers
    end in
  match primaryRegion with
  | Some r =>
      if bool_decide (r = ""%string) then (Js.Return multi, w) else
      match ensureRegionConnected connectClient r multi w with
      | (Js.Return _, st, w') => (Js.Return st, w')
      | (Js.Throw e, _, w') => (Js.Throw e, w')
      end
  | None => (Js.Return multi, w)
  end.

End Create.

(** The router state [st'] continues [st]: the worker map, the routing
    and the switch time are the same, the clients of [st] are still
    there, in front, and every client that came with [st'] is a
    region that has a worker; no region has two clients in [st'] unless
    one has in [st]. *)
Definition extends (st st' : state) : Prop :=
  workersByRegion st' = workersByRegion st /\
  currentRouting st' = currentRouting st /\
  lastSwitchTime st' = lastSwitchTime st /\
  clients st `prefix_of` clients st' /\
  (NoDup (clients st) -> NoDup (clients st')) /\
  forall r, r ∈ clients st' ->
    r ∈ clients st \/
    exists worker ws, workersOf r (workersByRegion st) = Some (worker :: ws).

End MultiRegionSetup.

(** ** TimeSyncManager of the client: the window of ping samples *)

Module TimeSync.

Definition PingResult := WebSocketTransport.PingResult.

(** [record]: the sample is pushed and, when the array has grown past
    [maxSamples], its first element is shifted out. *)
Definition record (maxSamples : Z) (result : PingResult)
    (samples : list PingResult) : list PingResult :=
  let samples := samples ++ [result] in
  if maxSamples <? Z.of_nat (length samples) then drop 1 samples
  else samples.

(** The samples held after recording [results] one after the other. *)
Definition recordAll (maxSamples : Z) (results : list PingResult)
  : list PingResult :=
  fold_left (fun samples r => record maxSamples r samples) results [].

(** [sort((a, b) => a - b)] on integers. *)
Definition sortNumbers (values : list Z) : list Z := merge_sort Z.le values.

(** [sorted[Math.floor(sorted.length / 2)]], [null] without samples. *)
Definition median (values : list Z) : option Z :=
  if bool_decide (length values = 0%nat) then None
  else
    let sorted := sortNumbers values in
    sorted !! Z.to_nat (Z.of_nat (length sorted) / 2).

Definition medianRttMs (samples : list PingResult) : option Z :=
  median (WebSocketTransport.rttMs <$> samples).

Definition medianClockOffsetMs (samples : list PingResult) : option Z :=
  median (WebSocketTransport.clockOffsetMs <$> samples).

End TimeSync.

(** ** discovery.ts and the choice of a worker in [SlipstreamClient.connect] *)

Module Discovery.

(** A worker of the discovery response, with the fields that are read. *)
Record DiscoveryWorker := {
  id : string;
  region : string;
  ip : string;
  port_http : Z;
  healthy : bool;
}.

Record DiscoveryResponse := {
  workers : list DiscoveryWorker;
  recommended_region : option string;
}.

(** [w.region === region && w.healthy]. *)
Definition serves (r : string) (w : DiscoveryWorker) : bool :=
  bool_decide (region w = r) && healthy w.

Definition bestRegion (response : DiscoveryResponse)
    (preferred : option string) : option string :=
  match preferred with
  | Some p =>
      if Js.truthy preferred && existsb (serves p) (workers response)
      then Some p
      else recommended_region response
  | None => recommended_region response
  end.

Definition workersForRegion (response : DiscoveryResponse) (r : string)
  : list DiscoveryWorker :=
  List.filter (serves r) (workers response).

(** The first part of [SlipstreamClient.connect] for a configuration
    without endpoint: the region and the endpoint the configuration is
    completed with, from a discovery response. *)
Definition resolveEndpoint (response : DiscoveryResponse)
    (configRegion : option string)
  : Js.completion SlipstreamError.t (string * string) :=
  let region := bestRegion response configRegion in
  match region with
  | Some (String _ _ as r) =>
      match workersForRegion response r with
      | [] =>
          Js.Throw (SlipstreamError.connection
                      ("No healthy workers in region '" +:+ r +:+ "'"))
      | worker :: _ =>
          Js.Return
            (r, "http://" +:+ ip worker +:+ ":" +:+ pretty (port_http worker))
      end
  | _ =>
      Js.Throw (SlipstreamError.connection
                  "No healthy workers found via discovery")
  end.

End Discovery.

(** ** WorkerSelector: the choice among measured workers *)

Module WorkerSelector.

Definition WorkerEndpoint := MultiRegion.WorkerEndpoint.

(** A measurement; [rttMs] is [None] for [Infinity]. *)
Record LatencyMeasurement := {
  rttMs : option Z;
  measuredAt : Z;
  reachable : bool;
}.

(** [a < b] on numbers that may be [Infinity]. *)
Definition lt_number (a b : option Z) : bool :=
  match a, b with
  | Some x, Some y => x <? y
  | Some _, None => true
  | None, _ => false
  end.

(** [Map.prototype.get] on the latencies. *)
Definition getMeasurement (workerId : string)
    (latencies : list (string * LatencyMeasurement))
  : option LatencyMeasurement :=
  snd <$> find (fun e => bool_decide (fst e = workerId)) latencies.

(** One turn of the selection loop on [best] and [bestRtt]. *)
Definition consider (latencies : list (string * LatencyMeasurement))
    (acc : option WorkerEndpoint * option Z) (worker : WorkerEndpoint)
  : option WorkerEndpoint * option Z :=
  match getMeasurement (MultiRegion.id worker) latencies with
  | Some latency =>
      if reachable latency && lt_number (rttMs latency) (snd acc)
      then (Some worker, rttMs latency)
      else acc
  | None => acc
  end.

Definition pickBest (latencies : list (string * LatencyMeasurement))
    (workers : list WorkerEndpoint) : option WorkerEndpoint :=
  fst (fold_left (consider latencies) workers (None, None)).

(** [selectBest], given the latencies as [ensureMeasurements] leaves
    them. *)
Definition selectBest (workers : list WorkerEndpoint)
    (latencies : list (string * LatencyMeasurement))
  : Js.completion SlipstreamError.t WorkerEndpoint :=
  match workers with
  | [] => Js.Throw (SlipstreamError.config "No workers available")
  | [worker] => Js.Return worker
  | first :: _ => Js.Return (default first (pickBest latencies workers))
  end.

Definition selectBestInRegion (workers : list WorkerEndpoint)
    (latencies : list (string * LatencyMeasurement)) (r : string)
  : Js.completion SlipstreamError.t WorkerEndpoint :=
  let regionWorkers :=
    List.filter (fun w => bool_decide (MultiRegion.region w = r)) workers in
  match regionWorkers with
  | [] => Js.Throw (SlipstreamError.config
                      ("No workers available in region: " +:+ r))
  | [worker] => Js.Return worker
  | first :: _ =>
      Js.Return (default first (pickBest latencies regionWorkers))
  end.

(** The round-trip time a worker can be chosen by: that of a reachable
    measurement, when it is finite. *)
Definition usableRtt (latencies : list (string * LatencyMeasurement))
    (worker : WorkerEndpoint) : option Z :=
  match getMeasurement (MultiRegion.id worker) latencies with
  | Some latency => if reachable latency then rttMs latency else None
  | None => None
  end.

End WorkerSelector.

(** ** client.ts: what the metrics counters add up *)

Module ClientAccounting.
Import Client.

(** The latencies of the calls that returned, in order. *)
Definition returnedLatencies (os : list outcome) : list Z :=
  omap (fun o => match o with
                 | Returned _ elapsed => Some elapsed
                 | Threw => None
                 end) os.

(** The calls that returned with a status counted as confirmed. *)
Definition confirmedCalls (os : list outcome) : list outcome :=
  List.filter (fun o => match o with
                        | Returned status _ => counts_as_confirmed status
                        | Threw => false
                        end) os.

Definition sumZ (l : list Z) : Z := foldr Z.add 0 l.

End ClientAccounting.

(** ** multi-region.ts: the attempts of a broadcast and their order *)

Module BroadcastOrder.
Import MultiRegion.

Section Attempts.

Context {World : Type}.
Variable connectClient :
  string -> World -> Js.completion SlipstreamError.t unit * World.
Variable clientSubmit :
  string -> SubmitOptions -> World ->
  Js.completion SlipstreamError.t TransactionResult * World.
Variable options : SubmitOptions.

(** [attempts regions st w results st' w']: one [submitToRegion] is made
    per region, in the order of the regions, each from the router and
    the network the attempt before it has left; [results] are their
    outcomes in that order, [st'] and [w'] what the last attempt
    leaves. *)
Inductive attempts :
  list string -> state -> World ->
  list (Js.completion SlipstreamError.t TransactionResult) ->
  state -> World -> Prop :=
| attempts_nil (st : state) (w : World) : attempts [] st w [] st w
| attempts_cons (region : string) (regions : list string)
    (st : state) (w : World)
    (res : Js.completion SlipstreamError.t TransactionResult)
    (st1 : state) (w1 : World)
    (results : list (Js.completion SlipstreamError.t TransactionResult))
    (st2 : state) (w2 : World) :
    submitToRegion connectClient clientSubmit region options st w
      = (res, st1, w1) ->
    attempts regions st1 w1 results st2 w2 ->
    attempts (region :: regions) st w (res :: results) st2 w2.

End Attempts.

(** *** The specification's wording, for comparison

    The specification speaks of the first success and of the first
    failure observed.  Read in time, these are the attempts that settle
    earliest. *)

(** The outcome of an attempt and the time its promise settled. *)
Record settled := {
  outcome : Js.completion SlipstreamError.t TransactionResult;
  settledAt : Z;
}.

(** The element of least time, the earlier in the list among equals. *)
Definition earliest {A} (time : A -> Z) (l : list A) : option A :=
  foldr (fun x best =>
           match best with
           | Some y => if time y <? time x then Some y else Some x
           | None => Some x
           end) None l.

Definition successes (l : list settled) : list (TransactionResult * Z) :=
  omap (fun a => match outcome a with
                 | Js.Return v => Some (v, settledAt a)
                 | Js.Throw _ => None
                 end) l.

Definition failures (l : list settled) : list (SlipstreamError.t * Z) :=
  omap (fun a => match outcome a with
                 | Js.Return _ => None
                 | Js.Throw e => Some (e, settledAt a)
                 end) l.

Definition spec_firstSuccess (l : list settled) : option TransactionResult :=
  fst <$> earliest snd (successes l).

Definition spec_firstFailure (l : list settled) : option SlipstreamError.t :=
  fst <$> earliest snd (failures l).

(** *** Two scenarios

    In the first, [us-east] times out and [eu-west] accepts the
    transaction; the world is the log of the errors met.  In the second
    both regions accept, [us-east] answering after 50 ms and [eu-west]
    after 10 ms; the world is the log of the answers with the time each
    arrived. *)
Definition eu_accepts (region : string) (options : SubmitOptions)
    (w : list SlipstreamError.t)
  : Js.completion SlipstreamError.t TransactionResult
    * list SlipstreamError.t :=
  if bool_decide (region = "us-east"%string)
  then (Js.Throw (SlipstreamError.timeout 30000),
        w ++ [SlipstreamError.timeout 30000])
  else (Js.Return {| transactionId := "tx-" +:+ region |}, w).

Definition timed_connect (region : string) (w : list (string * Z))
  : Js.completion SlipstreamError.t unit * list (string * Z) :=
  (Js.Return (), w).

Definition timed_submit (region : string) (options : SubmitOptions)
    (w : list (string * Z))
  : Js.completion SlipstreamError.t TransactionResult * list (string * Z) :=
  let arrival := if bool_decide (region = "us-east"%string) then 50 else 10 in
  (Js.Return {| transactionId := "tx-" +:+ region |},
   w ++ [(region, arrival)]).

(** The attempts of a broadcast with the times the log gives them. *)
Definition observed
    (results : list (Js.completion SlipstreamError.t TransactionResult))
    (log : list (string * Z)) : list settled :=
  zip_with (fun res entry => {| outcome := res; settledAt := snd entry |})
           results log.

End BroadcastOrder.

(** * Verification *)

(** ** Binary codec *)

Section BinaryFacts.
Import Js Binary.

Lemma readBE_short (width : nat) (buf : Buffer) (z : Z) :
  Z.of_nat (List.length buf) < z + Z.of_nat width ->
  readBE width buf (Some z) = Throw RangeError.
Proof.
  intros Hshort. unfold readBE.
  destruct (0 <=? z); simpl; [|reflexivity].
  destruct (Z.leb_spec (z + Z.of_nat width) (Z.of_nat (List.length buf)));
    [lia | reflexivity].
Qed.

Lemma readBE_fits (width : nat) (buf : Buffer) (z : Z) :
  0 <= z -> z + Z.of_nat width <= Z.of_nat (List.length buf) ->
  exists v, readBE width buf (Some z) = Return v.
Proof.
  intros Hz Hfit. unfold readBE.
  destruct (Z.leb_spec 0 z); [|lia].
  destruct (Z.leb_spec (z + Z.of_nat width) (Z.of_nat (List.length buf)));
    [|lia].
  simpl. eauto.
Qed.

(** [parseLatestSlot] returns [null] on the empty buffer only; every other
    buffer that is too short for the two 8-byte fields makes it throw. *)
Lemma parseLatestSlot_null_iff (buf : Buffer) :
  parseLatestSlot buf = Return None <-> buf = [].
Proof.
  split.
  - destruct buf as [|b buf]; [reflexivity|].
    unfold parseLatestSlot. cbn [length ltb List.length].
    destruct (Z.ltb_spec (Z.of_nat (S (List.length buf))) 1); [lia|].
    destruct (readBigUInt64BE _ _) as [slot|]; cbn; [|discriminate].
    destruct (readBigUInt64BE _ _); cbn; discriminate.
  - intros ->. reflexivity.
Qed.

Lemma parseLatestSlot_short_throws (buf : Buffer) :
  buf <> [] -> (List.length buf < 16)%nat ->
  parseLatestSlot buf = Throw RangeError.
Proof.
  intros Hne Hlen. destruct buf as [|b buf]; [done|].
  unfold parseLatestSlot. cbn [length ltb].
  destruct (Z.ltb_spec (Z.of_nat (List.length (b :: buf))) 1) as [H1|H1];
    [cbn [List.length] in H1; lia|].
  set (offset := if strict_eqb _ _ then _ else _).
  assert (Hoff : offset = Some 0 \/ offset = Some 1)
    by (subst offset; destruct (strict_eqb _ _); cbn; auto).
  unfold readBigUInt64BE.
  destruct Hoff as [-> | ->].
  - destruct (readBE 8 (b :: buf) (Some 0)) as [slot|[]] eqn:Hr;
      cbn [bind add]; [|reflexivity].
    rewrite readBE_short; [reflexivity|]. cbn [List.length] in *. lia.
  - destruct (readBE 8 (b :: buf) (Some 1)) as [slot|[]] eqn:Hr;
      cbn [bind add]; [|reflexivity].
    rewrite readBE_short; [reflexivity|]. cbn [List.length] in *. lia.
Qed.

(** A buffer that holds both 8-byte fields after the optional tag decodes
    to a frame. *)
Lemma parseLatestSlot_decodes (buf : Buffer) :
  (17 <= List.length buf)%nat ->
  exists frame, parseLatestSlot buf = Return (Some frame).
Proof.
  intros Hlen. unfold parseLatestSlot. cbn [length ltb].
  destruct (Z.ltb_spec (Z.of_nat (List.length buf)) 1) as [H1|H1]; [lia|].
  set (offset := if strict_eqb _ _ then _ else _).
  assert (Hoff : offset = Some 0 \/ offset = Some 1)
    by (subst offset; destruct (strict_eqb _ _); cbn; auto).
  unfold readBigUInt64BE.
  destruct Hoff as [-> | ->]; cbn [add].
  - destruct (readBE_fits 8 buf 0) as [slot ->]; [lia | lia |].
    destruct (readBE_fits 8 buf (0 + 8)) as [ts ->]; [lia | lia |].
    cbn. eauto.
  - destruct (readBE_fits 8 buf 1) as [slot ->]; [lia | lia |].
    destruct (readBE_fits 8 buf (1 + 8)) as [ts ->]; [lia | lia |].
    cbn. eauto.
Qed.

(** Every non-empty priority fee buffer shorter than its 21 bytes of fixed
    fields makes [parsePriorityFee] throw. *)
Lemma parsePriorityFee_short_throws (buf : Buffer) :
  buf <> [] -> (List.length buf < 21)%nat ->
  parsePriorityFee buf = Throw RangeError.
Proof.
  intros Hne Hlen. destruct buf as [|b buf]; [done|].
  unfold parsePriorityFee. cbn [length ltb].
  destruct (Z.ltb_spec (Z.of_nat (List.length (b :: buf))) 1) as [H1|H1];
    [cbn [List.length] in H1; lia|].
  set (offset := if strict_eqb _ _ then _ else _).
  assert (Hoff : offset = Some 0 \/ offset = Some 1)
    by (subst offset; destruct (strict_eqb _ _); cbn; auto).
  unfold readBigUInt64BE, readUInt32BE.
  destruct Hoff as [-> | ->]; cbn [add].
  - destruct (readBE 8 (b :: buf) (Some 0)) as [fee|[]]; cbn [bind];
      [|reflexivity].
    destruct (readBE 4 (b :: buf) (Some (0 + 8 + 1))) as [n|[]]; cbn [bind];
      [|reflexivity].
    rewrite readBE_short; [reflexivity|]. cbn [List.length] in *. lia.
  - destruct (readBE 8 (b :: buf) (Some 1)) as [fee|[]]; cbn [bind];
      [|reflexivity].
    destruct (readBE 4 (b :: buf) (Some (1 + 8 + 1))) as [n|[]]; cbn [bind];
      [|reflexivity].
    rewrite readBE_short; [reflexivity|]. cbn [List.length] in *. lia.
Qed.

(** With the tier given (and not empty) the frame has the documented
    layout. *)
Lemma buildAuthFrame_with_tier (apiKey tier : string) :
  tier <> EmptyString ->
  buildAuthFrame apiKey (Some tier) = authFrameLayout apiKey (Some tier).
Proof.
  intros Hne. unfold buildAuthFrame, authFrameLayout.
  destruct tier; [done|]. reflexivity.
Qed.

Lemma keyPrefix_length (apiKey : string) :
  List.length (keyPrefix apiKey) = 8%nat.
Proof.
  unfold keyPrefix.
  rewrite length_app, length_take, length_replicate. lia.
Qed.

(** C1 (defect): on truncated frames the five stream decoders throw a
    [RangeError] instead of returning [null].  A leader hint cut after its
    region length, and a tip instruction, priority fee, latest blockhash
    and latest slot frame cut after the tag byte, all raise. *)
Theorem C1_stream_decoders_throw_on_truncated_frames :
  parseLeaderHint [x02; x00] = Throw RangeError /\
  parseTipInstruction [x03] = Throw RangeError /\
  parsePriorityFee [x04] = Throw RangeError /\
  parseLatestBlockhash [x06] = Throw RangeError /\
  parseLatestSlot [x07] = Throw RangeError.
Proof. repeat split; reflexivity. Qed.

(** C9 (defect): without a tier the auth frame is the key prefix followed
    by the version string and nothing else, so the version string is not
    null-terminated and the frame differs from the specified layout. *)
Theorem C9_auth_frame_without_tier_lacks_terminator (apiKey : string) :
  buildAuthFrame apiKey None = keyPrefix apiKey ++ from_utf8 SDK_VERSION /\
  last (buildAuthFrame apiKey None) = Some "1"%byte /\
  buildAuthFrame apiKey None <> authFrameLayout apiKey None.
Proof.
  split; [reflexivity|]. split.
  - unfold buildAuthFrame. cbn [truthy].
    rewrite last_app. reflexivity.
  - intros Heq. apply (f_equal (@List.length byte)) in Heq.
    unfold buildAuthFrame, authFrameLayout in Heq. cbn [truthy] in Heq.
    rewrite !length_app in Heq. cbn [List.length] in Heq. lia.
Qed.

End BinaryFacts.

(** ** QUIC transport *)

Section QuicFacts.
Import QuicTransport.

(** Once the attempts are used up, [scheduleReconnect] reports it with
    one CONNECTION error and arms nothing. *)
Lemma quic_scheduleReconnect_exhausted (st : state) :
  maxReconnectAttempts <= reconnectAttempts st ->
  scheduleReconnect st =
  (st, [Emit (ev_error (SlipstreamError.connection
                          "QUIC max reconnect attempts reached"))]).
Proof.
  intros Hge. unfold scheduleReconnect.
  destruct (Z.leb_spec maxReconnectAttempts (reconnectAttempts st)); [|lia].
  reflexivity.
Qed.

(** A reconnect attempt whose [connect()] fails is caught and dropped:
    no timer is armed, nothing is emitted, the attempt counter and the
    (absent) connection monitor are as before.  Nothing will call
    [scheduleReconnect] again. *)
Lemma quic_failed_reconnect_is_not_retried (o : connect_outcome) (st : state) :
  o <> Authenticated ->
  let r := reconnectTimerFired o st in
  reconnectAttempts (fst r) = reconnectAttempts st /\
  monitored (fst r) = monitored st /\
  Forall (fun e => match e with
                   | SetTimeout _ | Emit _ => False
                   | _ => True
                   end) (snd r).
Proof.
  intros Ho. destruct o; try done; cbn; repeat split;
    repeat constructor.
Qed.

Lemma resubscribe_sends (subs : list Z) (st : state) :
  _connected st = true -> connection st = true ->
  (forall s, s ∈ subs -> s ∈ activeSubscriptions st) ->
  resubscribe subs st = (st, SendSubscription <$> subs).
Proof.
  intros Hc Hconn. induction subs as [|s subs IH]; intros Hsub; [reflexivity|].
  cbn [resubscribe]. unfold subscribe.
  rewrite bool_decide_eq_true_2 by (apply Hsub; left).
  destruct st as [e c m cn sr ra rt lp subs0]. cbn in *. subst.
  cbn [negb orb]. rewrite IH by (intros s' Hs'; apply Hsub; by right).
  reflexivity.
Qed.

(** A reconnect attempt that authenticates resets the attempt counter and
    sends one subscription request per active subscription. *)
Lemma quic_reconnect_replays (st : state) :
  exists st1,
    reconnectTimerFired Authenticated st =
      (st1, Emit ev_connected :: (SendSubscription <$> activeSubscriptions st))
    /\ reconnectAttempts st1 = 0
    /\ activeSubscriptions st1 = activeSubscriptions st.
Proof.
  unfold reconnectTimerFired. cbn [connect].
  rewrite resubscribe_sends; [|reflexivity|reflexivity|done].
  eexists. split; [reflexivity|]. split; reflexivity.
Qed.

End QuicFacts.

(** ** WebSocket transport *)

Section WebSocketFacts.
Import WebSocketTransport.

Lemma for_each_app {A} (l1 l2 : list A) (body : A -> handler) (st : state) :
  for_each (l1 ++ l2) body st =
  let '(st1, e1) := for_each l1 body st in
  let '(st2, e2) := for_each l2 body st1 in
  (st2, e1 ++ e2).
Proof.
  revert st. induction l1 as [|x l1 IH]; intros st; cbn [for_each app].
  - destruct (for_each l2 body st). reflexivity.
  - unfold seq_h. destruct (body x st) as [sx ex].
    rewrite IH. destruct (for_each l1 body sx) as [s1 e1].
    destruct (for_each l2 body s1) as [s2 e2].
    by rewrite app_assoc.
Qed.

Lemma run_app (a1 a2 : list action) (st : state) :
  run (a1 ++ a2) st =
  let '(st1, e1) := run a1 st in
  let '(st2, e2) := run a2 st1 in
  (st2, e1 ++ e2).
Proof. apply for_each_app. Qed.

(** *** Reconnection *)

Lemma reconnectDelay_first : reconnectDelay 0 = 1000.
Proof. reflexivity. Qed.

Lemma reconnectDelay_capped (n : Z) : reconnectDelay n <= 30000.
Proof. unfold reconnectDelay. lia. Qed.

Lemma reconnectDelay_doubles (n : Z) :
  0 <= n -> 1000 * 2 ^ (n + 1) <= 30000 ->
  reconnectDelay (n + 1) = 2 * reconnectDelay n.
Proof.
  intros Hn Hcap. unfold reconnectDelay.
  rewrite Z.pow_add_r in * by lia. change (2 ^ 1) with 2 in *. lia.
Qed.

Lemma reconnectDelay_mono (n m : Z) :
  0 <= n <= m -> reconnectDelay n <= reconnectDelay m.
Proof.
  intros H. unfold reconnectDelay.
  assert (2 ^ n <= 2 ^ m) by (apply Z.pow_le_mono_r; lia). lia.
Qed.

Lemma scheduleReconnect_arms (st : state) :
  reconnecting st = false -> reconnectAttempts st < maxReconnectAttempts ->
  scheduleReconnect st =
  (set_reconnectTimer (Some (reconnectDelay (reconnectAttempts st)))
     (set_reconnectAttempts (reconnectAttempts st + 1)
        (set_reconnecting true st)),
   [SetTimeout ReconnectTimer (reconnectDelay (reconnectAttempts st))]).
Proof.
  intros Hr Hlt. unfold scheduleReconnect. rewrite Hr.
  destruct (Z.leb_spec maxReconnectAttempts (reconnectAttempts st)); [lia|].
  reflexivity.
Qed.

Lemma scheduleReconnect_exhausted (st : state) :
  maxReconnectAttempts <= reconnectAttempts st ->
  scheduleReconnect st = (st, []).
Proof.
  intros Hge. unfold scheduleReconnect.
  destruct (Z.leb_spec maxReconnectAttempts (reconnectAttempts st)); [|lia].
  by rewrite orb_true_r.
Qed.

Lemma failed_attempts_cons (e : option string) (es : list (option string)) :
  failed_attempts (e :: es) = failed_attempt e ++ failed_attempts es.
Proof. reflexivity. Qed.

(** One failed attempt below the limit arms the next timer. *)
Lemma failed_attempt_rearms (err : option string) (k d : Z) :
  1 <= k <= 9 ->
  exists effs,
    run (failed_attempt err) (awaiting_reconnect k d) =
      (awaiting_reconnect (k + 1) (reconnectDelay k), effs) /\
    reconnect_delays effs = [reconnectDelay k] /\
    error_events effs = SlipstreamError.connection <$> option_list err.
Proof.
  intros Hk.
  assert (Hcases : k = 1 \/ k = 2 \/ k = 3 \/ k = 4 \/ k = 5 \/ k = 6 \/
                   k = 7 \/ k = 8 \/ k = 9) by lia.
  destruct err as [m|];
    repeat (destruct Hcases as [-> | Hcases]; [eexists; repeat split|]);
    subst; eexists; repeat split.
Qed.

Lemma failed_attempt_gives_up (err : option string) (d : Z) :
  exists effs,
    run (failed_attempt err) (awaiting_reconnect 10 d) =
      (set_reconnecting false (awaiting_reconnect 10 d), effs) /\
    reconnect_delays effs = [] /\
    error_events effs = SlipstreamError.connection <$> option_list err.
Proof. destruct err; eexists; repeat split. Qed.

Lemma failed_attempts_rearm (errs : list (option string)) (k d : Z) :
  1 <= k -> k + Z.of_nat (length errs) <= 10 ->
  exists d' effs,
    run (failed_attempts errs) (awaiting_reconnect k d) =
      (awaiting_reconnect (k + Z.of_nat (length errs)) d', effs) /\
    reconnect_delays effs = reconnectDelay <$> seqZ k (Z.of_nat (length errs)) /\
    error_events effs = SlipstreamError.connection <$> omap id errs.
Proof.
  revert k d. induction errs as [|e errs IH]; intros k d Hk Hlen.
  - exists d, []. cbn. rewrite Z.add_0_r. done.
  - cbn [length] in *. rewrite failed_attempts_cons, run_app.
    replace (k + Z.of_nat (S (length errs)))
      with (k + 1 + Z.of_nat (length errs)) by lia.
    destruct (failed_attempt_rearms e k d) as (e1 & -> & Hd1 & He1); [lia|].
    destruct (IH (k + 1) (reconnectDelay k)) as (d' & e2 & -> & Hd2 & He2);
      [lia | lia |].
    exists d', (e1 ++ e2). split; [reflexivity|].
    unfold reconnect_delays, error_events in *.
    rewrite !omap_app, Hd1, He1, Hd2, He2. split.
    + rewrite Nat2Z.inj_succ, (seqZ_cons k) by lia.
      rewrite Z.pred_succ. replace (Z.succ k) with (k + 1) by lia.
      reflexivity.
    + destruct e; reflexivity.
Qed.

Lemma failed_attempts_app (es1 es2 : list (option string)) :
  failed_attempts (es1 ++ es2) = failed_attempts es1 ++ failed_attempts es2.
Proof.
  induction es1 as [|e es1 IH]; [reflexivity|].
  cbn [app]. rewrite !failed_attempts_cons, IH. by rewrite app_assoc.
Qed.

Lemma connection_lost_state :
  run connection_lost init =
  (awaiting_reconnect 1 1000,
   [OpenSocket; Send connect_msg; SetInterval 30000; Emit ev_connected;
    ResolveConnect; ClearInterval; Emit ev_disconnected;
    SetTimeout ReconnectTimer 1000]).
Proof. reflexivity. Qed.

(** C2 (defect): a WebSocket transport that loses its connection and then
    fails ten reconnect attempts in a row, each with or without a socket
    error, arms its timers with 1s, 2s, 4s, 8s, 16s and then 30s, and
    after the tenth failure stops: [scheduleReconnect] returns without
    arming a timer and without emitting anything.  The only ['error']
    events of the whole run are the socket errors of the attempts
    themselves; no terminal error is emitted. *)
Theorem C2_websocket_reconnect_exhaustion_is_silent
    (errs : list (option string)) :
  length errs = 10%nat ->
  let r := run (connection_lost ++ failed_attempts errs) init in
  reconnect_delays (snd r) =
    [1000; 2000; 4000; 8000; 16000; 30000; 30000; 30000; 30000; 30000] /\
  reconnectAttempts (fst r) = 10 /\
  reconnecting (fst r) = false /\
  scheduleReconnect (fst r) = (fst r, []) /\
  error_events (snd r) = SlipstreamError.connection <$> omap id errs.
Proof.
  intros Hlen r. subst r.
  destruct (nil_or_length_pos errs) as [->|Hpos]; [discriminate|].
  destruct (exists_last (l := errs)) as (errs9 & e10 & ->);
    [intros ->; cbn in Hpos; lia|].
  rewrite length_app in Hlen. cbn [length] in Hlen.
  rewrite failed_attempts_app, run_app, connection_lost_state.
  cbv beta iota. rewrite run_app.
  destruct (failed_attempts_rearm errs9 1 1000) as (d' & e1 & -> & Hd1 & He1);
    [lia | lia |].
  cbv beta iota.
  replace (1 + Z.of_nat (length errs9)) with 10 by lia.
  replace (failed_attempts [e10]) with (failed_attempt e10)
    by (unfold failed_attempts; cbn; by rewrite app_nil_r).
  destruct (failed_attempt_gives_up e10 d') as (e2 & -> & Hd2 & He2).
  cbv beta iota. cbn [fst snd].
  unfold reconnect_delays, error_events in *.
  rewrite !omap_app, Hd1, He1, Hd2, He2.
  replace (Z.of_nat (length errs9)) with 9 by lia.
  repeat split.
  rewrite fmap_app. destruct e10; reflexivity.
Qed.

(** Ten attempts that close without a socket error: no ['error'] event at
    all. *)
Lemma C2_websocket_reconnect_exhaustion_witness :
  error_events
    (snd (run (connection_lost ++ failed_attempts (replicate 10 None)) init))
  = [].
Proof.
  exact (proj2 (proj2 (proj2 (proj2
    (C2_websocket_reconnect_exhaustion_is_silent (replicate 10 None)
       eq_refl))))).
Defined.

(** *** Subscriptions *)

Lemma for_each_invariant {A} (P : state -> Prop) (l : list A)
    (body : A -> handler) (st : state) :
  (forall x s, P s -> P (fst (body x s))) ->
  P st -> P (fst (for_each l body st)).
Proof.
  intros Hbody. revert st. induction l as [|x l IH]; intros st HP; [done|].
  cbn [for_each]. unfold seq_h.
  specialize (Hbody x st HP). destruct (body x st) as [s1 e1].
  specialize (IH s1 Hbody). destruct (for_each l body s1). exact IH.
Qed.






(** Which actions touch the subscription set, and how. *)
Lemma subscribedStreams_step (a : action) (st : state) :
  subscribedStreams (fst (step a st)) =
  match a with
  | call_subscribe s => set_add s (subscribedStreams st)
  | call_unsubscribe s => set_delete s (subscribedStreams st)
  | _ => subscribedStreams st
  end.
Proof.
  destruct a; cbn [step].
  - reflexivity.
  - unfold disconnect, seq_h, stopHeartbeat.
    repeat (case_match; simplify_eq/=); reflexivity.
  - unfold subscribeStream, seq_h, when, sendMessage.
    repeat (case_match; simplify_eq/=); reflexivity.
  - unfold unsubscribe, seq_h, when, sendMessage.
    repeat (case_match; simplify_eq/=); reflexivity.
  - unfold or_throw, ping, seq_h, sendMessage.
    repeat (case_match; simplify_eq/=); reflexivity.
  - unfold or_throw, submitTransaction, seq_h, sendMessage.
    repeat (case_match; simplify_eq/=); reflexivity.
  - unfold onOpen, sendMessage. case_match; reflexivity.
  - unfold onMessage.
    destruct (negb (connectionResolved st) && is_connected_msg msg).
    + unfold seq_h, startHeartbeat, stopHeartbeat, seq_h.
      repeat (case_match; simplify_eq/=).
      * match goal with
        | H : for_each ?l ?b ?s = _ |- _ =>
            pose proof (for_each_invariant
              (fun s' => subscribedStreams s' = subscribedStreams st)
              l b s) as Hinv; rewrite H in Hinv
        end.
        apply Hinv; [|reflexivity].
        intros x s0 Hs0. unfold sendMessage. by case_match.
      * match goal with
        | H : for_each ?l ?b ?s = _ |- _ =>
            pose proof (for_each_invariant
              (fun s' => subscribedStreams s' = subscribedStreams st)
              l b s) as Hinv; rewrite H in Hinv
        end.
        apply Hinv; [|reflexivity].
        intros x s0 Hs0. unfold sendMessage. by case_match.
    + unfold handleMessage, seq_h, emit, sendMessage.
      repeat (case_match; simplify_eq/=); reflexivity.
  - unfold onError, seq_h, emit.
    repeat (case_match; simplify_eq/=); reflexivity.
  - unfold onClose, seq_h, when, emit, stopHeartbeat, scheduleReconnect.
    repeat (case_match; simplify_eq/=);
      match goal with
      | H : for_each ?l ?b ?s = _ |- _ =>
          pose proof (for_each_invariant
            (fun s' => subscribedStreams s' = subscribedStreams st)
            l b s) as Hinv; rewrite H in Hinv
      end;
      (apply Hinv; [intros x s0 Hs0; exact Hs0 | reflexivity]).
  - reflexivity.
  - unfold pingTimeout. case_match; reflexivity.
  - unfold requestTimeout. case_match; reflexivity.
  - unfold heartbeatTick, ping, seq_h, sendMessage.
    repeat (case_match; simplify_eq/=); reflexivity.
Qed.



Lemma replay_sends (l : list string) (st : state) :
  ws st = true ->
  for_each l (fun stream => sendMessage (subscribe_msg stream)) st =
  (st, (fun stream => Send (subscribe_msg stream)) <$> l).
Proof.
  intros Hws. induction l as [|x l IH]; [reflexivity|].
  cbn [for_each]. unfold seq_h, sendMessage at 1. rewrite Hws, IH.
  reflexivity.
Qed.

Lemma sent_subscriptions_replay (l : list string) :
  sent_subscriptions ((fun stream => Send (subscribe_msg stream)) <$> l) = l.
Proof.
  induction l as [|x l IH]; [reflexivity|].
  unfold sent_subscriptions in *. cbn. by rewrite IH.
Qed.

(** The [connected] message of a pending [connect()] marks the transport
    connected and replays the subscription set, in insertion order. *)
Lemma onMessage_connected_replays (now : Z) (st : state) :
  ws st = true -> connectionResolved st = false ->
  connected (fst (onMessage connected_msg now st)) = true /\
  subscribedStreams (fst (onMessage connected_msg now st)) =
    subscribedStreams st /\
  sent_subscriptions (snd (onMessage connected_msg now st)) =
    subscribedStreams st.
Proof.
  intros Hws Hres. unfold onMessage. rewrite Hres. cbn [negb andb is_connected_msg].
  unfold seq_h.
  destruct (startHeartbeat _) as [s1 e1] eqn:Hhb.
  assert (Hs1 : ws s1 = true /\ connected s1 = true /\
                subscribedStreams s1 = subscribedStreams st /\
                sent_subscriptions e1 = []).
  { unfold startHeartbeat, seq_h, stopHeartbeat in Hhb. cbn in Hhb.
    destruct (heartbeatTimer st); cbn in Hhb; injection Hhb as <- <-;
      cbn; done. }
  destruct Hs1 as (Hws1 & Hc1 & Hsub1 & Hsent1).
  rewrite replay_sends by done.
  cbn [fst snd]. repeat split; [done..|].
  unfold sent_subscriptions in *. rewrite !omap_app, Hsent1.
  fold (sent_subscriptions ((λ stream, Send (subscribe_msg stream)) <$> subscribedStreams s1)).
  rewrite sent_subscriptions_replay, Hsub1. cbn. by rewrite app_nil_r.
Qed.

(** In particular after [connect()] has been called, by the owner or by the
    reconnect timer: the next [connected] message replays the set. *)
Lemma connect_then_connected_replays (now : Z) (st : state) :
  let st1 := fst (connect st) in
  sent_subscriptions (snd (onMessage connected_msg now st1)) =
    subscribedStreams st /\
  sent_subscriptions
    (snd (onMessage connected_msg now (fst (reconnectTimerFired st)))) =
    subscribedStreams st.
Proof.
  split.
  - by destruct (onMessage_connected_replays now (fst (connect st)))
      as (_ & _ & ->).
  - by destruct (onMessage_connected_replays now
                   (fst (reconnectTimerFired st))) as (_ & _ & ->).
Qed.



(** *** Time synchronisation *)

(** The integer offset the handler computes sits at most half a
    millisecond above the exact estimator. *)
Lemma floored_offset_vs_exact (remote send rtt : Z) :
  (inject_Z (remote - (send + rtt `div` 2)) ==
   spec_clockOffset remote send rtt + (rtt `mod` 2 # 2))%Q.
Proof.
  unfold spec_clockOffset.
  rewrite (Qmake_Qdiv (rtt `mod` 2) 2).
  rewrite (Z.div_mod rtt 2) at 2 by lia.
  unfold Z.sub.
  rewrite !inject_Z_plus, !inject_Z_opp, !inject_Z_plus, inject_Z_mult.
  change (inject_Z (Z.pos 2)) with 2%Q. change (inject_Z 2) with 2%Q.
  field.
Qed.

Lemma ping_records_send_time (now : Z) (st : state) :
  connected st = true ->
  exists st1 effs,
    ping now st = Js.Return (st1, effs) /\ pendingPing st1 = Some now.
Proof.
  intros Hc. unfold ping. rewrite Hc. cbn [negb].
  unfold seq_h, sendMessage. cbn.
  destruct (ws st); eexists _, _; split; reflexivity.
Qed.

(** C7 (as amended): a [pong] carrying a remote timestamp resolves the
    pending ping with [rttMs = now - clientSendTime] and
    [clockOffsetMs = remote - (clientSendTime + floor(rttMs / 2))].  This
    is the exact estimator of the specification plus half a millisecond
    when the round trip is odd, and the exact estimator when it is even.
    [ping()] records its call time as [clientSendTime] and is resolved by
    the same handler, hence with the same formula. *)
Theorem C7_clock_offset_floors_half_rtt
    (st : state) (seqn : option Z) (remote now : Z) :
  (forall clientSendTime, pendingPing st = Some clientSendTime ->
   exists r,
     handleMessage (pong seqn (Some remote)) now st =
       (set_pendingPing None st, [ResolvePing r]) /\
     rttMs r = now - clientSendTime /\
     clockOffsetMs r =
       remote - (clientSendTime + (now - clientSendTime) `div` 2) /\
     (inject_Z (clockOffsetMs r) ==
      spec_clockOffset remote clientSendTime (rttMs r)
      + ((rttMs r) `mod` 2 # 2))%Q /\
     (Z.even (rttMs r) = true ->
      (inject_Z (clockOffsetMs r) ==
       spec_clockOffset remote clientSendTime (rttMs r))%Q)) /\
  (forall t0, connected st = true ->
   exists st1 effs r,
     ping t0 st = Js.Return (st1, effs) /\
     ping_results (snd (handleMessage (pong seqn (Some remote)) now st1))
       = [r] /\
     rttMs r = now - t0 /\
     clockOffsetMs r = remote - (t0 + (now - t0) `div` 2)).
Proof.
  split.
  - intros clientSendTime Hping. eexists. cbn [handleMessage]. rewrite Hping.
    split; [reflexivity|]. cbn [rttMs clockOffsetMs default].
    split; [reflexivity|]. split; [reflexivity|]. split.
    + apply floored_offset_vs_exact.
    + intros Heven. rewrite floored_offset_vs_exact.
      rewrite Zmod_even, Heven. unfold Qeq. cbn. lia.
  - intros t0 Hc.
    destruct (ping_records_send_time t0 st Hc) as (st1 & effs & Hp & Hpend).
    eexists st1, effs, _. split; [exact Hp|].
    cbn [handleMessage]. rewrite Hpend. cbn. repeat split.
Qed.

(** A server clock behind the client: the offset is negative. *)
Lemma C7_clock_offset_witness :
  let st := fst (run [call_connect; socket_open;
                      socket_message connected_msg 0; call_ping 1000] init) in
  (pendingPing st = Some 1000 /\ connected st = true) /\
  exists r,
    handleMessage (pong (Some 0) (Some 900)) 1010 st =
      (set_pendingPing None st, [ResolvePing r]) /\
    rttMs r = 10 /\ clockOffsetMs r = -105.
Proof.
  intros st. split; [split; reflexivity|].
  destruct (proj1 (C7_clock_offset_floors_half_rtt st (Some 0) 900 1010)
              1000 eq_refl) as (r & Hr & Hrtt & Hoff & _).
  exists r. exact (conj Hr (conj Hrtt Hoff)).
Defined.

(** C7 as stated fails: with an odd round trip the offset of the code is
    not the exact estimator of the specification, 9 against 17/2. *)
Lemma C7_exact_half_rtt_counterexample :
  let st := fst (run [call_connect; socket_open;
                      socket_message connected_msg 0; call_ping 0] init) in
  ping_results (snd (handleMessage (pong (Some 0) (Some 10)) 3 st)) =
    [{| seq := 0; rttMs := 3; clockOffsetMs := 9; serverTime := 10 |}] /\
  ~ (inject_Z 9 == spec_clockOffset 10 0 3)%Q.
Proof. split; [reflexivity|]. intros H. discriminate H. Qed.

(** *** disconnect() *)

Lemma filter_all {A} (P : A -> Prop) `{!forall x, Decision (P x)}
    (l : list A) :
  (forall x, x ∈ l -> P x) -> filter P l = l.
Proof.
  induction l as [|x l IH]; intros Hall; [reflexivity|].
  rewrite filter_cons_True by (apply Hall; left).
  f_equal. apply IH. intros y Hy. apply Hall. by right.
Qed.

Lemma filter_none {A} (P : A -> Prop) `{!forall x, Decision (P x)}
    (l : list A) :
  (forall x, x ∈ l -> ~ P x) -> filter P l = [].
Proof.
  induction l as [|x l IH]; intros Hnone; [reflexivity|].
  rewrite filter_cons_False by (apply Hnone; left).
  apply IH. intros y Hy. apply Hnone. by right.
Qed.

Lemma reject_loop (l : list (requestId * Z)) (st : state) :
  exists st',
    for_each l
      (fun e st =>
         (set_pendingRequests (map_delete (fst e) (pendingRequests st)) st,
          [ClearTimeout (RequestTimer (fst e));
           RejectRequest (fst e)
             (SlipstreamError.connection "WebSocket closed")])) st
    = (st', l ≫= reject_on_close) /\
    pendingRequests st' =
      filter (fun e => fst e ∉ (fst <$> l)) (pendingRequests st) /\
    shouldReconnect st' = shouldReconnect st.
Proof.
  revert st. induction l as [|e l IH]; intros st.
  - exists st. repeat split. cbn.
    symmetry. apply filter_all. intros x _. apply not_elem_of_nil.
  - cbn [for_each]. unfold seq_h.
    destruct (IH (set_pendingRequests
                    (map_delete (fst e) (pendingRequests st)) st))
      as (st' & -> & Hp & Hs).
    exists st'. repeat split; [|done].
    rewrite Hp. cbn [pendingRequests set_pendingRequests].
    unfold map_delete. rewrite list_filter_filter.
    apply list_filter_iff. intros x. cbn. rewrite not_elem_of_cons. tauto.
Qed.

Lemma rejections_reject_loop (l : list (requestId * Z)) :
  rejections (l ≫= reject_on_close) =
  (fun e => (fst e, SlipstreamError.connection "WebSocket closed")) <$> l.
Proof.
  induction l as [|e l IH]; [reflexivity|].
  unfold rejections in *. cbn. by rewrite IH.
Qed.

Lemma reconnect_delays_reject_loop (l : list (requestId * Z)) :
  reconnect_delays (l ≫= reject_on_close) = [].
Proof.
  induction l as [|e l IH]; [reflexivity|].
  unfold reconnect_delays in *. cbn. by rewrite IH.
Qed.

(** What [disconnect()] has done when it returns. *)
Lemma disconnect_returns (st : state) :
  let r := disconnect st in
  shouldReconnect (fst r) = false /\
  reconnectTimer (fst r) = None /\
  heartbeatTimer (fst r) = false /\
  ws (fst r) = false /\
  connected (fst r) = false /\
  connectionResolved (fst r) = connectionResolved st /\
  pendingRequests (fst r) = pendingRequests st /\
  snd r =
    (if heartbeatTimer st then [ClearInterval] else []) ++
    (if reconnectTimer st is Some _ then [ClearTimeout ReconnectTimer] else []) ++
    (if ws st then [CloseSocket] else []).
Proof.
  unfold disconnect, seq_h, stopHeartbeat.
  destruct st as [w c rc ra [d|] [|] p n subs sr ps pp cr]; destruct w;
    cbn; repeat split.
Qed.

(** What the [close] event of the socket does after a [disconnect()]. *)
Lemma onClose_after_disconnect (st : state) :
  shouldReconnect st = false -> heartbeatTimer st = false ->
  exists st',
    onClose st =
      (st',
       [Emit ev_disconnected] ++
       (if connectionResolved st then []
        else [RejectConnect (SlipstreamError.connection
                               "WebSocket closed before connection")]) ++
       (pendingRequests st ≫= reject_on_close)) /\
    pendingRequests st' = [].
Proof.
  intros Hsr Hhb. unfold onClose, seq_h, stopHeartbeat, emit, when.
  cbn [heartbeatTimer set_connected]. rewrite Hhb.
  cbn [connectionResolved set_connected].
  destruct (connectionResolved st) eqn:Hcr; cbn [negb]; cbv beta iota.
  - destruct (reject_loop (pendingRequests (set_connected false st))
                (set_connected false st)) as (st' & Hloop & Hp & Hs).
    cbn [pendingRequests set_connected] in Hloop.
    cbn [pendingRequests set_connected]. rewrite Hloop.
    cbn [shouldReconnect set_connected] in Hs. rewrite Hs, Hsr.
    exists st'. split; [by rewrite app_nil_r|].
    rewrite Hp. apply filter_none. intros x Hx Hnot. apply Hnot.
    by apply list_elem_of_fmap_2.
  - destruct (reject_loop
                (pendingRequests
                   (set_connectionResolved true (set_connected false st)))
                (set_connectionResolved true (set_connected false st)))
      as (st' & Hloop & Hp & Hs).
    cbn [pendingRequests set_connected set_connectionResolved] in Hloop.
    cbn [pendingRequests set_connected set_connectionResolved].
    rewrite Hloop.
    cbn [shouldReconnect set_connected set_connectionResolved] in Hs.
    rewrite Hs, Hsr.
    exists st'. split; [by rewrite app_nil_r|].
    rewrite Hp. apply filter_none. intros x Hx Hnot. apply Hnot.
    by apply list_elem_of_fmap_2.
Qed.

(** C8 (as amended): [disconnect()] cancels the reconnect timer, stops the
    heartbeat, closes and drops the socket and marks the transport
    disconnected before it returns, but leaves the pending requests in
    place and rejects none; they are rejected, each with a CONNECTION
    error, when the [close] event of the socket is handled, and that
    handler arms no reconnect timer. *)
Theorem C8_disconnect_defers_rejections_to_close (st : state) :
  let r := disconnect st in
  (shouldReconnect (fst r) = false /\
   reconnectTimer (fst r) = None /\
   heartbeatTimer (fst r) = false /\
   ws (fst r) = false /\
   connected (fst r) = false) /\
  (is_Some (reconnectTimer st) -> ClearTimeout ReconnectTimer ∈ snd r) /\
  (heartbeatTimer st = true -> ClearInterval ∈ snd r) /\
  (ws st = true -> CloseSocket ∈ snd r) /\
  pendingRequests (fst r) = pendingRequests st /\
  rejections (snd r) = [] /\
  rejects_all_pending st (onClose (fst r)) /\
  reconnect_delays (snd (onClose (fst r))) = [].
Proof.
  intros r.
  destruct (disconnect_returns st)
    as (Hsr & Hrt & Hhb & Hws & Hc & Hcr & Hp & Heffs).
  fold r in Hsr, Hrt, Hhb, Hws, Hc, Hcr, Hp, Heffs.
  split; [done|].
  split; [intros [d Hd]; rewrite Heffs, Hd; set_solver|].
  split; [intros Hh; rewrite Heffs, Hh; set_solver|].
  split; [intros Hw; rewrite Heffs, Hw; set_solver|].
  split; [done|].
  split; [rewrite Heffs;
          by destruct (heartbeatTimer st), (reconnectTimer st), (ws st)|].
  destruct (onClose_after_disconnect (fst r) Hsr Hhb) as (st' & Hclose & Hp').
  rewrite Hclose. unfold rejects_all_pending. cbn [fst snd].
  split; [split; [done|]|].
  - intros id ms Hin. exists (SlipstreamError.connection "WebSocket closed").
    split; [|reflexivity].
    unfold rejections. rewrite !omap_app.
    apply elem_of_app. right. apply elem_of_app. right.
    fold (rejections (pendingRequests (fst r) ≫= reject_on_close)).
    rewrite rejections_reject_loop, Hp.
    apply (list_elem_of_fmap_2
             (fun e => (fst e, SlipstreamError.connection "WebSocket closed"))
             _ (id, ms) Hin).
  - unfold reconnect_delays. rewrite !omap_app.
    fold (reconnect_delays (pendingRequests (fst r) ≫= reject_on_close)).
    rewrite reconnect_delays_reject_loop.
    by destruct (connectionResolved (fst r)).
Qed.

(** One request in flight at the time of the call. *)
Lemma C8_disconnect_witness :
  let lost := fst (run connection_lost init) in
  let busy := fst (run [call_connect; socket_open;
                        socket_message connected_msg 0;
                        call_submitTransaction 5 None] init) in
  (is_Some (reconnectTimer lost) /\
   ClearTimeout ReconnectTimer ∈ snd (disconnect lost)) /\
  pendingRequests (fst (disconnect busy)) = [((1, 5), 30000)] /\
  rejects_all_pending busy (onClose (fst (disconnect busy))).
Proof.
  intros lost busy. split; [split; [by eexists|]|].
  - destruct (C8_disconnect_defers_rejections_to_close lost)
      as (_ & Hclear & _).
    apply Hclear. by eexists.
  - destruct (C8_disconnect_defers_rejections_to_close busy)
      as (_ & _ & _ & _ & Hp & _ & Hrej & _).
    exact (conj Hp Hrej).
Defined.

(** C8 as stated fails: a request in flight when [disconnect()] is
    called is still pending, and unrejected, when [disconnect()]
    returns. *)
Lemma C8_disconnect_leaves_pending_counterexample :
  let st := fst (run [call_connect; socket_open;
                      socket_message connected_msg 0;
                      call_submitTransaction 5 None] init) in
  connected st = true /\
  ~ rejects_all_pending st (disconnect st).
Proof.
  intros st. split; [reflexivity|]. intros [Hnone _]. discriminate Hnone.
Qed.
End WebSocketFacts.

(** ** Region router *)

Section MultiRegionFacts.
Import MultiRegion.

Lemma Qltb_true (a b : Q) : Qltb a b = true <-> (a < b)%Q.
Proof.
  unfold Qltb. rewrite negb_true_iff, <- not_true_iff_false, Qle_bool_iff.
  split; [apply Qnot_le_lt | apply Qlt_not_le].
Qed.

Lemma Qltb_false (a b : Q) : Qltb a b = false <-> ~ (a < b)%Q.
Proof. rewrite <- Qltb_true. symmetry. apply not_true_iff_false. Qed.

(** C5: a hint whose confidence is below [minSwitchConfidence], or that
    arrives less than [switchCooldownMs] after the last accepted switch,
    leaves the router as it is and emits nothing; a hint that passes both
    gates becomes the current routing (best region and fallback list
    taken from the hint, validity window of 1000 ms), restarts the
    cooldown, and is announced by one [routingUpdate] event. *)
Theorem C5_routing_switch_is_gated
    (cfg : MultiRegionConfig) (hint : Binary.LeaderHint) (now : Z)
    (st : state) :
  ((Binary.lh_confidence hint < minSwitchConfidence cfg)%Q \/
   now - lastSwitchTime st < switchCooldownMs cfg ->
   updateRoutingFromHint cfg hint now st = (st, [])) /\
  (~ (Binary.lh_confidence hint < minSwitchConfidence cfg)%Q ->
   switchCooldownMs cfg <= now - lastSwitchTime st ->
   exists r,
     updateRoutingFromHint cfg hint now st =
       ({| clients := clients st;
           workersByRegion := workersByRegion st;
           currentRouting := Some r;
           lastSwitchTime := now |},
        [routingUpdate r]) /\
     bestRegion r = Binary.preferredRegion hint /\
     fallbackRegions r = Binary.backupRegions hint /\
     validForMs r = 1000 /\
     confidence r = Binary.lh_confidence hint).
Proof.
  unfold updateRoutingFromHint. split.
  - intros [Hconf | Hcool].
    + apply Qltb_true in Hconf. rewrite Hconf.
      by destruct (now - lastSwitchTime st <? switchCooldownMs cfg).
    + apply Z.ltb_lt in Hcool. by rewrite Hcool.
  - intros Hconf Hcool.
    apply Qltb_false in Hconf. apply Z.ltb_ge in Hcool.
    rewrite Hconf, Hcool. eexists. split; [reflexivity|]. done.
Qed.

Lemma C5_routing_switch_witness :
  (exists r,
     updateRoutingFromHint demo_config demo_hint 6000 demo_state =
       ({| clients := clients demo_state;
           workersByRegion := workersByRegion demo_state;
           currentRouting := Some r;
           lastSwitchTime := 6000 |},
        [routingUpdate r]) /\
     bestRegion r = "eu-west"%string) /\
  updateRoutingFromHint demo_config demo_hint 4000 demo_state =
    (demo_state, []).
Proof.
  split.
  - destruct (proj2 (C5_routing_switch_is_gated demo_config demo_hint 6000
                       demo_state)) as (r & Hr & Hbest & _).
    + intros H. discriminate H.
    + cbn. lia.
    + exists r. exact (conj Hr Hbest).
  - apply (proj1 (C5_routing_switch_is_gated demo_config demo_hint 4000
                    demo_state)).
    right. cbn. lia.
Defined.

(** *** Broadcast *)

Lemma slice0_length {A} (l : list A) (n : Z) :
  0 <= n -> Z.of_nat (length (slice0 l n)) <= n.
Proof.
  intros Hn. unfold slice0.
  destruct (Z.ltb_spec n 0); [lia|]. rewrite length_take. lia.
Qed.

Lemma slice0_prefix {A} (l : list A) (n : Z) : slice0 l n `prefix_of` l.
Proof. unfold slice0. apply prefix_take. Qed.

Lemma slice0_take {A} (l : list A) (n : Z) :
  0 <= n -> slice0 l n = take (Z.to_nat n) l.
Proof.
  intros Hn. unfold slice0.
  destruct (Z.ltb_spec n 0); [lia|].
  destruct (Z.le_gt_cases n (Z.of_nat (length l))).
  - by rewrite Z.min_l by lia.
  - rewrite Z.min_r, Nat2Z.id by lia.
    rewrite !take_ge; [done | lia | lia].
Qed.

Import BroadcastOrder.

Section WithNetwork.
Context {World : Type}.
Variable connectClient :
  string -> World -> Js.completion SlipstreamError.t unit * World.
Variable clientSubmit :
  string -> SubmitOptions -> World ->
  Js.completion SlipstreamError.t TransactionResult * World.

(** Every attempt settles: one result per region. *)
Lemma settleAll_settles (regions : list string) (options : SubmitOptions)
    (st : state) (w : World) :
  exists results st' w',
    settleAll connectClient clientSubmit regions options st w =
      (Js.Return results, st', w') /\
    length results = length regions.
Proof.
  revert st w. induction regions as [|r rs IH]; intros st w.
  - by exists [], st, w.
  - cbn [settleAll].
    destruct (submitToRegion connectClient clientSubmit r options st w)
      as [[res st1] w1].
    destruct (IH st1 w1) as (results & st' & w' & -> & Hlen).
    exists (res :: results), st', w'. cbn. by rewrite Hlen.
Qed.

Lemma firstSettled_first_success
    (errs : list SlipstreamError.t) (v : TransactionResult)
    (rest : list (Js.completion SlipstreamError.t TransactionResult)) :
  firstSettled ((Js.Throw <$> errs) ++ Js.Return v :: rest) = Js.Return v.
Proof.
  unfold firstSettled. rewrite omap_app.
  replace (omap fulfilled (Js.Throw <$> errs))
    with (@nil TransactionResult)
    by (induction errs as [|? ? IH]; [done | exact IH]).
  reflexivity.
Qed.

Lemma firstSettled_all_failed
    (e : SlipstreamError.t) (errs : list SlipstreamError.t) :
  firstSettled (Js.Throw <$> (e :: errs)) = Js.Throw e.
Proof.
  unfold firstSettled.
  replace (omap fulfilled (Js.Throw <$> (e :: errs)))
    with (@nil TransactionResult); [reflexivity|].
  generalize (e :: errs). intros l.
  induction l as [|? ? IH]; [done | exact IH].
Qed.

(** [settleAll] makes the attempts, one [submitToRegion] per region in
    the order of the regions, and its results are their outcomes. *)
Lemma settleAll_attempts (regions : list string) (options : SubmitOptions)
    (st : state) (w : World) :
  exists results st' w',
    settleAll connectClient clientSubmit regions options st w =
      (Js.Return results, st', w') /\
    attempts connectClient clientSubmit options regions st w results st' w'.
Proof.
  revert st w. induction regions as [|r rs IH]; intros st w.
  - exists [], st, w. split; [reflexivity | constructor].
  - cbn [settleAll].
    destruct (submitToRegion connectClient clientSubmit r options st w)
      as [[res st1] w1] eqn:Hr.
    destruct (IH st1 w1) as (results & st' & w' & -> & Hatt).
    exists (res :: results), st', w'. split; [reflexivity|].
    by econstructor.
Qed.

Lemma attempts_settleAll (regions : list string) (options : SubmitOptions)
    (st : state) (w : World)
    (results : list (Js.completion SlipstreamError.t TransactionResult))
    (st' : state) (w' : World) :
  attempts connectClient clientSubmit options regions st w results st' w' ->
  settleAll connectClient clientSubmit regions options st w =
    (Js.Return results, st', w') /\
  length results = length regions.
Proof.
  induction 1 as [st w|r rs st w res st1 w1 results st2 w2 Hr _ [IH Hlen]].
  - done.
  - cbn [settleAll]. rewrite Hr, IH. cbn. by rewrite Hlen.
Qed.

(** C6 (as amended): a broadcast makes one attempt, a [submitToRegion],
    for each of the first [maxBroadcastRegions] regions of the worker map
    (for all of them when there are fewer) and settles when all the
    attempts have.  It resolves with the success of the first region, in
    the order of the worker map, whose attempt succeeded; when every
    attempt fails it rejects with the error of the first region, as it
    is; with no region at all it rejects with a TRANSACTION error. *)
Theorem C6_broadcast_resolves_first_success_else_first_failure
    (cfg : MultiRegionConfig) (options : SubmitOptions)
    (st : state) (w : World) :
  0 <= maxBroadcastRegions cfg ->
  let regions := getBroadcastRegions cfg st in
  regions = take (Z.to_nat (maxBroadcastRegions cfg))
                 (fst <$> workersByRegion st) /\
  Z.of_nat (length regions) <= maxBroadcastRegions cfg /\
  regions `prefix_of` (fst <$> workersByRegion st) /\
  exists results st' w',
    attempts connectClient clientSubmit options regions st w results st' w' /\
    length results = length regions /\
    (forall errs v rest,
       results = (Js.Throw <$> errs) ++ Js.Return v :: rest ->
       broadcastTransaction cfg connectClient clientSubmit options st w =
         (Js.Return v, st', w')) /\
    (forall e errs,
       results = Js.Throw <$> (e :: errs) ->
       broadcastTransaction cfg connectClient clientSubmit options st w =
         (Js.Throw e, st', w')) /\
    (results = [] ->
     broadcastTransaction cfg connectClient clientSubmit options st w =
       (Js.Throw (SlipstreamError.transaction "All broadcast regions failed"),
        st', w')).
Proof.
  intros Hmax regions. split; [|split; [|split]].
  - by apply slice0_take.
  - by apply slice0_length.
  - apply slice0_prefix.
  - destruct (settleAll_attempts regions options st w)
      as (results & st' & w' & Hsettle & Hatt).
    exists results, st', w'. split; [exact Hatt|].
    split; [by apply attempts_settleAll in Hatt as [_ ?]|].
    assert (Hb : broadcastTransaction cfg connectClient clientSubmit options
                   st w = (firstSettled results, st', w')).
    { unfold broadcastTransaction. fold regions. by rewrite Hsettle. }
    rewrite Hb. repeat split.
    + intros errs v rest ->. by rewrite firstSettled_first_success.
    + intros e errs ->. by rewrite firstSettled_all_failed.
    + intros ->. reflexivity.
Qed.

(** *** Routed submission *)

Lemma tryFallbacks_all_fail (err : SlipstreamError.t)
    (fallbacks : list string) (options : SubmitOptions)
    (st : state) (w : World) :
  fallbacksAllFail connectClient clientSubmit fallbacks options st w
    = true ->
  exists st' w',
    tryFallbacks connectClient clientSubmit err fallbacks options st w =
      (Js.Throw err, st', w').
Proof.
  revert st w. induction fallbacks as [|f rest IH]; intros st w Hall.
  - by exists st, w.
  - cbn [tryFallbacks fallbacksAllFail] in *.
    destruct (submitToRegion connectClient clientSubmit f options st w)
      as [[[v|e] st1] w1]; [discriminate|].
    by apply IH.
Qed.

(** A fallback region that succeeds ends the submission with its
    result. *)
Lemma tryFallbacks_some_succeeds (err : SlipstreamError.t)
    (fallbacks : list string) (options : SubmitOptions)
    (st : state) (w : World) :
  fallbacksAllFail connectClient clientSubmit fallbacks options st w
    = false ->
  exists v st' w',
    tryFallbacks connectClient clientSubmit err fallbacks options st w =
      (Js.Return v, st', w').
Proof.
  revert st w. induction fallbacks as [|f rest IH]; intros st w Hall.
  - discriminate.
  - cbn [tryFallbacks fallbacksAllFail] in *.
    destruct (submitToRegion connectClient clientSubmit f options st w)
      as [[[v|e] st1] w1]; [by exists v, st1, w1|].
    by apply IH.
Qed.

Lemma submitToRegion_keeps_routing (region : string)
    (options : SubmitOptions) (st : state) (w : World) :
  currentRouting
    (snd (fst (submitToRegion connectClient clientSubmit region options
                 st w))) = currentRouting st.
Proof.
  unfold submitToRegion, ensureRegionConnected.
  repeat (case_match; simplify_eq/=); reflexivity.
Qed.

(** C3 (as amended): when a routed submission fails at the best region
    and at every region of the fallback list, the error raised is the
    one of the first attempt, the attempt at the best region. *)
Theorem C3_routed_submission_rethrows_first_error
    (baseRegion : option string) (cfg : MultiRegionConfig)
    (options : SubmitOptions) (st : state) (w : World)
    (err : SlipstreamError.t) (st1 : state) (w1 : World) :
  broadcastMode options <> Some true ->
  let region := match currentRouting st with
                | Some r => bestRegion r
                | None => getDefaultRegion baseRegion st
                end in
  let fallbacks := match currentRouting st with
                   | Some r => fallbackRegions r
                   | None => []
                   end in
  submitToRegion connectClient clientSubmit region options st w =
    (Js.Throw err, st1, w1) ->
  fallbacksAllFail connectClient clientSubmit fallbacks options st1 w1
    = true ->
  exists st2 w2,
    submitTransactionWithOptions baseRegion cfg connectClient clientSubmit
      options st w = (Js.Throw err, st2, w2).
Proof.
  intros Hmode region fallbacks Hfirst Hall.
  unfold submitTransactionWithOptions, isHighPriority.
  rewrite bool_decide_eq_false_2 by done.
  rewrite andb_false_r. cbn [orb]. fold region. rewrite Hfirst.
  pose proof (submitToRegion_keeps_routing region options st w) as Hkeep.
  rewrite Hfirst in Hkeep. cbn [fst snd] in Hkeep. rewrite Hkeep.
  by apply tryFallbacks_all_fail.
Qed.

End WithNetwork.

Lemma C3_routed_submission_witness :
  exists st2 w2,
    submitTransactionWithOptions None demo_config demo_connect demo_submit
      {| broadcastMode := None |} demo_state [] =
    (Js.Throw (SlipstreamError.timeout 30000), st2, w2).
Proof.
  apply (C3_routed_submission_rethrows_first_error demo_connect demo_submit
           None demo_config {| broadcastMode := None |} demo_state []
           (SlipstreamError.timeout 30000) demo_state
           [SlipstreamError.timeout 30000]).
  - discriminate.
  - reflexivity.
  - reflexivity.
Defined.

(** C3 as stated fails: the best region times out, the only fallback
    region refuses the connection afterwards, and the submission raises
    the timeout, not the refusal that was met last. *)
Lemma C3_last_error_counterexample :
  let '(r, _, log) :=
    submitTransactionWithOptions None demo_config demo_connect demo_submit
      {| broadcastMode := None |} demo_state [] in
  last log = Some (SlipstreamError.connection "refused") /\
  r = Js.Throw (SlipstreamError.timeout 30000) /\
  r <> Js.Throw (SlipstreamError.connection "refused").
Proof. cbn. repeat split. discriminate. Qed.

Lemma C6_broadcast_witness :
  exists st' w',
    broadcastTransaction demo_config demo_connect eu_accepts
      {| broadcastMode := Some true |} demo_state [] =
    (Js.Return {| transactionId := "tx-eu-west" |}, st', w').
Proof.
  destruct (C6_broadcast_resolves_first_success_else_first_failure
              demo_connect eu_accepts demo_config
              {| broadcastMode := Some true |} demo_state [])
    as (_ & _ & _ & results & st' & w' & Hatt & _ & Hsucc & _ & _).
  - cbn. lia.
  - exists st', w'.
    apply (Hsucc [SlipstreamError.timeout 30000] _ []).
    apply attempts_settleAll in Hatt as [Hsettle _].
    vm_compute in Hsettle. by injection Hsettle as <- _ _.
Defined.

(** The wording of the specification read in time fails: both regions
    accept the transaction, [eu-west] after 10 ms and [us-east] after
    50 ms; the broadcast returns the result of [us-east], the first region
    of the worker map, and not the success that came first. *)
Lemma C6_first_success_in_time_counterexample :
  exists results st' log,
    settleAll timed_connect timed_submit
      (getBroadcastRegions demo_config demo_state)
      {| broadcastMode := Some true |} demo_state [] =
      (Js.Return results, st', log) /\
    log = [("us-east"%string, 50); ("eu-west"%string, 10)] /\
    broadcastTransaction demo_config timed_connect timed_submit
      {| broadcastMode := Some true |} demo_state [] =
      (Js.Return {| transactionId := "tx-us-east" |}, st', log) /\
    spec_firstSuccess (observed results log) =
      Some {| transactionId := "tx-eu-west" |} /\
    spec_firstSuccess (observed results log) <>
      Some {| transactionId := "tx-us-east" |}.
Proof. do 3 eexists. repeat split. discriminate. Qed.
End MultiRegionFacts.

(** ** Client metrics *)

Section ClientFacts.
Import Client.

(** The counters after one more submission. *)
Lemma submit_counts (o : outcome) (st : state) :
  0 <= txConfirmed st <= txSubmitted st ->
  0 <= txConfirmed (submitTransactionWithOptions o st)
    <= txSubmitted (submitTransactionWithOptions o st) /\
  txSubmitted (submitTransactionWithOptions o st) = txSubmitted st + 1.
Proof.
  intros Hinv. destruct o as [|status elapsed]; cbn; [lia|].
  destruct (counts_as_confirmed status); lia.
Qed.

Lemma fold_counts (os : list outcome) (st : state) :
  0 <= txConfirmed st <= txSubmitted st ->
  let st' := fold_left (fun st o => submitTransactionWithOptions o st) os st in
  0 <= txConfirmed st' <= txSubmitted st' /\
  txSubmitted st' = txSubmitted st + Z.of_nat (length os).
Proof.
  revert st. induction os as [|o os IH]; intros st Hinv; cbn [fold_left length].
  - lia.
  - destruct (submit_counts o st Hinv) as [Hinv' Hsub].
    destruct (IH _ Hinv') as [H1 H2]. split; [exact H1|].
    cbn zeta in H2. rewrite H2, Hsub. lia.
Qed.

Lemma ratio_bounds (c s : Z) :
  0 <= c <= s -> 0 < s ->
  (0 <= inject_Z c / inject_Z s <= 1)%Q.
Proof.
  intros Hc Hs. destruct s as [|p|p]; try lia.
  unfold Qdiv, Qmult, Qinv, inject_Z, Qle. cbn. lia.
Qed.

(** C10: after any sequence of submissions the confirmed count is between
    zero and the submitted count, which is the number of submissions; with
    no submission both ratios of [metrics()] are 0 by the guard, and in
    every state the success rate lies between 0 and 1. *)
Theorem C10_metrics_well_defined (os : list outcome) :
  let st := after os in
  let m := metrics st in
  (txSubmitted st = 0 ->
   averageLatencyMs m = 0%Q /\ successRate m = 0%Q) /\
  0 <= transactionsConfirmed m <= transactionsSubmitted m /\
  transactionsSubmitted m = Z.of_nat (length os) /\
  (0 <= successRate m <= 1)%Q.
Proof.
  intros st m.
  destruct (fold_counts os init) as [Hinv Hsub]; [cbn; lia|].
  fold (after os) in Hinv, Hsub. fold st in Hinv, Hsub. cbn in Hsub.
  split; [|split; [|split]].
  - intros H0. subst m. unfold metrics. cbn. rewrite H0. done.
  - exact Hinv.
  - exact Hsub.
  - subst m. unfold metrics. cbn [successRate].
    destruct (Z.ltb_spec 0 (txSubmitted st)).
    + by apply ratio_bounds.
    + split; [apply Qle_refl | discriminate].
Qed.

Lemma C10_metrics_witness :
  (txSubmitted (after []) = 0 ->
   averageLatencyMs (metrics (after [])) = 0%Q /\
   successRate (metrics (after [])) = 0%Q) /\
  (0 <= successRate (metrics (after [Returned Sent 12; Threw;
                                      Returned Failed 40])) <= 1)%Q.
Proof.
  split.
  - exact (proj1 (C10_metrics_well_defined [])).
  - exact (proj2 (proj2 (proj2 (C10_metrics_well_defined
             [Returned Sent 12; Threw; Returned Failed 40])))).
Defined.
End ClientFacts.

(** ** Binary codec: builders, pong, responses and base58 *)

Section FrameFacts.
Import Js Binary BinaryFrames.

Lemma byteZ_range (b : byte) : 0 <= byteZ b < 256.
Proof.
  unfold byteZ. pose proof (Byte.to_N_bounded b) as Hb.
  lia.
Qed.

Lemma byteZ_byte_of_Z (z : Z) : byteZ (byte_of_Z z) = z mod 256.
Proof.
  unfold byteZ, byte_of_Z.
  assert (Hr : 0 <= z mod 256 < 256) by (apply Z.mod_pos_bound; lia).
  destruct (Byte.of_N (Z.to_N (z mod 256))) as [y|] eqn:Hy.
  - apply Byte.to_of_N in Hy. simpl. rewrite Hy. lia.
  - apply Byte.of_N_None_iff in Hy. lia.
Qed.

Lemma be_value_snoc (bs : list byte) (b : byte) :
  be_value (bs ++ [b]) = be_value bs * 256 + byteZ b.
Proof. unfold be_value. by rewrite fold_left_app. Qed.

Lemma length_be_bytes (width : nat) (v : Z) :
  List.length (be_bytes width v) = width.
Proof.
  revert v. induction width as [|n IH]; intros v; [reflexivity|].
  cbn [be_bytes]. rewrite length_app, IH. cbn. lia.
Qed.

(** Reading back what was written. *)
Lemma be_value_be_bytes (width : nat) (v : Z) :
  0 <= v < 256 ^ Z.of_nat width -> be_value (be_bytes width v) = v.
Proof.
  revert v. induction width as [|n IH]; intros v Hv.
  - cbn in *. lia.
  - cbn [be_bytes]. rewrite be_value_snoc, byteZ_byte_of_Z, IH.
    + pose proof (Z.div_mod v 256). lia.
    + rewrite Nat2Z.inj_succ, Z.pow_succ_r in Hv by lia.
      split; [apply Z.div_pos; lia|].
      apply Z.div_lt_upper_bound; lia.
Qed.

Lemma readBE_at (width : nat) (pre post : list byte) (v : Z) :
  0 <= v < 256 ^ Z.of_nat width ->
  readBE width (pre ++ be_bytes width v ++ post)
    (Some (Z.of_nat (List.length pre))) = Return v.
Proof.
  intros Hv. unfold readBE.
  rewrite !length_app, length_be_bytes.
  destruct (Z.leb_spec 0 (Z.of_nat (List.length pre))); [|lia].
  destruct (Z.leb_spec (Z.of_nat (List.length pre) + Z.of_nat width)
              (Z.of_nat (List.length pre + (width + List.length post))));
    [|lia].
  cbn [andb]. rewrite Nat2Z.id, drop_app_length.
  rewrite take_app_length' by (symmetry; apply length_be_bytes).
  by rewrite be_value_be_bytes.
Qed.

Lemma index_at (pre post : list byte) (b : byte) :
  index (pre ++ b :: post) (Some (Z.of_nat (List.length pre))) =
  Some (byteZ b).
Proof.
  unfold index. destruct (Z.ltb_spec (Z.of_nat (List.length pre)) 0); [lia|].
  unfold Buffer. rewrite Nat2Z.id, list_lookup_middle by done. reflexivity.
Qed.

Lemma subarray_at (pre mid post : list byte) :
  subarray (pre ++ mid ++ post) (Some (Z.of_nat (List.length pre)))
    (Some (Z.of_nat (List.length pre) + Z.of_nat (List.length mid))) = mid.
Proof.
  unfold subarray, clamp. rewrite !length_app.
  destruct (Z.ltb_spec (Z.of_nat (List.length pre)) 0); [lia|].
  destruct (Z.ltb_spec
              (Z.of_nat (List.length pre) + Z.of_nat (List.length mid)) 0);
    [lia|].
  rewrite !Z.min_l by lia.
  replace (Z.of_nat (List.length pre) + Z.of_nat (List.length mid)
           - Z.of_nat (List.length pre)) with (Z.of_nat (List.length mid))
    by lia.
  rewrite !Nat2Z.id, drop_app_length. by rewrite take_app_length.
Qed.

(** [parsePongFrame] never throws: a buffer under 21 bytes is not a pong,
    any longer one decodes. *)
Theorem parsePongFrame_total (buf : Buffer) :
  ((List.length buf < 21)%nat -> parsePongFrame buf = Return None) /\
  ((21 <= List.length buf)%nat ->
   exists p, parsePongFrame buf = Return (Some p)).
Proof.
  unfold parsePongFrame. cbn [length ltb]. split; intros Hlen.
  - destruct (Z.ltb_spec (Z.of_nat (List.length buf)) 21); [done | lia].
  - destruct (Z.ltb_spec (Z.of_nat (List.length buf)) 21); [lia|].
    set (offset := if strict_eqb _ _ then _ else _).
    assert (Hoff : offset = Some 0 \/ offset = Some 1)
      by (subst offset; destruct (strict_eqb _ _); auto).
    unfold readUInt32BE, readBigUInt64BE.
    destruct Hoff as [-> | ->]; cbn [add ltb].
    + destruct (Z.ltb_spec (Z.of_nat (List.length buf)) (0 + 20)); [lia|].
      destruct (readBE_fits 4 buf 0) as [a ->]; [lia | lia |].
      destruct (readBE_fits 8 buf (0 + 4)) as [b ->]; [lia | lia |].
      destruct (readBE_fits 8 buf (0 + 12)) as [c ->]; [lia | lia |].
      cbn. eauto.
    + destruct (Z.ltb_spec (Z.of_nat (List.length buf)) (1 + 20)); [lia|].
      destruct (readBE_fits 4 buf 1) as [a ->]; [lia | lia |].
      destruct (readBE_fits 8 buf (1 + 4)) as [b ->]; [lia | lia |].
      destruct (readBE_fits 8 buf (1 + 12)) as [c ->]; [lia | lia |].
      cbn. eauto.
Qed.

Lemma parsePongFrame_total_witness :
  parsePongFrame (replicate 20 x08) = Return None /\
  exists p, parsePongFrame (replicate 21 x08) = Return (Some p).
Proof.
  split.
  - apply (proj1 (parsePongFrame_total (replicate 20 x08))). cbn. lia.
  - apply (proj2 (parsePongFrame_total (replicate 21 x08))). cbn. lia.
Defined.

Lemma buildPingFrame_layout (seq clientTime : Z) :
  0 <= seq < 2 ^ 32 -> 0 <= clientTime < 2 ^ 64 ->
  buildPingFrame seq clientTime =
  Return ([x08] ++ be_bytes 4 seq ++ be_bytes 8 clientTime).
Proof.
  intros Hseq Ht. unfold buildPingFrame, writeUInt32BE, writeBigUInt64BE.
  unfold writeBE.
  change (256 ^ Z.of_nat 4) with (2 ^ 32).
  change (256 ^ Z.of_nat 8) with (2 ^ 64).
  rewrite (proj2 (Z.leb_le 0 seq)), (proj2 (Z.ltb_lt seq (2 ^ 32))) by lia.
  cbn [andb bind].
  rewrite (proj2 (Z.leb_le 0 clientTime)),
    (proj2 (Z.ltb_lt clientTime (2 ^ 64))) by lia.
  reflexivity.
Qed.

(** The buffer [buildPingFrame] builds cannot hold a sequence number of
    more than 32 bits or a time outside 64 bits: the write throws. *)
Lemma buildPingFrame_out_of_range (seq clientTime : Z) :
  ~ (0 <= seq < 2 ^ 32 /\ 0 <= clientTime < 2 ^ 64) ->
  buildPingFrame seq clientTime = Throw RangeError.
Proof.
  intros Hbad. unfold buildPingFrame, writeUInt32BE, writeBigUInt64BE.
  unfold writeBE.
  change (256 ^ Z.of_nat 4) with (2 ^ 32).
  change (256 ^ Z.of_nat 8) with (2 ^ 64).
  destruct (Z.leb_spec 0 seq); cbn [andb bind]; [|reflexivity].
  destruct (Z.ltb_spec seq (2 ^ 32)); cbn [andb bind]; [|reflexivity].
  destruct (Z.leb_spec 0 clientTime); cbn [andb]; [|reflexivity].
  destruct (Z.ltb_spec clientTime (2 ^ 64)); cbn [andb]; [|reflexivity].
  lia.
Qed.

Lemma readBE_field (width : nat) (buf pre post : list byte) (v z : Z) :
  buf = pre ++ be_bytes width v ++ post ->
  z = Z.of_nat (List.length pre) ->
  0 <= v < 256 ^ Z.of_nat width ->
  readBE width buf (Some z) = Return v.
Proof. intros -> -> Hv. by apply readBE_at. Qed.

Lemma index_field (buf pre post : list byte) (b : byte) (z : Z) :
  buf = pre ++ b :: post -> z = Z.of_nat (List.length pre) ->
  index buf (Some z) = Some (byteZ b).
Proof. intros -> ->. apply index_at. Qed.

Lemma subarray_field (buf pre mid post : list byte) (s e : Z) :
  buf = pre ++ mid ++ post -> s = Z.of_nat (List.length pre) ->
  e = s + Z.of_nat (List.length mid) ->
  subarray buf (Some s) (Some e) = mid.
Proof. intros -> -> ->. apply subarray_at. Qed.

(** A ping frame with the server's time appended is a pong frame that
    decodes to the sequence number and the two times.  The times are
    non-negative safe integers, below 2^53, so that [BigInt] and [Number]
    convert them exactly. *)
Theorem ping_pong_round_trip (seq clientTime serverTime : Z) :
  0 <= seq < 2 ^ 32 -> 0 <= clientTime < 2 ^ 53 ->
  0 <= serverTime < 2 ^ 53 ->
  exists frame,
    buildPingFrame seq clientTime = Return frame /\
    List.length frame = 13%nat /\
    parsePongFrame (frame ++ be_bytes 8 serverTime) =
      Return (Some {| pong_seq := seq;
                      pong_clientSendTime := clientTime;
                      pong_serverTime := serverTime |}).
Proof.
  intros Hseq Ht53 Hs53.
  assert (Ht : 0 <= clientTime < 2 ^ 64).
  { change (2 ^ 53) with 9007199254740992 in Ht53.
    change (2 ^ 64) with 18446744073709551616. lia. }
  assert (Hs : 0 <= serverTime < 2 ^ 64).
  { change (2 ^ 53) with 9007199254740992 in Hs53.
    change (2 ^ 64) with 18446744073709551616. lia. }
  eexists. split; [by apply buildPingFrame_layout|].
  split; [by rewrite !length_app, !length_be_bytes|].
  set (buf := ([x08] ++ be_bytes 4 seq ++ be_bytes 8 clientTime)
              ++ be_bytes 8 serverTime).
  assert (Hlen : List.length buf = 21%nat)
    by (subst buf; by rewrite !length_app, !length_be_bytes).
  unfold parsePongFrame. unfold length. rewrite Hlen.
  change (ltb (Some (Z.of_nat 21)) (Some 21)) with false. cbv iota.
  change (index buf (Some 0)) with (Some (byteZ x08)).
  change (strict_eqb (Some (byteZ x08)) STREAM_TYPE.Ping) with true.
  cbv iota. cbn [add ltb].
  change (Z.of_nat 21 <? 1 + 20) with false. cbv iota.
  unfold readUInt32BE, readBigUInt64BE.
  rewrite (readBE_field 4 buf [x08]
             (be_bytes 8 clientTime ++ be_bytes 8 serverTime) seq 1);
    [|subst buf; by rewrite <- !app_assoc|reflexivity|cbn; lia].
  rewrite (readBE_field 8 buf ([x08] ++ be_bytes 4 seq)
             (be_bytes 8 serverTime) clientTime (1 + 4));
    [|subst buf; by rewrite <- !app_assoc
     |by rewrite length_app, length_be_bytes|cbn; lia].
  rewrite (readBE_field 8 buf
             ([x08] ++ be_bytes 4 seq ++ be_bytes 8 clientTime) []
             serverTime (1 + 12));
    [|subst buf; by rewrite app_nil_r
     |by rewrite !length_app, !length_be_bytes|cbn; lia].
  reflexivity.
Qed.

Lemma ping_pong_round_trip_witness :
  exists frame,
    buildPingFrame 7 1700000000000 = Return frame /\
    parsePongFrame (frame ++ be_bytes 8 1700000000123) =
      Return (Some {| pong_seq := 7;
                      pong_clientSendTime := 1700000000000;
                      pong_serverTime := 1700000000123 |}).
Proof.
  destruct (ping_pong_round_trip 7 1700000000000 1700000000123)
    as (frame & Hbuild & _ & Hparse); [lia | lia | lia |].
  exists frame. exact (conj Hbuild Hparse).
Defined.
End FrameFacts.

(** ** Binary codec: the leader hint decoder *)

Section DecoderFacts.
Import Js Binary BinaryFrames.

Ltac solve_len :=
  rewrite ?length_app, ?length_be_bytes; cbn [List.length]; lia.
Ltac solve_buf buf :=
  subst buf; repeat (rewrite <- app_assoc || cbn [app]); reflexivity.

Lemma byteZ_of_length (l : list byte) :
  (List.length l < 256)%nat ->
  byteZ (byte_of_Z (Z.of_nat (List.length l))) = Z.of_nat (List.length l).
Proof. intros Hl. rewrite byteZ_byte_of_Z. apply Z.mod_small. lia. Qed.

(** A tagged leader hint whose pubkey field is present (possibly empty)
    decodes to its fields.  The region and the pubkey are ASCII text, which
    [toString('utf-8')] renders byte for byte, and the timestamp is a safe
    integer, below 2^53, which [Number] converts exactly. *)
Theorem parseLeaderHint_decodes
    (region pubkey : list byte) (confidenceRaw slots ts : Z) :
  ascii_only region -> ascii_only pubkey ->
  (List.length region < 256)%nat -> (List.length pubkey < 256)%nat ->
  0 <= confidenceRaw < 2 ^ 16 -> 0 <= slots < 2 ^ 32 -> 0 <= ts < 2 ^ 53 ->
  parseLeaderHint
    ([x02] ++ [byte_of_Z (Z.of_nat (List.length region))] ++ region
     ++ be_bytes 2 confidenceRaw ++ be_bytes 4 slots
     ++ [byte_of_Z (Z.of_nat (List.length pubkey))] ++ pubkey
     ++ be_bytes 8 ts) =
  Return (Some {|
    lh_timestamp := ts;
    lh_slot := 0;
    expiresAtSlot := slots;
    preferredRegion := to_utf8 region;
    backupRegions := [];
    lh_confidence := (confidenceRaw # 100)%Q;
    leaderPubkey := match pubkey with
                    | [] => "unknown"
                    | _ => to_utf8 pubkey
                    end;
    metadata := {| tpuRttMs := 0;
                   regionScore := (confidenceRaw # 100)%Q |};
  |}).
Proof.
  intros _ _ Hr Hp Hc Hs Ht53.
  assert (Ht : 0 <= ts < 2 ^ 64).
  { change (2 ^ 53) with 9007199254740992 in Ht53.
    change (2 ^ 64) with 18446744073709551616. lia. }
  set (buf := [x02] ++ _).
  set (R := Z.of_nat (List.length region)).
  set (P := Z.of_nat (List.length pubkey)).
  assert (Hlen : Z.of_nat (List.length buf) = 2 + R + 6 + 1 + P + 8)
    by (subst buf R P; solve_len).
  unfold parseLeaderHint. unfold length. rewrite Hlen. cbn [ltb].
  rewrite (proj2 (Z.ltb_ge (2 + R + 6 + 1 + P + 8) 1)) by lia.
  rewrite (index_field buf [] ([byte_of_Z R] ++ region
             ++ be_bytes 2 confidenceRaw ++ be_bytes 4 slots
             ++ [byte_of_Z P] ++ pubkey ++ be_bytes 8 ts) x02 0);
    [|solve_buf buf|reflexivity].
  change (strict_eqb (Some (byteZ x02)) STREAM_TYPE.LeaderHints) with true.
  cbv iota. cbn [add ltb].
  rewrite (proj2 (Z.ltb_ge (2 + R + 6 + 1 + P + 8) (0 + 1 + 1))) by lia.
  rewrite (index_field buf [x02] (region
             ++ be_bytes 2 confidenceRaw ++ be_bytes 4 slots
             ++ [byte_of_Z P] ++ pubkey ++ be_bytes 8 ts) (byte_of_Z R)
             (0 + 1));
    [|solve_buf buf|reflexivity].
  subst R. rewrite byteZ_of_length by done.
  set (R := Z.of_nat (List.length region)). cbn [add].
  rewrite (subarray_field buf [x02; byte_of_Z R] region
             (be_bytes 2 confidenceRaw ++ be_bytes 4 slots
              ++ [byte_of_Z P] ++ pubkey ++ be_bytes 8 ts)
             (0 + 1 + 1) (0 + 1 + 1 + R));
    [|solve_buf buf|reflexivity|reflexivity].
  unfold readUInt16BE, readUInt32BE, readBigUInt64BE.
  rewrite (readBE_field 2 buf ([x02; byte_of_Z R] ++ region)
             (be_bytes 4 slots ++ [byte_of_Z P] ++ pubkey ++ be_bytes 8 ts)
             confidenceRaw (0 + 1 + 1 + R));
    [|solve_buf buf|subst R; solve_len|cbn; lia].
  cbn [bind].
  rewrite (readBE_field 4 buf
             ([x02; byte_of_Z R] ++ region ++ be_bytes 2 confidenceRaw)
             ([byte_of_Z P] ++ pubkey ++ be_bytes 8 ts)
             slots (0 + 1 + 1 + R + 2));
    [|solve_buf buf|subst R; solve_len|cbn; lia].
  cbn [bind gtb ltb].
  rewrite (proj2 (Z.ltb_lt (0 + 1 + 1 + R + 2 + 4) (2 + R + 6 + 1 + P + 8)))
    by lia.
  rewrite (index_field buf
             ([x02; byte_of_Z R] ++ region ++ be_bytes 2 confidenceRaw
              ++ be_bytes 4 slots)
             (pubkey ++ be_bytes 8 ts) (byte_of_Z P)
             (0 + 1 + 1 + R + 2 + 4));
    [|solve_buf buf|subst R; solve_len].
  subst P. rewrite byteZ_of_length by done.
  set (P := Z.of_nat (List.length pubkey)). cbn [ltb geb add].
  destruct (decide (pubkey = [])) as [Hpk|Hpk].
  - subst pubkey P. cbn [List.length]. change (Z.of_nat 0) with 0.
    change (0 <? 0) with false. cbn [andb]. cbv beta iota zeta.
    rewrite (readBE_field 8 buf
               ([x02; byte_of_Z R] ++ region ++ be_bytes 2 confidenceRaw
                ++ be_bytes 4 slots ++ [byte_of_Z 0]) []
               ts (0 + 1 + 1 + R + 2 + 4 + 1));
      [|subst buf; cbn [List.length]; change (Z.of_nat 0) with 0;
        repeat (rewrite <- app_assoc || cbn [app]); by rewrite app_nil_r
       |subst R; solve_len|cbn; lia].
    reflexivity.
  - assert (0 < P) by (subst P; destruct pubkey; [done | cbn; lia]).
    rewrite (proj2 (Z.ltb_lt 0 P)) by lia.
    rewrite (proj2 (Z.leb_le (0 + 1 + 1 + R + 2 + 4 + 1 + P)
                      (2 + R + 6 + 1 + P + 8))) by lia.
    cbn [andb]. cbv beta iota zeta.
    rewrite (subarray_field buf
               ([x02; byte_of_Z R] ++ region ++ be_bytes 2 confidenceRaw
                ++ be_bytes 4 slots ++ [byte_of_Z P]) pubkey
               (be_bytes 8 ts)
               (0 + 1 + 1 + R + 2 + 4 + 1) (0 + 1 + 1 + R + 2 + 4 + 1 + P));
      [|solve_buf buf|subst R; solve_len|reflexivity].
    rewrite (readBE_field 8 buf
               ([x02; byte_of_Z R] ++ region ++ be_bytes 2 confidenceRaw
                ++ be_bytes 4 slots ++ [byte_of_Z P] ++ pubkey) []
               ts (0 + 1 + 1 + R + 2 + 4 + 1 + P));
      [|subst buf; repeat (rewrite <- app_assoc || cbn [app]);
        by rewrite app_nil_r
       |subst R P; solve_len|cbn; lia].
    cbn [bind]. destruct pubkey; [done | reflexivity].
Qed.

Lemma parseLeaderHint_decodes_witness :
  exists hint,
    parseLeaderHint
      ([x02] ++ [byte_of_Z 2] ++ [x75; x73] ++ be_bytes 2 9050
       ++ be_bytes 4 3 ++ [byte_of_Z 0] ++ [] ++ be_bytes 8 1700000000000) =
      Return (Some hint) /\
    preferredRegion hint = "us"%string /\ lh_confidence hint = (9050 # 100)%Q.
Proof.
  eexists. split.
  - apply (parseLeaderHint_decodes [x75; x73] [] 9050 3 1700000000000);
      try (cbn; lia); unfold ascii_only; repeat constructor.
  - split; reflexivity.
Defined.

(** The layout of the function's own comment, which has no pubkey field,
    never decodes: the first byte of the timestamp is taken for the pubkey
    length and the timestamp read then runs past the end. *)
Theorem parseLeaderHint_throws_without_pubkey_field
    (region confidence slots ts : list byte) :
  (List.length region < 256)%nat ->
  List.length confidence = 2%nat -> List.length slots = 4%nat ->
  List.length ts = 8%nat ->
  parseLeaderHint
    ([x02] ++ [byte_of_Z (Z.of_nat (List.length region))] ++ region
     ++ confidence ++ slots ++ ts) = Throw RangeError.
Proof.
  intros Hr Hc Hs Ht.
  set (buf := [x02] ++ _).
  set (R := Z.of_nat (List.length region)).
  assert (Hlen : Z.of_nat (List.length buf) = 2 + R + 14)
    by (subst buf R; rewrite !length_app, Hc, Hs, Ht; cbn [List.length]; lia).
  unfold parseLeaderHint. unfold length. rewrite Hlen. cbn [ltb].
  rewrite (proj2 (Z.ltb_ge (2 + R + 14) 1)) by lia.
  rewrite (index_field buf [] ([byte_of_Z R] ++ region
             ++ confidence ++ slots ++ ts) x02 0);
    [|solve_buf buf|reflexivity].
  change (strict_eqb (Some (byteZ x02)) STREAM_TYPE.LeaderHints) with true.
  cbv iota. cbn [add ltb].
  rewrite (proj2 (Z.ltb_ge (2 + R + 14) (0 + 1 + 1))) by lia.
  rewrite (index_field buf [x02] (region ++ confidence ++ slots ++ ts)
             (byte_of_Z R) (0 + 1));
    [|solve_buf buf|reflexivity].
  subst R. rewrite byteZ_of_length by done.
  set (R := Z.of_nat (List.length region)). cbn [add].
  unfold readUInt16BE, readUInt32BE, readBigUInt64BE.
  destruct (readBE_fits 2 buf (0 + 1 + 1 + R)) as [c ->]; [lia | lia |].
  cbn [bind].
  destruct (readBE_fits 4 buf (0 + 1 + 1 + R + 2)) as [s ->]; [lia | lia |].
  cbn [bind gtb ltb].
  rewrite (proj2 (Z.ltb_lt (0 + 1 + 1 + R + 2 + 4) (2 + R + 14))) by lia.
  destruct ts as [|t0 ts']; [discriminate|].
  rewrite (index_field buf
             ([x02; byte_of_Z R] ++ region ++ confidence ++ slots)
             ts' t0 (0 + 1 + 1 + R + 2 + 4));
    [|solve_buf buf
     |subst R; rewrite !length_app, Hc, Hs; cbn [List.length]; lia].
  pose proof (byteZ_range t0) as Hp.
  cbn [ltb geb add].
  destruct (_ && _); cbv beta iota zeta.
  - rewrite readBE_short; [reflexivity | lia].
  - rewrite readBE_short; [reflexivity | lia].
Qed.

Lemma parseLeaderHint_throws_without_pubkey_witness :
  parseLeaderHint
    ([x02] ++ [byte_of_Z 2] ++ [x75; x73] ++ be_bytes 2 9050
     ++ be_bytes 4 3 ++ be_bytes 8 1700000000000) = Throw RangeError.
Proof.
  apply (parseLeaderHint_throws_without_pubkey_field [x75; x73]
           (be_bytes 2 9050) (be_bytes 4 3) (be_bytes 8 1700000000000));
    cbn; lia.
Defined.
End DecoderFacts.

(** ** Binary codec: base58 *)

Section Base58Facts.
Import Js Binary BinaryFrames.

Lemma to_int32_small (x : Z) :
  - 2147483648 <= x < 2147483648 -> to_int32 x = x.
Proof.
  intros Hx. unfold to_int32.
  change (2 ^ 31) with 2147483648. change (2 ^ 32) with 4294967296.
  rewrite Z.mod_small by lia. lia.
Qed.

Lemma digits_value_app (ds1 ds2 : list Z) :
  digits_value (ds1 ++ ds2) =
  digits_value ds1 + 58 ^ Z.of_nat (List.length ds1) * digits_value ds2.
Proof.
  induction ds1 as [|d ds1 IH]; cbn [app digits_value foldr List.length].
  - change (58 ^ Z.of_nat 0) with 1. fold (digits_value ds2). lia.
  - fold (digits_value (ds1 ++ ds2)). fold (digits_value ds1).
    rewrite IH, Nat2Z.inj_succ, Z.pow_succ_r by lia. lia.
Qed.

(** The inner loop multiplies the number by 256 and adds the carry. *)
Lemma mulAdd_spec (ds : list Z) (c : Z) :
  Forall is_digit58 ds -> 0 <= c <= 255 ->
  Forall is_digit58 (fst (mulAdd ds c)) /\
  List.length (fst (mulAdd ds c)) = List.length ds /\
  0 <= snd (mulAdd ds c) <= 255 /\
  digits_value (fst (mulAdd ds c))
  + 58 ^ Z.of_nat (List.length ds) * snd (mulAdd ds c)
  = 256 * digits_value ds + c.
Proof.
  intros Hds. revert c. induction Hds as [|d ds Hd Hds IH]; intros c Hc.
  - cbn. repeat split; [constructor | lia..].
  - cbn [mulAdd]. unfold is_digit58 in Hd.
    assert (Hshl : shl d 8 = d * 256)
      by (unfold shl; change (2 ^ 8) with 256; apply to_int32_small; lia).
    rewrite Hshl.
    set (carry := c + d * 256).
    assert (Hcarry : 0 <= carry <= 14847) by (subst carry; lia).
    rewrite Z.rem_mod_nonneg, Z.quot_div_nonneg by lia.
    assert (Hq : 0 <= carry / 58 <= 255).
    { split; [apply Z.div_pos; lia|].
      apply Z.lt_succ_r. apply Z.div_lt_upper_bound; lia. }
    rewrite to_int32_small by lia.
    specialize (IH (carry / 58) Hq).
    destruct (mulAdd ds (carry / 58)) as [ds' c'].
    cbn [fst snd] in *. destruct IH as (IH1 & IH2 & IH3 & IH4).
    repeat split.
    + constructor; [|done]. unfold is_digit58. apply Z.mod_pos_bound. lia.
    + cbn [List.length]. by rewrite IH2.
    + lia.
    + lia.
    + cbn [digits_value foldr List.length].
      fold (digits_value ds'). fold (digits_value ds).
      rewrite Nat2Z.inj_succ, Z.pow_succ_r by lia.
      pose proof (Z.div_mod carry 58). subst carry. lia.
Qed.

(** The [while] loop, given the carry as fuel, runs to completion and
    pushes the base-58 digits of the carry. *)
Lemma pushCarry_spec (fuel : nat) (c : Z) :
  0 <= c <= Z.of_nat fuel -> c < 2147483648 ->
  snd (pushCarry fuel c) = 0 /\
  Forall is_digit58 (fst (pushCarry fuel c)) /\
  digits_value (fst (pushCarry fuel c)) = c.
Proof.
  revert c. induction fuel as [|fuel IH]; intros c Hc Hlt.
  - cbn. repeat split; [lia | constructor | lia].
  - cbn [pushCarry]. destruct (Z.ltb_spec 0 c) as [Hpos|Hzero].
    + rewrite Z.quot_div_nonneg by lia.
      assert (Hq : 0 <= c / 58 < c).
      { split; [apply Z.div_pos; lia | apply Z.div_lt; lia]. }
      rewrite to_int32_small by lia.
      destruct (IH (c / 58)) as (IH1 & IH2 & IH3); [lia | lia |].
      destruct (pushCarry fuel (c / 58)) as [ds c'].
      cbn [fst snd] in *. rewrite Z.rem_mod_nonneg by lia.
      repeat split; [done | |].
      * constructor; [|done]. unfold is_digit58.
        apply Z.mod_pos_bound. lia.
      * cbn [digits_value foldr]. fold (digits_value ds).
        pose proof (Z.div_mod c 58). lia.
    + cbn. repeat split; [lia | constructor | lia].
Qed.

Lemma addByte_spec (ds : list Z) (b : byte) :
  Forall is_digit58 ds ->
  Forall is_digit58 (addByte ds b) /\
  digits_value (addByte ds b) = 256 * digits_value ds + byteZ b.
Proof.
  intros Hds. unfold addByte.
  pose proof (byteZ_range b) as Hb.
  destruct (mulAdd_spec ds (byteZ b) Hds) as (H1 & H2 & H3 & H4); [lia|].
  destruct (mulAdd ds (byteZ b)) as [ds' c]. cbn [fst snd] in *.
  destruct (pushCarry_spec (Z.to_nat c) c) as (P1 & P2 & P3); [lia | lia |].
  split; [by apply Forall_app|].
  rewrite digits_value_app, P3, H2. lia.
Qed.

Lemma fold_addByte_spec (bytes : list byte) (ds : list Z) :
  Forall is_digit58 ds ->
  Forall is_digit58 (fold_left addByte bytes ds) /\
  digits_value (fold_left addByte bytes ds) =
  fold_left (fun acc b => acc * 256 + byteZ b) bytes (digits_value ds).
Proof.
  revert ds. induction bytes as [|b bytes IH]; intros ds Hds; [done|].
  cbn [fold_left]. destruct (addByte_spec ds b Hds) as [H1 H2].
  destruct (IH _ H1) as [IH1 IH2]. split; [done|].
  rewrite IH2, H2. f_equal. lia.
Qed.

(** The digits [encodeBase58] computes are base-58 digits and stand for
    the number the bytes spell in base 256, big-endian. *)
Theorem base58_digits_represent_value (bytes : list byte) :
  Forall (fun d => 0 <= d < 58) (base58_digits bytes) /\
  digits_value (base58_digits bytes) = be_value bytes.
Proof.
  unfold base58_digits.
  destruct (fold_addByte_spec bytes [0]) as [H1 H2].
  - constructor; [unfold is_digit58; lia | constructor].
  - split; [exact H1 | exact H2].
Qed.

Lemma digits_value_nonneg (ds : list Z) :
  Forall is_digit58 ds -> 0 <= digits_value ds.
Proof.
  induction 1 as [|d ds Hd Hds IH]; cbn [digits_value foldr]; [lia|].
  fold (digits_value ds). unfold is_digit58 in Hd. lia.
Qed.

Lemma mulAdd_app (ds1 ds2 : list Z) (c : Z) :
  mulAdd (ds1 ++ ds2) c =
  (fst (mulAdd ds1 c) ++ fst (mulAdd ds2 (snd (mulAdd ds1 c))),
   snd (mulAdd ds2 (snd (mulAdd ds1 c)))).
Proof.
  revert c. induction ds1 as [|d ds1 IH]; intros c; cbn [app mulAdd].
  - cbn [fst snd app]. by destruct (mulAdd ds2 c).
  - rewrite IH. by destruct (mulAdd ds1 _).
Qed.

(** A positive carry leaves a positive most significant digit. *)
Lemma pushCarry_top (fuel : nat) (c : Z) :
  0 < c <= Z.of_nat fuel -> c < 2147483648 ->
  exists ds d, fst (pushCarry fuel c) = ds ++ [d] /\ 0 < d.
Proof.
  revert c. induction fuel as [|fuel IH]; intros c Hc Hlt; [lia|].
  cbn [pushCarry]. destruct (Z.ltb_spec 0 c) as [_|]; [|lia].
  rewrite Z.quot_div_nonneg, Z.rem_mod_nonneg by lia.
  assert (Hq : 0 <= c / 58 < c).
  { split; [apply Z.div_pos; lia | apply Z.div_lt; lia]. }
  rewrite to_int32_small by lia.
  destruct (Z.eq_dec (c / 58) 0) as [Hz|Hnz].
  - rewrite Hz.
    assert (Hnil : pushCarry fuel 0 = ([], 0)) by (by destruct fuel).
    rewrite Hnil. exists [], (c mod 58). split; [reflexivity|].
    pose proof (Z.div_mod c 58). lia.
  - destruct (IH (c / 58)) as (ds & d & Hds & Hd); [lia | lia |].
    destruct (pushCarry fuel (c / 58)) as [ds' c']. cbn [fst] in *.
    subst ds'. exists (c mod 58 :: ds), d. by split.
Qed.

(** The digit sequence is [0] or ends in a positive digit. *)
Lemma addByte_top (ds : list Z) (b : byte) :
  Forall is_digit58 ds ->
  ds = [0] \/ (exists ds' d, ds = ds' ++ [d] /\ 0 < d) ->
  addByte ds b = [0] /\ ds = [0] /\ byteZ b = 0 \/
  exists ds' d, addByte ds b = ds' ++ [d] /\ 0 < d.
Proof.
  intros Hds [->|(ds' & d & -> & Hd)].
  - pose proof (byteZ_range b) as Hb. unfold addByte. cbn [mulAdd].
    change (shl 0 8) with 0. rewrite Z.add_0_r.
    rewrite Z.rem_mod_nonneg, Z.quot_div_nonneg by lia.
    assert (Hq : 0 <= byteZ b / 58 <= 4).
    { split; [apply Z.div_pos; lia|].
      apply Z.lt_succ_r. apply Z.div_lt_upper_bound; lia. }
    rewrite to_int32_small by lia. cbn [fst snd].
    destruct (Z.eq_dec (byteZ b / 58) 0) as [Hz|Hnz].
    + rewrite Hz. cbn [Z.to_nat pushCarry fst app].
      destruct (Z.eq_dec (byteZ b) 0) as [Hb0|Hb0].
      * left. rewrite Hb0. by cbn.
      * right. exists [], (byteZ b mod 58). split; [reflexivity|].
        pose proof (Z.div_mod (byteZ b) 58). lia.
    + right.
      destruct (pushCarry_top (Z.to_nat (byteZ b / 58)) (byteZ b / 58))
        as (ps & p & Hps & Hp); [lia | lia |].
      rewrite Hps. exists (byteZ b mod 58 :: ps), p. by split.
  - right. unfold addByte. rewrite mulAdd_app.
    apply Forall_app in Hds as [Hds' Hd'].
    pose proof (byteZ_range b) as Hb.
    destruct (mulAdd_spec ds' (byteZ b) Hds') as (_ & _ & Hc1 & _); [lia|].
    set (c1 := snd (mulAdd ds' (byteZ b))) in *.
    rewrite Forall_singleton in Hd'. unfold is_digit58 in Hd'.
    cbn [mulAdd fst snd].
    assert (Hshl : shl d 8 = d * 256)
      by (unfold shl; change (2 ^ 8) with 256; apply to_int32_small; lia).
    rewrite Hshl.
    rewrite Z.rem_mod_nonneg, Z.quot_div_nonneg by lia.
    assert (Hq : 4 <= (c1 + d * 256) / 58 <= 255).
    { split; [apply Z.div_le_lower_bound; lia|].
      apply Z.lt_succ_r. apply Z.div_lt_upper_bound; lia. }
    rewrite to_int32_small by lia. cbn [fst snd].
    destruct (pushCarry_top (Z.to_nat ((c1 + d * 256) / 58))
                ((c1 + d * 256) / 58)) as (ps & p & Hps & Hp); [lia | lia |].
    rewrite Hps.
    exists (fst (mulAdd ds' (byteZ b)) ++ [(c1 + d * 256) mod 58] ++ ps), p.
    split; [by rewrite <- !app_assoc | done].
Qed.

Lemma fold_addByte_top (bytes : list byte) (ds : list Z) :
  Forall is_digit58 ds ->
  ds = [0] \/ (exists ds' d, ds = ds' ++ [d] /\ 0 < d) ->
  fold_left addByte bytes ds = [0] \/
  exists ds' d, fold_left addByte bytes ds = ds' ++ [d] /\ 0 < d.
Proof.
  revert ds. induction bytes as [|b bytes IH]; intros ds Hds Htop; [done|].
  cbn [fold_left]. apply IH; [by apply addByte_spec|].
  destruct (addByte_top ds b Hds Htop) as [(-> & _)|Hr]; auto.
Qed.

Lemma digits_value_top (ds : list Z) (d : Z) :
  Forall is_digit58 ds -> 0 < d -> 0 < digits_value (ds ++ [d]).
Proof.
  intros Hds Hd. rewrite digits_value_app.
  pose proof (digits_value_nonneg ds Hds).
  assert (0 < 58 ^ Z.of_nat (List.length ds)) by (apply Z.pow_pos_nonneg; lia).
  cbn [digits_value foldr]. nia.
Qed.

(** The digits are the canonical base-58 numeral of the value, with a
    positive leading digit, except that the value zero is written with
    one digit [0]. *)
Theorem base58_digits_canonical (bytes : list byte) :
  (be_value bytes = 0 -> base58_digits bytes = [0]) /\
  (0 < be_value bytes ->
   exists ds d, base58_digits bytes = ds ++ [d] /\ 0 < d).
Proof.
  assert (Hzero : Forall is_digit58 [0])
    by (constructor; [unfold is_digit58; lia | constructor]).
  destruct (fold_addByte_spec bytes [0] Hzero) as [Hdig Hval].
  change (fold_left _ bytes (digits_value [0])) with (be_value bytes) in Hval.
  destruct (fold_addByte_top bytes [0] Hzero (or_introl eq_refl))
    as [H0|(ds & d & Hds & Hd)]; fold (base58_digits bytes) in *.
  - split; [done|]. rewrite <- Hval, H0. cbn. lia.
  - split; [|by eauto].
    intros Hv. rewrite <- Hval, Hds in Hv.
    rewrite Hds in Hdig. apply Forall_app in Hdig as [Hdig _].
    pose proof (digits_value_top ds d Hdig Hd). lia.
Qed.

Lemma leadingZeros_zeros (n : nat) : leadingZeros (replicate n x00) = n.
Proof. induction n as [|n IH]; [reflexivity|]. cbn. by rewrite IH. Qed.

Lemma base58_digits_zeros (n : nat) : base58_digits (replicate n x00) = [0].
Proof.
  unfold base58_digits. induction n as [|n IH]; [reflexivity|].
  cbn [replicate fold_left]. exact IH.
Qed.

Lemma concat_ones_cons (n : nat) :
  String.concat "" (replicate (S n) "1"%string) =
  ("1" +:+ String.concat "" (replicate n "1"%string))%string.
Proof. by destruct n. Qed.

Lemma concat_ones_snoc (n : nat) :
  (String.concat "" (replicate n "1"%string) +:+ "1")%string =
  String.concat "" (replicate (S n) "1"%string).
Proof.
  induction n as [|n IH]; [reflexivity|].
  rewrite (concat_ones_cons n), (concat_ones_cons (S n)), <- IH.
  reflexivity.
Qed.

(** Zero bytes only, [n] of them, encode to [n + 1] characters ['1']: one
    for every byte and one more for the digit 0 the digit list starts
    with.  The empty input encodes to ['1']. *)
Theorem encodeBase58_zeros (n : nat) :
  encodeBase58 (replicate n x00) =
  String.concat "" (replicate (S n) "1"%string).
Proof.
  unfold encodeBase58. rewrite leadingZeros_zeros, base58_digits_zeros.
  cbn [rev app fold_left]. change (alphabetChar 0) with "1"%string.
  apply concat_ones_snoc.
Qed.
End Base58Facts.

(** ** Binary codec: transaction responses *)

Section ResponseFacts.
Import Js Binary BinaryFrames.

Lemma readBE_throws_iff (width : nat) (buf : Buffer) (z : Z) :
  0 <= z ->
  throws (readBE width buf (Some z)) = true <->
  Z.of_nat (List.length buf) < z + Z.of_nat width.
Proof.
  intros Hz. unfold readBE.
  destruct (Z.leb_spec 0 z); [|lia].
  destruct (Z.leb_spec (z + Z.of_nat width) (Z.of_nat (List.length buf)));
    cbn; split; (lia || done).
Qed.

Lemma throws_bind_return {E A B} (c : completion E A) (k : A -> B) :
  throws (bind c (fun x => Return (k x))) = throws c.
Proof. by destruct c. Qed.

(** [parseTransactionResponse] throws exactly when the fixed fields do
    not fit: the frame is shorter than 8 bytes, or its signature flag is
    set and it is shorter than 72 bytes.  A short error message never
    makes it throw. *)
Theorem parseTransactionResponse_throws_iff (buf : Buffer) (now : Z) :
  throws (parseTransactionResponse buf now) = true <->
  Z.of_nat (List.length buf)
  < (if truthy_num (index buf (Some 5)) then 72 else 8).
Proof.
  unfold parseTransactionResponse, readUInt32BE, readUInt16BE.
  destruct (readBE 4 buf (Some 0)) as [requestId|e] eqn:Hrid.
  - assert (H4 : 4 <= Z.of_nat (List.length buf)).
    { destruct (Z.le_gt_cases 4 (Z.of_nat (List.length buf))); [done|].
      rewrite readBE_short in Hrid by lia. done. }
    cbn [bind add].
    change (0 + 4 + 1) with 5. change (0 + 4 + 1 + 1) with 6.
    destruct (truthy_num (index buf (Some 5))).
    + rewrite throws_bind_return.
      change (6 + 64) with 70.
      rewrite readBE_throws_iff by lia. change (Z.of_nat 2) with 2. lia.
    + rewrite throws_bind_return.
      rewrite readBE_throws_iff by lia. change (Z.of_nat 2) with 2. lia.
  - cbn [bind throws].
    assert (H4 : Z.of_nat (List.length buf) < 4).
    { destruct (Z.le_gt_cases 4 (Z.of_nat (List.length buf))) as [Hle|]; [|lia].
      destruct (readBE_fits 4 buf 0) as [v Hv]; [lia | simpl; lia |].
      congruence. }
    assert (Hidx : index buf (Some 5) = None).
    { unfold index. change (5 <? 0) with false. cbv beta iota.
      unfold Buffer in *. rewrite lookup_ge_None_2; [done|]. lia. }
    rewrite Hidx. cbn. split; [lia | done].
Qed.
End ResponseFacts.

(** ** WebSocket transport: invariants of its runs *)

Section WebSocketRunFacts.
Import WebSocketTransport WebSocketRuns.

(** The replay loop sends one [subscribe] per stream when a socket is
    held and nothing otherwise; it leaves the state alone. *)
Lemma replay_loop (l : list string) (st : state) :
  for_each l (fun stream => sendMessage (subscribe_msg stream)) st =
  (st, if ws st then (fun stream => Send (subscribe_msg stream)) <$> l
       else []).
Proof.
  induction l as [|x l IH]; [by destruct (ws st)|].
  cbn [for_each]. unfold seq_h, sendMessage at 1.
  destruct (ws st) eqn:Hws; rewrite IH, ?Hws; reflexivity.
Qed.

(** The rejection loop of the close handler empties the map. *)
Lemma close_loop (l : list (requestId * Z)) (st : state) :
  for_each l
    (fun e st =>
       (set_pendingRequests (map_delete (fst e) (pendingRequests st)) st,
        [ClearTimeout (RequestTimer (fst e));
         RejectRequest (fst e)
           (SlipstreamError.connection "WebSocket closed")])) st
  = (set_pendingRequests
       (filter (fun e => fst e ∉ (fst <$> l)) (pendingRequests st)) st,
     l ≫= reject_on_close).
Proof.
  revert st. induction l as [|e l IH]; intros st.
  - cbn [for_each]. f_equal. rewrite filter_all.
    + by destruct st.
    + intros x _. apply not_elem_of_nil.
  - cbn [for_each]. unfold seq_h. rewrite IH. f_equal.
    unfold set_pendingRequests. cbn [ws connected reconnecting
      reconnectAttempts reconnectTimer heartbeatTimer pendingRequests
      requestIdCounter subscribedStreams shouldReconnect pingSeq pendingPing
      connectionResolved].
    f_equal. unfold map_delete. rewrite list_filter_filter.
    apply list_filter_iff. intros x. cbn. rewrite not_elem_of_cons. tauto.
Qed.

Lemma close_loop_all (st : state) :
  for_each (pendingRequests st)
    (fun e st =>
       (set_pendingRequests (map_delete (fst e) (pendingRequests st)) st,
        [ClearTimeout (RequestTimer (fst e));
         RejectRequest (fst e)
           (SlipstreamError.connection "WebSocket closed")])) st
  = (set_pendingRequests [] st, pendingRequests st ≫= reject_on_close).
Proof.
  rewrite close_loop. f_equal. f_equal.
  apply filter_none. intros x Hx Hnot. apply Hnot.
  by apply list_elem_of_fmap_2.
Qed.

(** The close handler, in one piece. *)
Lemma onClose_eq (st : state) :
  onClose st =
  (let st1 :=
     set_pendingRequests []
       (set_connectionResolved true
          (set_heartbeatTimer false (set_connected false st))) in
   if shouldReconnect st && negb (reconnecting st)
      && (reconnectAttempts st <? maxReconnectAttempts)
   then set_reconnectTimer (Some (reconnectDelay (reconnectAttempts st)))
          (set_reconnectAttempts (reconnectAttempts st + 1)
             (set_reconnecting true st1))
   else st1,
   (if heartbeatTimer st then [ClearInterval] else []) ++
   [Emit ev_disconnected] ++
   (if connectionResolved st then []
    else [RejectConnect (SlipstreamError.connection
                           "WebSocket closed before connection")]) ++
   (pendingRequests st ≫= reject_on_close) ++
   (if shouldReconnect st && negb (reconnecting st)
       && (reconnectAttempts st <? maxReconnectAttempts)
    then [SetTimeout ReconnectTimer (reconnectDelay (reconnectAttempts st))]
    else [])).
Proof.
  destruct st as [w c rc ra rt hb p n subs sr ps pp cr].
  unfold onClose, seq_h, stopHeartbeat, emit, when, scheduleReconnect,
    reconnectDelay.
  destruct hb, cr;
    cbn [negb heartbeatTimer set_connected connectionResolved
         set_heartbeatTimer set_connectionResolved];
    cbv beta iota;
    match goal with
    | |- context [for_each (pendingRequests ?s) ?b ?s] =>
        rewrite (close_loop_all s)
    end;
    cbn [shouldReconnect set_pendingRequests set_connectionResolved
         set_heartbeatTimer set_connected
         reconnecting reconnectAttempts pendingRequests];
    destruct sr, rc; cbn [orb andb negb];
    rewrite ?Z.ltb_antisym;
    destruct (maxReconnectAttempts <=? ra); cbn [negb];
    rewrite ?app_nil_r; reflexivity.
Qed.

(** The [connected] message of a pending [connect()], in one piece. *)
Lemma onMessage_connected_eq (now : Z) (st : state) :
  connectionResolved st = false ->
  onMessage connected_msg now st =
  (set_heartbeatTimer true
     (set_reconnectAttempts 0
        (set_connected true (set_connectionResolved true st))),
   (if heartbeatTimer st then [ClearInterval] else []) ++
   [SetInterval 30000] ++
   (if ws st
    then (fun stream => Send (subscribe_msg stream)) <$> subscribedStreams st
    else []) ++
   [Emit ev_connected; ResolveConnect]).
Proof.
  intros Hcr. destruct st as [w c rc ra rt hb p n subs sr ps pp cr].
  cbn in Hcr. subst cr.
  unfold onMessage, seq_h, startHeartbeat, stopHeartbeat, seq_h.
  cbn [connectionResolved negb andb is_connected_msg].
  destruct hb;
    cbn [heartbeatTimer set_connected set_connectionResolved
         set_reconnectAttempts set_heartbeatTimer];
    cbv beta iota;
    match goal with
    | |- context [for_each ?l ?b ?s] => rewrite (replay_loop l s)
    end;
    cbn [ws subscribedStreams set_heartbeatTimer]; reflexivity.
Qed.

Lemma onMessage_other (msg : WsServerMessage) (now : Z) (st : state) :
  negb (connectionResolved st) && is_connected_msg msg = false ->
  onMessage msg now st = handleMessage msg now st.
Proof. intros H. unfold onMessage. by rewrite H. Qed.

Lemma reconnect_delays_app (e1 e2 : list effect) :
  reconnect_delays (e1 ++ e2) = reconnect_delays e1 ++ reconnect_delays e2.
Proof. apply omap_app. Qed.

Lemma reconnect_delays_sends (l : list string) :
  reconnect_delays ((fun stream => Send (subscribe_msg stream)) <$> l) = [].
Proof. induction l as [|x l IH]; [reflexivity | exact IH]. Qed.

Ltac ws_unfold :=
  unfold connect, disconnect, subscribeStream, unsubscribe, or_throw, ping,
    submitTransaction, onOpen, onError, reconnectTimerFired, pingTimeout,
    requestTimeout, heartbeatTick, handleMessage, connect, seq_h, when, emit,
    sendMessage, stopHeartbeat, ping, seq_h, sendMessage.

Ltac ws_step_cases a st :=
  destruct a as [| |?s|?s|?now|?now ?t| |?msg ?now|?m| | | |?id|?now];
  cbn [step];
  [ | | | | | | | 
    destruct (negb (connectionResolved st) && is_connected_msg msg) eqn:?Hc;
    [ destruct msg; try (by rewrite andb_false_r in Hc);
      rewrite onMessage_connected_eq by (by destruct (connectionResolved st))
    | rewrite onMessage_other by done ]
  | | rewrite onClose_eq; cbv zeta | | | | ];
  ws_unfold.

(** Once reconnection is switched off no action switches it on again or
    arms a reconnect timer. *)
Lemma step_reconnect_off (a : action) (st : state) :
  shouldReconnect st = false ->
  shouldReconnect (fst (step a st)) = false /\
  reconnect_delays (snd (step a st)) = [].
Proof.
  intros Hsr. ws_step_cases a st;
    try (repeat (case_match; simplify_eq/=); done).
  - cbn [fst snd shouldReconnect set_heartbeatTimer set_reconnectAttempts
         set_connected set_connectionResolved].
    split; [done|].
    rewrite !reconnect_delays_app.
    destruct (heartbeatTimer st), (ws st);
      rewrite ?reconnect_delays_sends; reflexivity.
  - rewrite Hsr. cbn [andb fst snd shouldReconnect set_pendingRequests
      set_connectionResolved set_heartbeatTimer set_connected].
    split; [done|].
    rewrite !reconnect_delays_app, reconnect_delays_reject_loop.
    destruct (heartbeatTimer st), (connectionResolved st); reflexivity.
Qed.

Lemma run_cons (a : action) (acts : list action) (st : state) :
  run (a :: acts) st =
  (fst (run acts (fst (step a st))),
   snd (step a st) ++ snd (run acts (fst (step a st)))).
Proof.
  unfold run. cbn [for_each]. unfold seq_h.
  destruct (step a st) as [s1 e1]. cbn [fst snd].
  by destruct (for_each acts step s1).
Qed.

Lemma run_reconnect_off (acts : list action) (st : state) :
  shouldReconnect st = false ->
  shouldReconnect (fst (run acts st)) = false /\
  reconnect_delays (snd (run acts st)) = [].
Proof.
  revert st. induction acts as [|a acts IH]; intros st Hsr; [done|].
  rewrite run_cons. cbn [fst snd].
  destruct (step_reconnect_off a st Hsr) as [H1 H2].
  destruct (IH _ H1) as [H3 H4].
  by rewrite reconnect_delays_app, H2, H4.
Qed.

(** [disconnect()] switches reconnection off for good: whatever happens
    to the transport afterwards, a later [connect()] that succeeds and
    loses its connection included, no reconnect timer is armed again. *)
Theorem disconnect_disables_reconnect_for_good
    (st : state) (acts : list action) :
  let r := run acts (fst (disconnect st)) in
  shouldReconnect (fst r) = false /\ reconnect_delays (snd r) = [].
Proof.
  apply run_reconnect_off.
  destruct (disconnect_returns st) as [H _]. exact H.
Qed.

Lemma reconnectDelay_range (k : Z) :
  0 <= k -> 1000 <= reconnectDelay k <= 30000.
Proof.
  intros Hk. unfold reconnectDelay.
  assert (0 < 2 ^ k) by (apply Z.pow_pos_nonneg; lia). lia.
Qed.

(** One action keeps the attempt counter within its bounds and arms
    timers within the range of the backoff. *)
Lemma step_reconnect_bounds (a : action) (st : state) :
  0 <= reconnectAttempts st <= maxReconnectAttempts ->
  0 <= reconnectAttempts (fst (step a st)) <= maxReconnectAttempts /\
  Forall (fun d => 1000 <= d <= 30000) (reconnect_delays (snd (step a st))).
Proof.
  unfold maxReconnectAttempts. intros Hra. ws_step_cases a st;
    try (repeat (case_match; simplify_eq/=); done).
  - cbn [fst snd reconnectAttempts set_heartbeatTimer set_reconnectAttempts
         set_connected set_connectionResolved].
    split; [lia|].
    rewrite !reconnect_delays_app.
    destruct (heartbeatTimer st), (ws st);
      rewrite ?reconnect_delays_sends; cbn; constructor.
  - unfold maxReconnectAttempts.
    destruct (Z.ltb_spec (reconnectAttempts st) 10) as [Hlt|Hge];
      rewrite ?andb_true_r, ?andb_false_r;
      [destruct (shouldReconnect st && negb (reconnecting st))|];
      cbn [fst snd reconnectAttempts set_reconnectTimer
           set_reconnectAttempts set_reconnecting set_pendingRequests
           set_connectionResolved set_heartbeatTimer set_connected];
      (split; [lia|]);
      rewrite !reconnect_delays_app, reconnect_delays_reject_loop;
      destruct (heartbeatTimer st), (connectionResolved st); cbn;
      repeat constructor; apply reconnectDelay_range; lia.
Qed.

(** Over every run of a fresh transport the attempt counter stays between
    0 and [maxReconnectAttempts], and every reconnect timer is armed with
    a delay between one and thirty seconds. *)
Theorem reconnect_delays_bounded (acts : list action) :
  let r := run acts init in
  0 <= reconnectAttempts (fst r) <= maxReconnectAttempts /\
  Forall (fun d => 1000 <= d <= 30000) (reconnect_delays (snd r)).
Proof.
  cbv zeta.
  assert (Hgen : forall st,
    0 <= reconnectAttempts st <= maxReconnectAttempts ->
    0 <= reconnectAttempts (fst (run acts st)) <= maxReconnectAttempts /\
    Forall (fun d => 1000 <= d <= 30000)
      (reconnect_delays (snd (run acts st)))).
  { induction acts as [|a acts IH]; intros st Hst.
    - split; [done | constructor].
    - rewrite run_cons. cbn [fst snd].
      destruct (step_reconnect_bounds a st Hst) as [H1 H2].
      destruct (IH _ H1) as [H3 H4].
      split; [done|]. rewrite reconnect_delays_app. by apply Forall_app. }
  apply Hgen. unfold maxReconnectAttempts. cbn. lia.
Qed.

Lemma live_intervals_app (e1 e2 : list effect) :
  live_intervals (e1 ++ e2) = live_intervals e1 + live_intervals e2.
Proof.
  induction e1 as [|e e1 IH]; [reflexivity|].
  cbn [app live_intervals foldr]. fold (live_intervals (e1 ++ e2)).
  fold (live_intervals e1). rewrite IH. destruct e; lia.
Qed.

Lemma live_intervals_sends (l : list string) :
  live_intervals ((fun stream => Send (subscribe_msg stream)) <$> l) = 0.
Proof. induction l as [|x l IH]; [reflexivity | exact IH]. Qed.

Lemma live_intervals_reject_loop (l : list (requestId * Z)) :
  live_intervals (l ≫= reject_on_close) = 0.
Proof. induction l as [|x l IH]; [reflexivity | exact IH]. Qed.

(** Every action sets and clears intervals in step with the handle the
    transport keeps. *)
Lemma step_live_intervals (a : action) (st : state) :
  live_intervals (snd (step a st)) =
  Z.b2z (heartbeatTimer (fst (step a st))) - Z.b2z (heartbeatTimer st).
Proof.
  ws_step_cases a st;
    try (repeat (case_match; simplify_eq/=); cbn;
         repeat match goal with |- context [heartbeatTimer ?s] =>
           destruct (heartbeatTimer s) end; cbn; lia).
  - cbn [fst snd heartbeatTimer set_heartbeatTimer].
    rewrite !live_intervals_app.
    destruct (heartbeatTimer st), (ws st);
      rewrite ?live_intervals_sends; reflexivity.
  - cbn [fst snd]. rewrite !live_intervals_app, live_intervals_reject_loop.
    destruct (shouldReconnect st && negb (reconnecting st)
              && (reconnectAttempts st <? maxReconnectAttempts));
      cbn [heartbeatTimer set_reconnectTimer set_reconnectAttempts
           set_reconnecting set_pendingRequests set_connectionResolved
           set_heartbeatTimer set_connected];
      destruct (heartbeatTimer st), (connectionResolved st); reflexivity.
Qed.

(** The transport never leaks a heartbeat interval: after any run the
    intervals set and not yet cleared are the one whose handle it holds,
    or none. *)
Theorem heartbeat_interval_never_leaks (acts : list action) :
  let r := run acts init in
  live_intervals (snd r) = Z.b2z (heartbeatTimer (fst r)).
Proof.
  cbv zeta.
  assert (Hgen : forall st,
    live_intervals (snd (run acts st)) =
    Z.b2z (heartbeatTimer (fst (run acts st))) - Z.b2z (heartbeatTimer st)).
  { induction acts as [|a acts IH]; intros st.
    - cbn. lia.
    - rewrite run_cons. cbn [fst snd].
      rewrite live_intervals_app, step_live_intervals, IH. lia. }
  rewrite Hgen. cbn. lia.
Qed.

(** Success resets the backoff: when the [connected] message of a pending
    [connect()] is followed by the loss of the connection, the reconnect
    timer is armed with the initial delay of one second, whatever the
    attempt count was. *)
Theorem backoff_restarts_after_success (now : Z) (st : state) :
  connectionResolved st = false -> shouldReconnect st = true ->
  reconnecting st = false ->
  reconnect_delays
    (snd (run [socket_message connected_msg now; socket_close] st)) = [1000].
Proof.
  intros Hcr Hsr Hrc. rewrite !run_cons. cbn [step run for_each snd].
  rewrite onMessage_connected_eq by done. cbn [fst snd].
  rewrite onClose_eq. cbv zeta. cbn [snd].
  cbn [shouldReconnect reconnecting reconnectAttempts heartbeatTimer
       connectionResolved pendingRequests
       set_heartbeatTimer set_reconnectAttempts set_connected
       set_connectionResolved].
  rewrite Hsr, Hrc. cbn [andb negb].
  change (0 <? maxReconnectAttempts) with true. cbv iota.
  rewrite !reconnect_delays_app, reconnect_delays_reject_loop.
  destruct (heartbeatTimer st), (ws st);
    rewrite ?reconnect_delays_sends; reflexivity.
Qed.

Lemma backoff_restarts_after_success_witness :
  reconnectAttempts (fst (run (connection_lost ++ [timer_reconnect]) init))
  = 1 /\
  reconnect_delays
    (snd (run [socket_message connected_msg 5; socket_close]
            (fst (run (connection_lost ++ [timer_reconnect]) init))))
  = [1000].
Proof.
  split; [reflexivity|].
  apply (backoff_restarts_after_success 5); reflexivity.
Defined.

(** *** Settlement of pending requests *)

Lemma settlements_app (e1 e2 : list effect) :
  settlements (e1 ++ e2) = settlements e1 ++ settlements e2.
Proof. apply omap_app. Qed.

Lemma settlements_sends (l : list string) :
  settlements ((fun stream => Send (subscribe_msg stream)) <$> l) = [].
Proof. induction l as [|x l IH]; [reflexivity | exact IH]. Qed.

Lemma settlements_reject_loop (l : list (requestId * Z)) :
  settlements (l ≫= reject_on_close) = fst <$> l.
Proof.
  induction l as [|x l IH]; [reflexivity|].
  cbn. unfold settlements in *. cbn. by rewrite IH.
Qed.

Lemma map_get_Some_elem (id : requestId) (m : list (requestId * Z)) (v : Z) :
  map_get id m = Some v -> id ∈ fst <$> m.
Proof.
  unfold map_get. intros H.
  destruct (find _ m) as [e|] eqn:Hfind; [|done].
  apply find_some in Hfind as [Hin Hid].
  apply bool_decide_eq_true in Hid. subst id.
  apply list_elem_of_fmap_2. by apply list_elem_of_In.
Qed.

Lemma map_get_fresh (id : requestId) (m : list (requestId * Z)) :
  id ∉ fst <$> m -> map_get id m = None.
Proof.
  intros Hnot. destruct (map_get id m) as [v|] eqn:Hget; [|done].
  destruct Hnot. by eapply map_get_Some_elem.
Qed.

Lemma map_delete_ids (id : requestId) (m : list (requestId * Z)) :
  fst <$> map_delete id m = filter (fun k => k <> id) (fst <$> m).
Proof.
  unfold map_delete. induction m as [|e m IH]; [reflexivity|].
  cbn [fmap list_fmap]. destruct (decide (fst e = id)) as [He|He].
  - rewrite !filter_cons_False by (by intros ?). exact IH.
  - rewrite !filter_cons_True by done. cbn [fmap list_fmap]. by rewrite IH.
Qed.

(** What each action settles, and what it does to the pending map and to
    the request counter. *)
Lemma step_settles (a : action) (st : state) :
  let r := step a st in
  let unchanged :=
    settlements (snd r) = [] /\
    pendingRequests (fst r) = pendingRequests st /\
    requestIdCounter (fst r) = requestIdCounter st in
  let settles id :=
    match map_get id (pendingRequests st) with
    | Some _ =>
        settlements (snd r) = [id] /\
        pendingRequests (fst r) = map_delete id (pendingRequests st) /\
        requestIdCounter (fst r) = requestIdCounter st
    | None => unchanged
    end in
  match a with
  | call_submitTransaction now t =>
      if connected st then
        settlements (snd r) = [] /\
        pendingRequests (fst r) =
          map_set (requestIdCounter st + 1, now) (default 30000 t)
            (pendingRequests st) /\
        requestIdCounter (fst r) = requestIdCounter st + 1
      else unchanged
  | socket_message (transaction_msg _ id _) _ => settles id
  | timer_request id => settles id
  | socket_close =>
      settlements (snd r) = pendingIds st /\
      pendingRequests (fst r) = [] /\
      requestIdCounter (fst r) = requestIdCounter st
  | _ => unchanged
  end.
Proof.
  cbv zeta. ws_step_cases a st;
    try (repeat (case_match; simplify_eq/=); done).
  - cbn [fst snd pendingRequests requestIdCounter set_heartbeatTimer
         set_reconnectAttempts set_connected set_connectionResolved].
    repeat split.
    rewrite !settlements_app.
    destruct (heartbeatTimer st), (ws st);
      rewrite ?settlements_sends; reflexivity.
  - cbn [fst snd]. rewrite !settlements_app, settlements_reject_loop.
    unfold pendingIds.
    destruct (shouldReconnect st && negb (reconnecting st)
              && (reconnectAttempts st <? maxReconnectAttempts));
      cbn [pendingRequests requestIdCounter set_reconnectTimer
           set_reconnectAttempts set_reconnecting set_pendingRequests
           set_connectionResolved set_heartbeatTimer set_connected];
      (repeat split);
      destruct (heartbeatTimer st), (connectionResolved st); cbn;
      by rewrite ?app_nil_r.
Qed.

Lemma settle_unchanged (st : state) (r : state * list effect) :
  settlements (snd r) = [] /\
  pendingRequests (fst r) = pendingRequests st /\
  requestIdCounter (fst r) = requestIdCounter st ->
  NoDup (pendingIds st) ->
  (forall id, id ∈ pendingIds st -> fst id <= requestIdCounter st) ->
  NoDup (settlements (snd r)) /\
  (forall id, id ∈ settlements (snd r) -> id ∈ pendingIds st) /\
  NoDup (pendingIds (fst r)) /\
  (forall id, id ∈ pendingIds (fst r) ->
     id ∈ pendingIds st /\ id ∉ settlements (snd r) \/
     requestIdCounter st < fst id) /\
  (forall id, id ∈ pendingIds (fst r) -> fst id <= requestIdCounter (fst r)) /\
  requestIdCounter st <= requestIdCounter (fst r).
Proof.
  intros (Hs & Hp & Hc) Hnd Hle. unfold pendingIds in *.
  rewrite Hs, Hp, Hc. repeat split; [constructor | | done | | done | lia].
  - intros id Hid. by apply elem_of_nil in Hid.
  - intros id Hid. left. split; [done | apply not_elem_of_nil].
Qed.

Lemma settle_one (st : state) (r : state * list effect) (id : requestId) :
  match map_get id (pendingRequests st) with
  | Some _ =>
      settlements (snd r) = [id] /\
      pendingRequests (fst r) = map_delete id (pendingRequests st) /\
      requestIdCounter (fst r) = requestIdCounter st
  | None =>
      settlements (snd r) = [] /\
      pendingRequests (fst r) = pendingRequests st /\
      requestIdCounter (fst r) = requestIdCounter st
  end ->
  NoDup (pendingIds st) ->
  (forall id, id ∈ pendingIds st -> fst id <= requestIdCounter st) ->
  NoDup (settlements (snd r)) /\
  (forall id, id ∈ settlements (snd r) -> id ∈ pendingIds st) /\
  NoDup (pendingIds (fst r)) /\
  (forall id, id ∈ pendingIds (fst r) ->
     id ∈ pendingIds st /\ id ∉ settlements (snd r) \/
     requestIdCounter st < fst id) /\
  (forall id, id ∈ pendingIds (fst r) -> fst id <= requestIdCounter (fst r)) /\
  requestIdCounter st <= requestIdCounter (fst r).
Proof.
  destruct (map_get id (pendingRequests st)) as [v|] eqn:Hget;
    [|apply settle_unchanged].
  intros (Hs & Hp & Hc) Hnd Hle. unfold pendingIds in *.
  rewrite Hs, Hp, Hc, map_delete_ids.
  repeat split; [apply NoDup_singleton | | by apply NoDup_filter | | | lia].
  - intros k Hk. apply list_elem_of_singleton in Hk. subst k.
    by eapply map_get_Some_elem.
  - intros k Hk. apply list_elem_of_filter in Hk as [Hne Hk].
    left. split; [done|]. by rewrite list_elem_of_singleton.
  - intros k Hk. apply list_elem_of_filter in Hk as [_ Hk]. by apply Hle.
Qed.

(** A request is settled only while it is pending and is then no longer
    pending; new requests carry a counter above every earlier one. *)
Lemma settle_step (a : action) (st : state) :
  NoDup (pendingIds st) ->
  (forall id, id ∈ pendingIds st -> fst id <= requestIdCounter st) ->
  let r := step a st in
  NoDup (settlements (snd r)) /\
  (forall id, id ∈ settlements (snd r) -> id ∈ pendingIds st) /\
  NoDup (pendingIds (fst r)) /\
  (forall id, id ∈ pendingIds (fst r) ->
     id ∈ pendingIds st /\ id ∉ settlements (snd r) \/
     requestIdCounter st < fst id) /\
  (forall id, id ∈ pendingIds (fst r) -> fst id <= requestIdCounter (fst r)) /\
  requestIdCounter st <= requestIdCounter (fst r).
Proof.
  intros Hnd Hle. cbv zeta.
  pose proof (step_settles a st) as H. cbv zeta in H.
  destruct a as [| |?s|?s|?now|now t| |msg ?now|?m| | | |?id|?now];
    try (by apply settle_unchanged);
    try (by apply (settle_one st _ id)).
  - destruct (connected st); [|by apply settle_unchanged].
    destruct H as (Hs & Hp & Hc).
    assert (Hfresh : (requestIdCounter st + 1, now) ∉ pendingIds st).
    { intros Hin. apply Hle in Hin. cbn in Hin. lia. }
    unfold pendingIds in *. rewrite Hs, Hp, Hc.
    unfold map_set. rewrite (map_get_fresh _ _ Hfresh).
    rewrite bool_decide_eq_false_2 by (by intros [? ?]).
    rewrite fmap_app. cbn [fmap list_fmap fst].
    repeat split; [constructor | | | | | lia].
    + intros id Hid. by apply elem_of_nil in Hid.
    + apply NoDup_app. repeat split; [done | | apply NoDup_singleton].
      intros k Hk Hk'. apply list_elem_of_singleton in Hk'. by subst k.
    + intros k Hk. apply elem_of_app in Hk as [Hk|Hk].
      * left. split; [done | apply not_elem_of_nil].
      * apply list_elem_of_singleton in Hk. subst k. right. cbn. lia.
    + intros k Hk. apply elem_of_app in Hk as [Hk|Hk].
      * apply Hle in Hk. lia.
      * apply list_elem_of_singleton in Hk. subst k. cbn. lia.
  - destruct msg; try (by apply settle_unchanged).
    by apply (settle_one st _ request_id).
  - destruct H as (Hs & Hp & Hc). unfold pendingIds in *.
    rewrite Hs, Hp, Hc. cbn [fmap list_fmap].
    repeat split; [done | done | constructor | | | lia];
      intros id Hid; by apply elem_of_nil in Hid.
Qed.

Lemma run_settles (acts : list action) (st : state) :
  NoDup (pendingIds st) ->
  (forall id, id ∈ pendingIds st -> fst id <= requestIdCounter st) ->
  NoDup (settlements (snd (run acts st))) /\
  (forall id, id ∈ settlements (snd (run acts st)) ->
     id ∈ pendingIds st \/ requestIdCounter st < fst id).
Proof.
  revert st. induction acts as [|a acts IH]; intros st Hnd Hle.
  - split; [constructor|]. intros id Hid. by apply elem_of_nil in Hid.
  - rewrite run_cons. cbn [fst snd]. rewrite settlements_app.
    destruct (settle_step a st Hnd Hle) as (S1 & S2 & S3 & S4 & S5 & S6).
    destruct (IH _ S3 S5) as [R1 R2].
    split.
    + apply NoDup_app. repeat split; [done | | done].
      intros id Hid Hid'. pose proof (Hle id (S2 id Hid)) as Hb.
      destruct (R2 id Hid') as [Hk|Hk].
      * destruct (S4 id Hk) as [[_ Hn]|Hgt]; [done | lia].
      * lia.
    + intros id Hid. apply elem_of_app in Hid as [Hid|Hid].
      * left. by apply S2.
      * destruct (R2 id Hid) as [Hk|Hk].
        -- destruct (S4 id Hk) as [[Hin _]|Hgt]; [by left | by right].
        -- right. lia.
Qed.

(** No request is settled twice: over any run of the transport, the
    promises resolved by a server reply and rejected by a failure reply, a
    timeout or the loss of the connection all belong to different
    requests. *)
Theorem requests_settle_at_most_once (acts : list action) :
  NoDup (settlements (snd (run acts init))).
Proof.
  apply run_settles; [constructor|].
  intros id Hid. by apply elem_of_nil in Hid.
Qed.

(** *** Subscriptions sent *)

Lemma sent_subscriptions_app (e1 e2 : list effect) :
  sent_subscriptions (e1 ++ e2) =
  sent_subscriptions e1 ++ sent_subscriptions e2.
Proof. apply omap_app. Qed.

Lemma sent_subscriptions_reject_loop (l : list (requestId * Z)) :
  sent_subscriptions (l ≫= reject_on_close) = [].
Proof. induction l as [|x l IH]; [reflexivity | exact IH]. Qed.

(** A [subscribe] message is sent for a stream of the subscription set,
    or for the stream a [subscribe…()] call names. *)
Lemma step_sent_subscriptions (a : action) (st : state) (s : string) :
  s ∈ sent_subscriptions (snd (step a st)) ->
  s ∈ subscribedStreams st \/ a = call_subscribe s.
Proof.
  ws_step_cases a st;
    try (repeat (case_match; simplify_eq/=); try (by intros ?%elem_of_nil);
         by (intros ->%list_elem_of_singleton; right)).
  - cbn [snd]. rewrite !sent_subscriptions_app.
    destruct (heartbeatTimer st), (ws st); cbn [app sent_subscriptions omap];
      rewrite ?sent_subscriptions_replay, ?app_nil_r;
      (try by intros ?%elem_of_nil); by left.
  - cbn [snd].
    rewrite !sent_subscriptions_app, sent_subscriptions_reject_loop.
    destruct (heartbeatTimer st), (connectionResolved st),
      (shouldReconnect st && negb (reconnecting st)
       && (reconnectAttempts st <? maxReconnectAttempts));
      by intros ?%elem_of_nil.
Qed.

Lemma run_sent_subscriptions (acts : list action) (st : state) (s : string) :
  s ∈ sent_subscriptions (snd (run acts st)) ->
  s ∈ subscribedStreams st \/ call_subscribe s ∈ acts.
Proof.
  revert st. induction acts as [|a acts IH]; intros st.
  - by intros ?%elem_of_nil.
  - rewrite run_cons. cbn [snd]. rewrite sent_subscriptions_app.
    intros [Hs|Hs]%elem_of_app.
    + destruct (step_sent_subscriptions a st s Hs) as [H| ->];
        [by left | right; left].
    + destruct (IH _ Hs) as [H|H]; [|right; by right].
      rewrite subscribedStreams_step in H.
      destruct a; try (by left).
      * unfold set_add in H. case_bool_decide; [by left|].
        apply elem_of_app in H as [H|H]; [by left|].
        apply list_elem_of_singleton in H. subst. right. left.
      * unfold set_delete in H. apply list_elem_of_filter in H as [_ H].
        by left.
Qed.

(** The transport subscribes to nothing on its own: every [subscribe]
    message it ever sends, replays after a reconnect included, is for a
    stream its owner has asked for with a [subscribe…()] call earlier in
    the run. *)
Theorem subscriptions_sent_were_requested
    (acts : list action) (s : string) :
  s ∈ sent_subscriptions (snd (run acts init)) -> call_subscribe s ∈ acts.
Proof.
  intros Hs. destruct (run_sent_subscriptions acts init s Hs) as [H|H];
    [|done].
  by apply elem_of_nil in H.
Qed.

Lemma subscriptions_sent_were_requested_witness :
  "leader_hints"%string ∈
    sent_subscriptions
      (snd (run (call_subscribe "leader_hints" :: connection_lost
                 ++ [timer_reconnect; socket_message connected_msg 9])
              init)) /\
  call_subscribe "leader_hints" ∈
    (call_subscribe "leader_hints" :: connection_lost
     ++ [timer_reconnect; socket_message connected_msg 9]).
Proof.
  assert (H : "leader_hints"%string ∈
    sent_subscriptions
      (snd (run (call_subscribe "leader_hints" :: connection_lost
                 ++ [timer_reconnect; socket_message connected_msg 9])
              init))).
  { vm_compute. left. }
  split; [exact H|].
  exact (subscriptions_sent_were_requested _ _ H).
Defined.
End WebSocketRunFacts.

(** ** QUIC transport: disconnect, subscriptions and incoming streams *)

Section QuicSessionFacts.
Import Js Binary QuicTransport QuicSession.

(** [disconnect()] emits ['disconnected'] itself and leaves the close
    monitor attached: when the [closed] promise of the connection it has
    closed settles, the monitor emits ['disconnected'] a second time.  No
    reconnect timer is armed. *)
Theorem quic_disconnect_is_reported_twice (st : state) :
  monitored st = true ->
  let r1 := disconnect st in
  let r2 := connectionSettled (fst r1) in
  disconnected_events (snd r1 ++ snd r2) = 2%nat /\
  timers_armed (snd r1 ++ snd r2) = [] /\
  _connected (fst r2) = false /\
  shouldReconnect (fst r2) = false.
Proof.
  intros Hmon. cbv zeta. unfold connectionSettled, disconnect.
  cbn [fst snd monitored]. rewrite Hmon.
  unfold connectionClosed. cbn [shouldReconnect fst snd].
  unfold disconnected_events, timers_armed. rewrite !omap_app.
  destruct (reconnectTimer st), (connection st), (endpoint st);
    repeat split; reflexivity.
Qed.

Lemma quic_disconnect_is_reported_twice_witness :
  exists st,
    connect Authenticated init = Return (st, [Emit ev_connected]) /\
    disconnected_events
      (snd (disconnect st) ++ snd (connectionSettled (fst (disconnect st))))
    = 2%nat.
Proof.
  eexists. split; [reflexivity|].
  apply quic_disconnect_is_reported_twice. reflexivity.
Defined.

(** A subscription made before the transport is connected is recorded
    but not sent, and the [connect()] that follows does not send it
    either, whatever its outcome: only the reconnect timer replays the
    recorded subscriptions. *)
Theorem quic_connect_does_not_replay
    (streamType : Z) (o : connect_outcome) (st : state) :
  _connected st = false ->
  let r1 := subscribe streamType st in
  streamType ∈ activeSubscriptions (fst r1) /\
  subscriptions_sent (snd r1) = [] /\
  match connect o (fst r1) with
  | Return r2 =>
      subscriptions_sent (snd r2) = [] /\
      streamType ∈ activeSubscriptions (fst r2) /\
      _connected (fst r2) = true
  | Throw (_, r2) => subscriptions_sent (snd r2) = []
  end.
Proof.
  intros Hc. cbv zeta. unfold subscribe.
  cbn [_connected connection]. rewrite Hc. cbn [negb orb fst snd].
  assert (Hin : streamType ∈
    (if bool_decide (streamType ∈ activeSubscriptions st)
     then activeSubscriptions st
     else activeSubscriptions st ++ [streamType])).
  { case_bool_decide; [done|]. apply elem_of_app. right.
    by apply list_elem_of_singleton. }
  split; [exact Hin|]. split; [reflexivity|].
  destruct o; cbn; try done.
Qed.

Lemma quic_connect_does_not_replay_witness :
  subscriptions_sent (snd (subscribe STREAM_TYPE.LeaderHints init)) = [] /\
  match connect Authenticated (fst (subscribe STREAM_TYPE.LeaderHints init))
  with
  | Return r2 =>
      subscriptions_sent (snd r2) = [] /\
      STREAM_TYPE.LeaderHints ∈ activeSubscriptions (fst r2)
  | Throw _ => False
  end.
Proof.
  destruct (quic_connect_does_not_replay STREAM_TYPE.LeaderHints
              Authenticated init eq_refl) as (_ & H1 & H2).
  split; [exact H1|]. cbn in H2 |- *. destruct H2 as (H2 & H3 & _).
  split; [exact H2 | exact H3].
Defined.

(** A stream whose first byte is none of the three tags the listener
    knows is dropped without an event; so are the latest-blockhash (0x06)
    and latest-slot (0x07) frames, although the codec decodes them. *)
Theorem quic_unknown_stream_is_dropped
    (describe : exn -> string) (tag : byte) (rest : list byte) :
  byteZ tag <> STREAM_TYPE.LeaderHints ->
  byteZ tag <> STREAM_TYPE.TipInstructions ->
  byteZ tag <> STREAM_TYPE.PriorityFees ->
  onIncomingStream describe (tag :: rest) = [].
Proof.
  intros H2 H3 H4. unfold onIncomingStream, processIncomingStream.
  cbn [length ltb List.length].
  destruct (Z.ltb_spec (Z.of_nat (S (List.length rest))) 1); [lia|].
  change (index (tag :: rest) (Some 0)) with (Some (byteZ tag)).
  unfold strict_eqb.
  rewrite !(proj2 (Z.eqb_neq _ _)) by done. reflexivity.
Qed.

Lemma quic_unknown_stream_is_dropped_witness :
  onIncomingStream (fun _ => "RangeError"%string)
    (x07 :: replicate 16 x00) = [] /\
  exists frame, parseLatestSlot (x07 :: replicate 16 x00) = Return (Some frame).
Proof.
  split.
  - apply quic_unknown_stream_is_dropped; by cbn.
  - eexists. reflexivity.
Defined.

(** A priority fee stream cut short, the tag and fewer than 20 bytes
    after it, does not go unnoticed and does not stop the listener: the
    decoder throws and the listener turns that into one ['error'] event of
    class CONNECTION. *)
Theorem quic_truncated_priority_fee_is_an_error
    (describe : exn -> string) (rest : list byte) :
  (List.length rest < 20)%nat ->
  onIncomingStream describe (x04 :: rest) =
  [error (SlipstreamError.connection
            ("Stream processing error: " +:+ describe RangeError))].
Proof.
  intros Hlen. unfold onIncomingStream, processIncomingStream.
  cbn [length ltb List.length].
  destruct (Z.ltb_spec (Z.of_nat (S (List.length rest))) 1); [lia|].
  change (index (x04 :: rest) (Some 0)) with (Some 4).
  change (strict_eqb (Some 4) STREAM_TYPE.LeaderHints) with false.
  change (strict_eqb (Some 4) STREAM_TYPE.TipInstructions) with false.
  change (strict_eqb (Some 4) STREAM_TYPE.PriorityFees) with true.
  cbv iota.
  rewrite parsePriorityFee_short_throws; [reflexivity | done |].
  cbn [List.length]. lia.
Qed.

Lemma quic_truncated_priority_fee_witness :
  onIncomingStream (fun _ => "RangeError"%string) [x04; x00; x01] =
  [error (SlipstreamError.connection
            "Stream processing error: RangeError")].
Proof.
  apply (quic_truncated_priority_fee_is_an_error
           (fun _ => "RangeError"%string) [x00; x01]).
  cbn. lia.
Defined.
End QuicSessionFacts.

(** ** Region router: construction and submissions *)

Section MultiRegionSetupFacts.
Import MultiRegion MultiRegionSetup.

Lemma find_app {A} (f : A -> bool) (l1 l2 : list A) :
  find f (l1 ++ l2) =
  match find f l1 with
  | Some x => Some x
  | None => find f l2
  end.
Proof.
  induction l1 as [|x l1 IH]; [reflexivity|].
  cbn [app find]. by destruct (f x).
Qed.

Lemma find_key_fmap (r : string)
    (upd : string * list WorkerEndpoint -> string * list WorkerEndpoint)
    (m : list (string * list WorkerEndpoint)) :
  (forall e, fst (upd e) = fst e) ->
  find (fun e => bool_decide (fst e = r)) (upd <$> m) =
  upd <$> find (fun e => bool_decide (fst e = r)) m.
Proof.
  intros Hupd. induction m as [|e m IH]; [reflexivity|].
  cbn [fmap list_fmap find]. rewrite Hupd.
  by destruct (bool_decide (fst e = r)).
Qed.

Lemma find_key_Some (r : string) (m : list (string * list WorkerEndpoint))
    (e : string * list WorkerEndpoint) :
  find (fun e => bool_decide (fst e = r)) m = Some e -> fst e = r.
Proof.
  intros H. apply find_some in H as [_ H]. by apply bool_decide_eq_true in H.
Qed.

(** One turn of the grouping loop, seen through [Map.get]. *)
Lemma workersOf_groupWorker (r : string)
    (m : list (string * list WorkerEndpoint)) (worker : WorkerEndpoint) :
  workersOf r (groupWorker m worker) =
  if bool_decide (region worker = r)
  then Some (default [] (workersOf r m) ++ [worker])
  else workersOf r m.
Proof.
  unfold workersOf, groupWorker.
  destruct (find (fun e => bool_decide (fst e = region worker)) m)
    as [e|] eqn:Hfind.
  - rewrite find_key_fmap by (intros e'; by case_bool_decide).
    case_bool_decide as Hr.
    + subst r. rewrite Hfind. cbn.
      rewrite bool_decide_eq_true_2 by (by eapply find_key_Some).
      reflexivity.
    + destruct (find (fun e0 => bool_decide (fst e0 = r)) m)
        as [e'|] eqn:Hfind'; [|reflexivity].
      cbn. apply find_key_Some in Hfind'.
      rewrite bool_decide_eq_false_2 by congruence. reflexivity.
  - rewrite find_app. case_bool_decide as Hr.
    + subst r. rewrite Hfind. cbn.
      by rewrite bool_decide_eq_true_2.
    + destruct (find (fun e0 => bool_decide (fst e0 = r)) m);
        [reflexivity|].
      cbn. by rewrite bool_decide_eq_false_2.
Qed.

Lemma workersOf_fold (r : string) (workers : list WorkerEndpoint)
    (m : list (string * list WorkerEndpoint)) :
  workersOf r (fold_left groupWorker workers m) =
  match workersOf r m, filter (fun w => region w = r) workers with
  | None, [] => None
  | o, ws => Some (default [] o ++ ws)
  end.
Proof.
  revert m. induction workers as [|worker workers IH]; intros m.
  - cbn [fold_left]. rewrite filter_nil.
    destruct (workersOf r m); cbn; by rewrite ?app_nil_r.
  - cbn [fold_left]. rewrite IH, workersOf_groupWorker.
    destruct (decide (region worker = r)) as [Hr|Hr].
    + rewrite bool_decide_eq_true_2, filter_cons_True by done.
      destruct (workersOf r m) as [l|]; cbn;
        destruct (filter _ workers); cbn;
        by rewrite <- ?app_assoc.
    + rewrite bool_decide_eq_false_2, filter_cons_False by done.
      reflexivity.
Qed.

Lemma workersOf_groupWorkers (r : string) (workers : list WorkerEndpoint) :
  workersOf r (groupWorkers workers) =
  match filter (fun w => region w = r) workers with
  | [] => None
  | ws => Some ws
  end.
Proof.
  unfold groupWorkers. rewrite workersOf_fold. cbn.
  by destruct (filter _ workers).
Qed.

Lemma find_key_None (r : string) (m : list (string * list WorkerEndpoint)) :
  find (fun e => bool_decide (fst e = r)) m = None -> r ∉ fst <$> m.
Proof.
  intros Hfind Hin. apply list_elem_of_fmap in Hin as (e & -> & Hin).
  apply list_elem_of_In in Hin.
  pose proof (find_none _ _ Hfind e Hin) as H. cbn in H.
  by rewrite bool_decide_eq_true_2 in H.
Qed.

Lemma groupWorker_keys (m : list (string * list WorkerEndpoint))
    (worker : WorkerEndpoint) :
  NoDup (fst <$> m) -> NoDup (fst <$> groupWorker m worker).
Proof.
  intros Hnd. unfold groupWorker.
  destruct (find _ m) as [e|] eqn:Hfind.
  - rewrite <- list_fmap_compose.
    erewrite list_fmap_ext; [exact Hnd|].
    intros i e' _. cbn. by case_bool_decide.
  - rewrite fmap_app. apply NoDup_app. repeat split; [done| |].
    + intros k Hk Hk'. apply list_elem_of_singleton in Hk'. subst k.
      by apply find_key_None in Hfind.
    + apply NoDup_singleton.
Qed.

(** The grouping of [create] is a group-by: the map has one entry per
    region, and the entry of a region holds exactly the workers of that
    region, in the order they were given; a region without a worker has
    no entry. *)
Theorem groupWorkers_groups_by_region (workers : list WorkerEndpoint) :
  NoDup (fst <$> groupWorkers workers) /\
  forall r,
    workersOf r (groupWorkers workers) =
    match filter (fun w => region w = r) workers with
    | [] => None
    | ws => Some ws
    end.
Proof.
  split; [|intros r; apply workersOf_groupWorkers].
  unfold groupWorkers.
  assert (Hgen : forall m, NoDup (fst <$> m) ->
                 NoDup (fst <$> fold_left groupWorker workers m)).
  { induction workers as [|worker workers IH]; intros m Hm; [done|].
    cbn [fold_left]. by apply IH, groupWorker_keys. }
  apply Hgen. constructor.
Qed.

Section WithOracle.
Context {World : Type}.
Variable connectClient :
  string -> World -> Js.completion SlipstreamError.t unit * World.
Variable clientSubmit :
  string -> SubmitOptions -> World ->
  Js.completion SlipstreamError.t TransactionResult * World.

(** [create] connects the primary region, the configured one or else the
    region of the first worker, and nothing else: it fails with a CONFIG
    error, without trying any other region, when no worker is in that
    region, and with the error of the connection when that fails. *)
Theorem create_connects_primary_or_fails
    (baseRegion : option string) (workers : list WorkerEndpoint)
    (w : World) (r : string) :
  match baseRegion with
  | Some r' => Some r'
  | None => region <$> head workers
  end = Some r ->
  r <> ""%string ->
  match filter (fun x => region x = r) workers with
  | [] =>
      exists e,
        create baseRegion connectClient workers w = (Js.Throw e, w) /\
        SlipstreamError.code e = "CONFIG"%string
  | _ :: _ =>
      create baseRegion connectClient workers w =
      match connectClient r w with
      | (Js.Return _, w') =>
          (Js.Return {| clients := [r];
                        workersByRegion := groupWorkers workers;
                        currentRouting := None;
                        lastSwitchTime := 0 |}, w')
      | (Js.Throw e, w') => (Js.Throw e, w')
      end
  end.
Proof.
  intros Hprimary Hr. unfold create. rewrite Hprimary.
  rewrite bool_decide_eq_false_2 by done.
  unfold ensureRegionConnected. cbn [clients workersByRegion].
  rewrite bool_decide_eq_false_2 by apply not_elem_of_nil.
  change (snd <$> find (fun e => bool_decide (fst e = r))
                    (groupWorkers workers))
    with (workersOf r (groupWorkers workers)).
  rewrite workersOf_groupWorkers.
  destruct (filter _ workers) as [|worker ws]; [by eexists|].
  destruct (connectClient r w) as [[[]|e] w']; reflexivity.
Qed.

Lemma extends_refl (st : state) : extends st st.
Proof. unfold extends. repeat split; auto. Qed.

Lemma extends_trans (a b c : state) :
  extends a b -> extends b c -> extends a c.
Proof.
  intros (A1 & A2 & A3 & A4 & A5 & A6) (B1 & B2 & B3 & B4 & B5 & B6).
  unfold extends. repeat split; try congruence; auto.
  - by etrans.
  - intros r Hr. destruct (B6 r Hr) as [Hin|Hw]; [by apply A6|].
    right. by rewrite <- A1.
Qed.

Lemma ensureRegionConnected_extends (r : string) (st : state) (w : World) :
  extends st (snd (fst (ensureRegionConnected connectClient r st w))).
Proof.
  unfold ensureRegionConnected.
  case_bool_decide as Hin; [apply extends_refl|].
  destruct (snd <$> find _ (workersByRegion st)) as [[|worker ws]|] eqn:Hw;
    try apply extends_refl.
  destruct (connectClient r w) as [[[]|e] w']; [|apply extends_refl].
  cbn [fst snd]. unfold extends. cbn [clients workersByRegion currentRouting
    lastSwitchTime].
  repeat split.
  - by apply prefix_app_r.
  - intros Hnd. apply NoDup_app. repeat split; [done| |apply NoDup_singleton].
    intros k Hk Hk'. apply list_elem_of_singleton in Hk'. by subst k.
  - intros k Hk. apply elem_of_app in Hk as [Hk|Hk]; [by left|].
    apply list_elem_of_singleton in Hk. subst k. right. by exists worker, ws.
Qed.

Lemma submitToRegion_extends (r : string) (options : SubmitOptions)
    (st : state) (w : World) :
  extends st
    (snd (fst (submitToRegion connectClient clientSubmit r options st w))).
Proof.
  unfold submitToRegion.
  pose proof (ensureRegionConnected_extends r st w) as H.
  destruct (ensureRegionConnected connectClient r st w) as [[[[]|e] st1] w1];
    cbn [fst snd] in *; [|done].
  case_bool_decide; [|done].
  by destruct (clientSubmit r options w1).
Qed.

Lemma settleAll_extends (regions : list string) (options : SubmitOptions)
    (st : state) (w : World) :
  extends st
    (snd (fst (settleAll connectClient clientSubmit regions options st w))).
Proof.
  revert st w. induction regions as [|r rs IH]; intros st w;
    [apply extends_refl|].
  cbn [settleAll].
  pose proof (submitToRegion_extends r options st w) as H1.
  destruct (submitToRegion connectClient clientSubmit r options st w)
    as [[res st1] w1]. cbn [fst snd] in H1.
  pose proof (IH st1 w1) as H2.
  destruct (settleAll connectClient clientSubmit rs options st1 w1)
    as [[[results|e] st2] w2]; cbn [fst snd] in *; by eapply extends_trans.
Qed.

Lemma tryFallbacks_extends (err : SlipstreamError.t)
    (fallbacks : list string) (options : SubmitOptions)
    (st : state) (w : World) :
  extends st
    (snd (fst (tryFallbacks connectClient clientSubmit err fallbacks options
                 st w))).
Proof.
  revert st w. induction fallbacks as [|f rest IH]; intros st w;
    [apply extends_refl|].
  cbn [tryFallbacks].
  pose proof (submitToRegion_extends f options st w) as H1.
  destruct (submitToRegion connectClient clientSubmit f options st w)
    as [[[v|e] st1] w1]; cbn [fst snd] in H1; [done|].
  eapply extends_trans; [exact H1 | apply IH].
Qed.

(** A submission leaves the worker map, the routing and the switch time
    alone and only adds clients: the clients there were stay, and each new
    one is a region that has a worker and had no client yet. *)
Theorem submission_only_adds_clients
    (baseRegion : option string) (cfg : MultiRegionConfig)
    (options : SubmitOptions) (st : state) (w : World) :
  extends st
    (snd (fst (submitTransactionWithOptions baseRegion cfg connectClient
                 clientSubmit options st w))).
Proof.
  unfold submitTransactionWithOptions.
  destruct (bool_decide (broadcastMode options = Some true)
            || isHighPriority cfg options).
  - unfold broadcastTransaction.
    pose proof (settleAll_extends (getBroadcastRegions cfg st) options st w)
      as H.
    by destruct (settleAll connectClient clientSubmit _ options st w)
      as [[[results|e] st1] w1].
  - set (region := match currentRouting st with
                   | Some r => bestRegion r
                   | None => getDefaultRegion baseRegion st
                   end).
    pose proof (submitToRegion_extends region options st w) as H1.
    destruct (submitToRegion connectClient clientSubmit region options st w)
      as [[[v|e] st1] w1]; cbn [fst snd] in H1; [done|].
    eapply extends_trans; [exact H1 | apply tryFallbacks_extends].
Qed.

(** The configuration flag [broadcastHighPriority] has no effect on a
    submission: [isHighPriority] is true only when [broadcastMode] is,
    which alone selects the broadcast. *)
Theorem broadcastHighPriority_has_no_effect
    (baseRegion : option string) (cfg : MultiRegionConfig) (flag : bool)
    (options : SubmitOptions) (st : state) (w : World) :
  submitTransactionWithOptions baseRegion
    {| autoFollowLeader := autoFollowLeader cfg;
       minSwitchConfidence := minSwitchConfidence cfg;
       switchCooldownMs := switchCooldownMs cfg;
       broadcastHighPriority := flag;
       maxBroadcastRegions := maxBroadcastRegions cfg |}
    connectClient clientSubmit options st w =
  submitTransactionWithOptions baseRegion cfg connectClient clientSubmit
    options st w.
Proof.
  unfold submitTransactionWithOptions, isHighPriority, broadcastTransaction,
    getBroadcastRegions.
  cbn [broadcastHighPriority maxBroadcastRegions].
  destruct (bool_decide (broadcastMode options = Some true));
    destruct flag, (broadcastHighPriority cfg); reflexivity.
Qed.

(** A broadcast with no region to send to, because the worker map is
    empty or [maxBroadcastRegions] is zero, fails with the TRANSACTION
    error of the empty case and contacts nobody. *)
Theorem broadcast_without_regions_fails
    (cfg : MultiRegionConfig) (options : SubmitOptions)
    (st : state) (w : World) :
  maxBroadcastRegions cfg = 0 \/ workersByRegion st = [] ->
  broadcastTransaction cfg connectClient clientSubmit options st w =
  (Js.Throw (SlipstreamError.transaction "All broadcast regions failed"),
   st, w).
Proof.
  intros H. unfold broadcastTransaction.
  assert (Hnil : getBroadcastRegions cfg st = []).
  { unfold getBroadcastRegions, slice0. destruct H as [-> | ->].
    - change (0 <? 0) with false. cbv beta iota zeta.
      rewrite Z.min_l by lia. reflexivity.
    - cbn [fmap list_fmap List.length]. apply take_nil. }
  rewrite Hnil. reflexivity.
Qed.
End WithOracle.

Lemma broadcast_without_regions_witness :
  broadcastTransaction
    {| autoFollowLeader := true; minSwitchConfidence := 70;
       switchCooldownMs := 5000; broadcastHighPriority := true;
       maxBroadcastRegions := 0 |}
    demo_connect demo_submit {| broadcastMode := Some true |} demo_state [] =
  (Js.Throw (SlipstreamError.transaction "All broadcast regions failed"),
   demo_state, []).
Proof.
  apply broadcast_without_regions_fails. left. reflexivity.
Defined.

Lemma create_connects_primary_witness :
  exists e,
    create (Some "eu-west"%string) demo_connect
      [{| id := "w1"; region := "us-east" |}] [] = (Js.Throw e, []) /\
    SlipstreamError.code e = "CONFIG"%string.
Proof.
  apply (create_connects_primary_or_fails demo_connect
           (Some "eu-west"%string) [{| id := "w1"; region := "us-east" |}]
           [] "eu-west"); [reflexivity | done].
Defined.
End MultiRegionSetupFacts.

(** ** Time synchronisation samples *)

Section TimeSyncFacts.
Import TimeSync.

Lemma record_window (maxSamples : Z) (r : PingResult)
    (samples : list PingResult) :
  0 <= maxSamples ->
  (List.length samples <= Z.to_nat maxSamples)%nat ->
  record maxSamples r samples =
    drop (List.length (samples ++ [r]) - Z.to_nat maxSamples)
         (samples ++ [r]) /\
  (List.length (record maxSamples r samples) <= Z.to_nat maxSamples)%nat.
Proof.
  intros Hmax Hlen. unfold record.
  assert (Hl : List.length (samples ++ [r]) = S (List.length samples))
    by (rewrite length_app; cbn; lia).
  destruct (Z.ltb_spec maxSamples (Z.of_nat (List.length (samples ++ [r]))))
    as [Hlt|Hge].
  - replace (List.length (samples ++ [r]) - Z.to_nat maxSamples)%nat
      with 1%nat by lia.
    split; [reflexivity|]. rewrite length_drop. lia.
  - replace (List.length (samples ++ [r]) - Z.to_nat maxSamples)%nat
      with 0%nat by lia.
    split; [reflexivity | lia].
Qed.

Lemma recordAll_window (maxSamples : Z) (results samples : list PingResult) :
  0 <= maxSamples ->
  (List.length samples <= Z.to_nat maxSamples)%nat ->
  fold_left (fun samples r => record maxSamples r samples) results samples =
  drop (List.length (samples ++ results) - Z.to_nat maxSamples)
       (samples ++ results).
Proof.
  intros Hmax. revert samples.
  induction results as [|r results IH]; intros samples Hlen.
  - cbn [fold_left]. rewrite app_nil_r.
    replace (List.length samples - Z.to_nat maxSamples)%nat with 0%nat by lia.
    reflexivity.
  - cbn [fold_left].
    destruct (record_window maxSamples r samples Hmax Hlen) as [Hrec Hlen'].
    rewrite IH by exact Hlen'. rewrite Hrec.
    set (k := (List.length (samples ++ [r]) - Z.to_nat maxSamples)%nat).
    assert (Hk : (k <= List.length (samples ++ [r]))%nat) by (subst k; lia).
    rewrite <- (drop_app_le (samples ++ [r]) results k) by exact Hk.
    rewrite drop_drop, length_drop.
    rewrite <- app_assoc. cbn [app].
    f_equal. subst k. rewrite !length_app in *. cbn [List.length] in *. lia.
Qed.

(** The manager keeps a sliding window: after any sequence of pings it
    holds the last [maxSamples] results, in order, or all of them when
    there are fewer. *)
Theorem recordAll_keeps_latest (maxSamples : Z) (results : list PingResult) :
  0 <= maxSamples ->
  recordAll maxSamples results =
  drop (List.length results - Z.to_nat maxSamples) results.
Proof.
  intros Hmax. unfold recordAll.
  rewrite recordAll_window; [reflexivity | done | cbn; lia].
Qed.

Lemma recordAll_keeps_latest_witness :
  let r n := {| WebSocketTransport.seq := n;
                WebSocketTransport.rttMs := 10 + n;
                WebSocketTransport.clockOffsetMs := 0;
                WebSocketTransport.serverTime := n |} in
  recordAll 2 [r 1; r 2; r 3] = [r 2; r 3].
Proof.
  intros r. apply (recordAll_keeps_latest 2 [r 1; r 2; r 3]). lia.
Defined.

Lemma median_splits (values : list Z) :
  values <> [] ->
  exists m lo hi,
    median values = Some m /\
    lo ++ m :: hi ≡ₚ values /\
    List.length lo = (List.length values / 2)%nat /\
    Forall (fun x => x <= m) lo /\ Forall (fun x => m <= x) hi.
Proof.
  intros Hne. unfold median.
  rewrite bool_decide_eq_false_2 by (by destruct values).
  cbv zeta. unfold sortNumbers.
  set (sorted := merge_sort Z.le values).
  assert (Hperm : sorted ≡ₚ values) by apply merge_sort_Permutation.
  assert (Hlen : List.length sorted = List.length values)
    by (by rewrite Hperm).
  assert (Hsorted : StronglySorted Z.le sorted).
  { apply Sorted_StronglySorted; [intros x y z; lia|].
    apply Sorted_merge_sort. intros x y. lia. }
  assert (Hpos : (0 < List.length values)%nat)
    by (destruct values; [done | cbn; lia]).
  assert (Hk : Z.to_nat (Z.of_nat (List.length sorted) / 2)
               = (List.length values / 2)%nat).
  { rewrite Hlen. rewrite <- (Nat2Z.id (List.length values / 2)).
    f_equal. by rewrite Nat2Z.inj_div. }
  rewrite Hk.
  assert (Hlt : (List.length values / 2 < List.length sorted)%nat).
  { rewrite Hlen. apply Nat.div_lt; lia. }
  destruct (lookup_lt_is_Some_2 sorted _ Hlt) as [m Hm].
  exists m, (take (List.length values / 2) sorted),
    (drop (S (List.length values / 2)) sorted).
  split; [exact Hm|].
  pose proof (take_drop_middle sorted _ m Hm) as Hsplit.
  split; [by rewrite Hsplit|].
  split; [rewrite length_take; lia|].
  rewrite <- Hsplit in Hsorted.
  split.
  - apply Forall_forall. intros x Hx.
    eapply (StronglySorted_app_1_elem_of Z.le); [exact Hsorted | exact Hx|].
    left.
  - apply StronglySorted_app_1_r in Hsorted.
    by apply StronglySorted_cons in Hsorted as [H _].
Qed.

(** [medianRttMs] and [medianClockOffsetMs] return [null] without samples
    and otherwise the upper median: one of the values, with half of the
    others (rounded down) at most as large and the rest at least as
    large. *)
Theorem medians_are_upper_medians (samples : list PingResult) :
  let splits (values : list Z) (result : option Z) :=
    match values with
    | [] => result = None
    | _ =>
        exists m lo hi,
          result = Some m /\ lo ++ m :: hi ≡ₚ values /\
          List.length lo = (List.length values / 2)%nat /\
          Forall (fun x => x <= m) lo /\ Forall (fun x => m <= x) hi
    end in
  splits (WebSocketTransport.rttMs <$> samples) (medianRttMs samples) /\
  splits (WebSocketTransport.clockOffsetMs <$> samples)
    (medianClockOffsetMs samples).
Proof.
  cbv zeta. unfold medianRttMs, medianClockOffsetMs.
  destruct samples as [|s samples]; [split; reflexivity|].
  split; apply median_splits; discriminate.
Qed.
End TimeSyncFacts.

(** ** Discovery: the worker a client connects to *)

Section DiscoveryFacts.
Import Discovery.

Lemma filter_first {A} (f : A -> bool) (l : list A) (x : A) (rest : list A) :
  List.filter f l = x :: rest ->
  exists pre post,
    l = pre ++ x :: post /\ f x = true /\
    Forall (fun y => f y = false) pre.
Proof.
  induction l as [|y l IH]; [discriminate|].
  cbn [List.filter]. destruct (f y) eqn:Hy.
  - intros [= -> <-]. exists [], l. by repeat split.
  - intros H. destruct (IH H) as (pre & post & -> & Hx & Hpre).
    exists (y :: pre), post. repeat split; [done|]. by constructor.
Qed.

Lemma filter_none_healthy {A} (f : A -> bool) (l : list A) :
  existsb f l = false -> List.filter f l = [].
Proof.
  induction l as [|y l IH]; [done|]. cbn.
  destruct (f y); [done | exact IH].
Qed.

Lemma existsb_filter {A} (f : A -> bool) (l : list A) :
  existsb f l = true -> List.filter f l <> [].
Proof.
  induction l as [|y l IH]; [done|]. cbn.
  destruct (f y); [done | exact IH].
Qed.

(** When the first part of [connect] finds a worker, it is the first
    healthy worker of the chosen region in the order of the response, and
    the chosen region is the configured one or the recommended one. *)
Theorem resolveEndpoint_picks_first_healthy_worker
    (response : DiscoveryResponse) (configRegion : option string)
    (r endpoint : string) :
  resolveEndpoint response configRegion = Js.Return (r, endpoint) ->
  (configRegion = Some r \/ recommended_region response = Some r) /\
  exists pre worker post,
    workers response = pre ++ worker :: post /\
    region worker = r /\ healthy worker = true /\
    Forall (fun w => ~ (region w = r /\ healthy w = true)) pre /\
    endpoint = ("http://" +:+ ip worker +:+ ":" +:+ pretty (port_http worker))
               %string.
Proof.
  unfold resolveEndpoint. intros H.
  destruct (bestRegion response configRegion) as [[|c r']|] eqn:Hbest;
    try discriminate.
  destruct (workersForRegion response (String c r')) as [|worker rest]
    eqn:Hw; [discriminate|].
  injection H as <- <-. split.
  - unfold bestRegion in Hbest.
    destruct configRegion as [p|]; [|by right].
    destruct (Js.truthy (Some p) && existsb (serves p) (workers response));
      [left | right]; congruence.
  - apply filter_first in Hw as (pre & post & Hsplit & Hserves & Hpre).
    exists pre, worker, post.
    unfold serves in Hserves. apply andb_true_iff in Hserves as [Hr Hh].
    apply bool_decide_eq_true in Hr.
    repeat split; try done.
    eapply Forall_impl; [exact Hpre|]. intros w Hf [Hwr Hwh].
    unfold serves in Hf. by rewrite bool_decide_eq_true_2, Hwh in Hf.
Qed.

Lemma resolveEndpoint_picks_first_healthy_witness :
  let w1 := {| id := "a"; region := "eu"; ip := "10.0.0.1";
               port_http := 9091; healthy := false |} in
  let w2 := {| id := "b"; region := "eu"; ip := "10.0.0.2";
               port_http := 9091; healthy := true |} in
  exists worker,
    worker = w2 /\ region worker = "eu"%string /\ healthy worker = true.
Proof.
  intros w1 w2.
  destruct (resolveEndpoint_picks_first_healthy_worker
              {| workers := [w1; w2]; recommended_region := None |}
              (Some "eu"%string) "eu" "http://10.0.0.2:9091" eq_refl)
    as (_ & pre & worker & post & Hsplit & Hr & Hh & Hpre & _).
  exists worker. split; [|by split].
  destruct pre as [|x [|y pre]]; cbn in Hsplit.
  - injection Hsplit as <- _. by cbn in Hh.
  - by injection Hsplit as _ <- _.
  - injection Hsplit as _ _ Hnil. by destruct pre.
Defined.

(** A preferred region with a healthy worker is always the one chosen,
    whatever the service recommends. *)
Theorem resolveEndpoint_honours_preferred
    (response : DiscoveryResponse) (p : string) :
  p <> ""%string ->
  existsb (serves p) (workers response) = true ->
  exists endpoint,
    resolveEndpoint response (Some p) = Js.Return (p, endpoint).
Proof.
  intros Hp Hex. destruct p as [|c p]; [done|].
  unfold resolveEndpoint, bestRegion.
  cbn [Js.truthy andb]. rewrite Hex.
  unfold workersForRegion.
  destruct (List.filter _ (workers response)) as [|worker rest] eqn:Hw.
  - by apply existsb_filter in Hex.
  - eauto.
Qed.

Lemma resolveEndpoint_honours_preferred_witness :
  exists endpoint,
    resolveEndpoint
      {| workers := [{| id := "b"; region := "eu"; ip := "10.0.0.2";
                        port_http := 9091; healthy := true |}];
         recommended_region := Some "us"%string |}
      (Some "eu"%string) = Js.Return ("eu"%string, endpoint).
Proof.
  apply (resolveEndpoint_honours_preferred
           {| workers := [{| id := "b"; region := "eu"; ip := "10.0.0.2";
                             port_http := 9091; healthy := true |}];
              recommended_region := Some "us"%string |} "eu");
    [done | reflexivity].
Defined.

(** Only the preferred and the recommended region are looked at: when
    neither has a healthy worker the connection fails with a CONNECTION
    error, healthy workers of other regions notwithstanding. *)
Theorem resolveEndpoint_tries_no_other_region
    (response : DiscoveryResponse) (configRegion : option string) :
  (forall p, configRegion = Some p ->
     existsb (serves p) (workers response) = false) ->
  (forall r, recommended_region response = Some r ->
     existsb (serves r) (workers response) = false) ->
  exists e,
    resolveEndpoint response configRegion = Js.Throw e /\
    SlipstreamError.code e = "CONNECTION"%string.
Proof.
  intros Hpref Hrec. unfold resolveEndpoint.
  assert (Hbest : bestRegion response configRegion =
                  recommended_region response).
  { unfold bestRegion. destruct configRegion as [p|]; [|done].
    by rewrite (Hpref p eq_refl), andb_false_r. }
  rewrite Hbest.
  destruct (recommended_region response) as [[|c r]|] eqn:Hr;
    [by eexists | | by eexists].
  unfold workersForRegion.
  rewrite filter_none_healthy by (by apply Hrec). by eexists.
Qed.

Lemma resolveEndpoint_tries_no_other_region_witness :
  let response :=
    {| workers := [{| id := "a"; region := "us"; ip := "10.0.0.1";
                      port_http := 9091; healthy := false |};
                   {| id := "b"; region := "eu"; ip := "10.0.0.2";
                      port_http := 9091; healthy := true |}];
       recommended_region := Some "us"%string |} in
  existsb healthy (workers response) = true /\
  exists e,
    resolveEndpoint response None = Js.Throw e /\
    SlipstreamError.code e = "CONNECTION"%string.
Proof.
  intros response. split; [reflexivity|].
  apply resolveEndpoint_tries_no_other_region.
  - intros p Hp. discriminate.
  - intros r Hr. injection Hr as <-. reflexivity.
Defined.
End DiscoveryFacts.

(** ** Worker selection *)

Section WorkerSelectorFacts.
Import WorkerSelector.

(** One turn of the loop, through the usable round-trip time. *)
Lemma consider_usable (latencies : list (string * LatencyMeasurement))
    (acc : option WorkerEndpoint * option Z) (worker : WorkerEndpoint) :
  consider latencies acc worker =
  match usableRtt latencies worker with
  | Some x => if lt_number (Some x) (snd acc) then (Some worker, Some x)
              else acc
  | None => acc
  end.
Proof.
  unfold consider, usableRtt.
  destruct (getMeasurement _ latencies) as [[rtt at_ [|]]|]; cbn;
    [|reflexivity..].
  destruct rtt; reflexivity.
Qed.

(** The loop keeps the earliest worker of least usable round-trip time. *)
Lemma pick_invariant (latencies : list (string * LatencyMeasurement))
    (workers seen : list WorkerEndpoint)
    (acc : option WorkerEndpoint * option Z) :
  match acc with
  | (Some b, Some x) =>
      b ∈ seen /\ usableRtt latencies b = Some x /\
      forall w y, w ∈ seen -> usableRtt latencies w = Some y -> x <= y
  | (None, None) => forall w, w ∈ seen -> usableRtt latencies w = None
  | _ => False
  end ->
  match fold_left (consider latencies) workers acc with
  | (Some b, Some x) =>
      b ∈ seen ++ workers /\ usableRtt latencies b = Some x /\
      forall w y, w ∈ seen ++ workers ->
        usableRtt latencies w = Some y -> x <= y
  | (None, None) =>
      forall w, w ∈ seen ++ workers -> usableRtt latencies w = None
  | _ => False
  end.
Proof.
  revert seen acc. induction workers as [|worker workers IH];
    intros seen acc Hacc.
  - cbn [fold_left]. by rewrite app_nil_r.
  - cbn [fold_left].
    replace (seen ++ worker :: workers) with ((seen ++ [worker]) ++ workers)
      by (by rewrite <- app_assoc).
    apply IH. rewrite consider_usable.
    destruct (usableRtt latencies worker) as [x|] eqn:Hu.
    + destruct acc as [[b|] [bx|]]; try done; cbn [snd lt_number].
      * destruct Hacc as (Hb & Hbx & Hmin).
        destruct (Z.ltb_spec x bx) as [Hlt|Hge].
        -- repeat split; [set_solver | done |].
           intros w y [Hw|Hw]%elem_of_app Hy.
           ++ specialize (Hmin w y Hw Hy). lia.
           ++ apply list_elem_of_singleton in Hw. subst w.
              rewrite Hu in Hy. injection Hy as <-. lia.
        -- repeat split; [set_solver | done |].
           intros w y [Hw|Hw]%elem_of_app Hy.
           ++ by apply (Hmin w y).
           ++ apply list_elem_of_singleton in Hw. subst w.
              rewrite Hu in Hy. injection Hy as <-. lia.
      * repeat split; [set_solver | done |].
        intros w y [Hw|Hw]%elem_of_app Hy.
        -- rewrite (Hacc w Hw) in Hy. discriminate.
        -- apply list_elem_of_singleton in Hw. subst w.
           rewrite Hu in Hy. injection Hy as <-. lia.
    + destruct acc as [[b|] [bx|]]; try done.
      * destruct Hacc as (Hb & Hbx & Hmin).
        repeat split; [set_solver | done |].
        intros w y [Hw|Hw]%elem_of_app Hy; [by apply (Hmin w y)|].
        apply list_elem_of_singleton in Hw. subst w.
        rewrite Hu in Hy. discriminate.
      * intros w [Hw|Hw]%elem_of_app; [by apply Hacc|].
        apply list_elem_of_singleton in Hw. by subst w.
Qed.

(** [selectBest] fails only without workers.  With two workers or more
    it returns a worker whose measurement is reachable and whose
    round-trip time is the least of all reachable ones; when none is
    reachable it returns the first worker. *)
Theorem selectBest_picks_least_rtt
    (first second : WorkerEndpoint) (rest : list WorkerEndpoint)
    (latencies : list (string * LatencyMeasurement)) :
  let workers := first :: second :: rest in
  exists best,
    selectBest workers latencies = Js.Return best /\
    best ∈ workers /\
    match usableRtt latencies best with
    | Some x =>
        forall w y, w ∈ workers -> usableRtt latencies w = Some y -> x <= y
    | None =>
        best = first /\
        forall w, w ∈ workers -> usableRtt latencies w = None
    end.
Proof.
  intros workers. unfold selectBest, pickBest. cbn [workers].
  fold workers.
  pose proof (pick_invariant latencies workers [] (None, None)) as H.
  cbn [app] in H.
  destruct (fold_left (consider latencies) workers (None, None))
    as [[b|] [x|]]; cbn [fst default].
  - destruct H as (Hb & Hx & Hmin).
    { intros w Hw. by apply elem_of_nil in Hw. }
    exists b. rewrite Hx. by repeat split.
  - destruct H. intros w Hw. by apply elem_of_nil in Hw.
  - destruct H. intros w Hw. by apply elem_of_nil in Hw.
  - exists first.
    assert (Hnone : forall w, w ∈ workers -> usableRtt latencies w = None).
    { apply H. intros w Hw. by apply elem_of_nil in Hw. }
    rewrite (Hnone first) by (subst workers; left).
    repeat split; [subst workers; left | exact Hnone].
Qed.
End WorkerSelectorFacts.

(** ** Client metrics: what the counters add up *)

Section ClientAccountingFacts.
Import Client ClientAccounting.

Lemma sumZ_app (l1 l2 : list Z) : sumZ (l1 ++ l2) = sumZ l1 + sumZ l2.
Proof.
  induction l1 as [|x l1 IH]; [reflexivity|].
  cbn [app sumZ foldr] in *. fold (sumZ (l1 ++ l2)). fold (sumZ l1). lia.
Qed.

Lemma accounting_fold (os : list outcome) (st : state) :
  let st' := fold_left (fun st o => submitTransactionWithOptions o st) os st in
  txSubmitted st' = txSubmitted st + Z.of_nat (List.length os) /\
  txConfirmed st' =
    txConfirmed st + Z.of_nat (List.length (confirmedCalls os)) /\
  totalLatencyMs st' = totalLatencyMs st + sumZ (returnedLatencies os) /\
  lastLatencyMs st' = default (lastLatencyMs st) (last (returnedLatencies os)).
Proof.
  revert st. induction os as [|o os IH]; intros st.
  - cbn. repeat split; lia.
  - cbn [fold_left]. cbv zeta in IH |- *.
    destruct (IH (submitTransactionWithOptions o st)) as (H1 & H2 & H3 & H4).
    rewrite H1, H2, H3, H4. clear IH H1 H2 H3 H4.
    destruct o as [|status elapsed].
    + repeat split; cbn; lia.
    + repeat split.
      * cbn. lia.
      * unfold confirmedCalls. cbn.
        destruct (counts_as_confirmed status); cbn [List.length]; lia.
      * unfold returnedLatencies, sumZ. cbn. lia.
      * unfold returnedLatencies. cbn.
        destruct (omap _ os) as [|x l] eqn:Hl; [reflexivity|].
        change (last (elapsed :: x :: l)) with (last (x :: l)).
        destruct (last (x :: l)) eqn:Hlast; [reflexivity|].
        by apply last_None in Hlast.
Qed.

(** What the counters add up: every call is counted as submitted, but
    only the calls that return contribute their latency (and can count as
    confirmed), so the average latency is the total latency of the calls
    that returned divided by the number of all calls, the ones that threw
    included. *)
Theorem metrics_average_counts_failed_calls (os : list outcome) :
  let m := metrics (after os) in
  transactionsSubmitted m = Z.of_nat (List.length os) /\
  transactionsConfirmed m = Z.of_nat (List.length (confirmedCalls os)) /\
  totalLatencyMs (after os) = sumZ (returnedLatencies os) /\
  lastLatencyMs (after os) = default 0 (last (returnedLatencies os)) /\
  averageLatencyMs m =
    match os with
    | [] => 0%Q
    | _ => (inject_Z (sumZ (returnedLatencies os))
            / inject_Z (Z.of_nat (List.length os)))%Q
    end.
Proof.
  cbv zeta. unfold after.
  destruct (accounting_fold os init) as (H1 & H2 & H3 & H4).
  cbn [txSubmitted txConfirmed totalLatencyMs lastLatencyMs init] in *.
  unfold metrics.
  cbn [transactionsSubmitted transactionsConfirmed averageLatencyMs].
  rewrite H1, H2, H3, H4, !Z.add_0_l.
  repeat split.
  destruct os as [|o os]; [reflexivity|].
  destruct (Z.ltb_spec 0 (Z.of_nat (List.length (o :: os)))) as [_|Hle];
    [reflexivity|].
  cbn [List.length] in Hle. lia.
Qed.
End ClientAccountingFacts.

(** ** Binary codec: the optional tag byte *)

Section TagFacts.
Import Js Binary.

Lemma readBE_tail (width : nat) (t : byte) (buf : Buffer) (z z' : Z) :
  0 <= z -> z' = z + 1 ->
  readBE width (t :: buf) (Some z') = readBE width buf (Some z).
Proof.
  intros Hz ->. unfold readBE.
  rewrite (proj2 (Z.leb_le 0 (z + 1))), (proj2 (Z.leb_le 0 z)) by lia.
  cbn [andb List.length].
  replace (Z.to_nat (z + 1)) with (S (Z.to_nat z)) by lia. cbn [drop].
  destruct (Z.leb_spec (z + Z.of_nat width) (Z.of_nat (List.length buf)));
    destruct (Z.leb_spec (z + 1 + Z.of_nat width)
                (Z.of_nat (S (List.length buf)))); (reflexivity || lia).
Qed.

Lemma index_tail (t : byte) (buf : Buffer) (z z' : Z) :
  0 <= z -> z' = z + 1 ->
  index (t :: buf) (Some z') = index buf (Some z).
Proof.
  intros Hz ->. unfold index.
  rewrite (proj2 (Z.ltb_ge (z + 1) 0)), (proj2 (Z.ltb_ge z 0)) by lia.
  replace (Z.to_nat (z + 1)) with (S (Z.to_nat z)) by lia. reflexivity.
Qed.

(** The tag byte of a stream frame is optional for the fixed-layout
    decoders: a priority fee or latest slot payload decodes the same with
    and without its tag in front.  The equation also says what happens to
    a bare payload that begins with the tag value: that byte is taken
    for the tag and skipped. *)
Theorem stream_tag_is_optional (b : byte) (rest : list byte) :
  (byteZ b <> STREAM_TYPE.PriorityFees ->
   parsePriorityFee (x04 :: b :: rest) = parsePriorityFee (b :: rest)) /\
  (byteZ b <> STREAM_TYPE.LatestSlot ->
   parseLatestSlot (x07 :: b :: rest) = parseLatestSlot (b :: rest)).
Proof.
  split; intros Hb.
  - unfold parsePriorityFee. cbn [length ltb List.length].
    destruct (Z.ltb_spec (Z.of_nat (S (S (List.length rest)))) 1); [lia|].
    destruct (Z.ltb_spec (Z.of_nat (S (List.length rest))) 1); [lia|].
    change (index (x04 :: b :: rest) (Some 0)) with (Some 4).
    change (index (b :: rest) (Some 0)) with (Some (byteZ b)).
    change (strict_eqb (Some 4) STREAM_TYPE.PriorityFees) with true.
    assert (Hneq : strict_eqb (Some (byteZ b)) STREAM_TYPE.PriorityFees
                   = false) by (by apply Z.eqb_neq).
    rewrite !Hneq.
    cbv iota. cbn [add]. unfold readBigUInt64BE, readUInt32BE.
    rewrite (readBE_tail 8 x04 (b :: rest) 0 (0 + 1)) by lia.
    rewrite (readBE_tail 4 x04 (b :: rest) (0 + 8 + 1) (0 + 1 + 8 + 1))
      by lia.
    rewrite (readBE_tail 8 x04 (b :: rest) (0 + 8 + 1 + 4)
               (0 + 1 + 8 + 1 + 4)) by lia.
    rewrite (index_tail x04 (b :: rest) (0 + 8) (0 + 1 + 8)) by lia.
    reflexivity.
  - unfold parseLatestSlot. cbn [length ltb List.length].
    destruct (Z.ltb_spec (Z.of_nat (S (S (List.length rest)))) 1); [lia|].
    destruct (Z.ltb_spec (Z.of_nat (S (List.length rest))) 1); [lia|].
    change (index (x07 :: b :: rest) (Some 0)) with (Some 7).
    change (index (b :: rest) (Some 0)) with (Some (byteZ b)).
    change (strict_eqb (Some 7) STREAM_TYPE.LatestSlot) with true.
    assert (Hneq : strict_eqb (Some (byteZ b)) STREAM_TYPE.LatestSlot
                   = false) by (by apply Z.eqb_neq).
    rewrite !Hneq.
    cbv iota. cbn [add]. unfold readBigUInt64BE.
    rewrite (readBE_tail 8 x07 (b :: rest) 0 (0 + 1)) by lia.
    rewrite (readBE_tail 8 x07 (b :: rest) (0 + 8) (0 + 1 + 8)) by lia.
    reflexivity.
Qed.
End TagFacts.
